(** * Airtable MCP server: request lifecycle and path construction

    A shallow embedding of [src/tools/airtable-tools.ts] (the tool
    dispatcher [AirtableTools.executeTool], with [canHandle],
    [ensureInitialized] and [getToolDefinitions]) and of
    [src/clients/airtable-client.ts] (the eighteen generated endpoint
    methods, [buildPath], and the construction of the client with
    [resolveBaseUrl] and [getAuthHeaders]), together with the
    cancellation registry and the progress correlator that the design
    document describes.

    Conventions.
    - A JavaScript string is kept as the [string] of its UTF-8 bytes, so
      that [encodeURIComponent] is a map over bytes.  Strings holding a
      lone surrogate, on which [encodeURIComponent] throws, have no UTF-8
      form and are outside the model.
    - A JavaScript number is an integer in [Z]; floating point values are
      outside the model.
    - An object used as a record of parameters is the list of its
      [Object.entries], in enumeration order; properties inherited from
      [Object.prototype] are outside the model.
    - [async] code is written in a state-and-exception monad; what the
      outside world does while a promise is awaited is read from an
      environment [Env]. *)

From Stdlib Require Import String Ascii List ZArith Lia Bool DecimalString.
From stdpp Require Import base gmap strings.
Import ListNotations.
Open Scope string_scope.
Open Scope list_scope.

(** ** JavaScript values and primitives *)

#[warnings="-register-all"]
Inductive JsValue : Type :=
| JUndefined
| JNull
| JBool (b : bool)
| JNum (n : Z)
| JStr (s : string)
| JArr (items : list JsValue)
| JObj (entries : list (string * JsValue)).

(** [x !== undefined] *)
Definition is_defined (v : JsValue) : bool :=
  match v with JUndefined => false | _ => true end.

Definition Z_to_string (n : Z) : string := NilZero.string_of_int (Z.to_int n).

(** [Array.prototype.join(sep)] on already converted elements. *)
Fixpoint join (sep : string) (parts : list string) : string :=
  match parts with
  | [] => ""
  | [p] => p
  | p :: rest => p +:+ sep +:+ join sep rest
  end.

(** [String(v)].  Inside an array, [null] and [undefined] print as the
    empty string. *)
Fixpoint JsString (v : JsValue) : string :=
  match v with
  | JUndefined => "undefined"
  | JNull => "null"
  | JBool true => "true"
  | JBool false => "false"
  | JNum n => Z_to_string n
  | JStr s => s
  | JArr items =>
      join "," (map (fun x => match x with
                              | JUndefined | JNull => ""
                              | _ => JsString x
                              end) items)
  | JObj _ => "[object Object]"
  end.

(** A record of parameters, as its [Object.entries]. *)
Definition Params := list (string * JsValue).

(** [params[key]]: the first entry under [key], [undefined] when there is
    none. *)
Fixpoint get_param (params : Params) (key : string) : JsValue :=
  match params with
  | [] => JUndefined
  | (k, v) :: rest => if String.eqb k key then v else get_param rest key
  end.

(** [Array.prototype.includes] on an array of strings. *)
Fixpoint includes_str (l : list string) (x : string) : bool :=
  match l with
  | [] => false
  | y :: rest => String.eqb y x || includes_str rest x
  end.

(** *** Substrings: [String.prototype.includes] and [replace] *)

(** [strip_prefix p s] is [Some rest] when [s = p +:+ rest]. *)
Fixpoint strip_prefix (p s : string) : option string :=
  match p with
  | EmptyString => Some s
  | String a p' =>
      match s with
      | EmptyString => None
      | String b s' => if Ascii.eqb a b then strip_prefix p' s' else None
      end
  end.

(** The first occurrence of [pat] in [s]: the text before it and the text
    after it. *)
Fixpoint find_sub (pat s : string) : option (string * string) :=
  match strip_prefix pat s with
  | Some post => Some (EmptyString, post)
  | None =>
      match s with
      | EmptyString => None
      | String c s' =>
          match find_sub pat s' with
          | Some (pre, post) => Some (String c pre, post)
          | None => None
          end
      end
  end.

(** [s.includes(pat)] *)
Definition str_includes (s pat : string) : bool :=
  match find_sub pat s with Some _ => true | None => false end.

(** The expansion of a replacement string, for a string pattern (no
    capture groups): [$$] is a dollar, [$&] the match, [$`] the text
    before it, [$'] the text after it; any other dollar stays. *)
Fixpoint get_substitution (matched pre post repl : string) : string :=
  match repl with
  | EmptyString => EmptyString
  | String c rest =>
      if Ascii.eqb c "$" then
        match rest with
        | EmptyString => "$"
        | String d rest' =>
            if Ascii.eqb d "$" then "$" +:+ get_substitution matched pre post rest'
            else if Ascii.eqb d "&" then matched +:+ get_substitution matched pre post rest'
            else if Ascii.eqb d "`" then pre +:+ get_substitution matched pre post rest'
            else if Ascii.eqb d "'" then post +:+ get_substitution matched pre post rest'
            else String "$" (get_substitution matched pre post rest)
        end
      else String c (get_substitution matched pre post rest)
  end.

(** [s.replace(pat, repl)] with a string pattern: the first occurrence
    only. *)
Definition str_replace (s pat repl : string) : string :=
  match find_sub pat s with
  | Some (pre, post) => pre +:+ get_substitution pat pre post repl +:+ post
  | None => s
  end.

(** *** [encodeURIComponent] *)

Definition in_range (lo hi : nat) (c : ascii) : bool :=
  (lo <=? nat_of_ascii c)%nat && (nat_of_ascii c <=? hi)%nat.

(** The characters [encodeURIComponent] leaves alone:
    [A-Z a-z 0-9 - _ . ! ~ * ' ( )]. *)
Definition uri_unreserved (c : ascii) : bool :=
  in_range 65 90 c || in_range 97 122 c || in_range 48 57 c ||
  existsb (Ascii.eqb c) ["-"; "_"; "."; "!"; "~"; "*"; "'"; "("; ")"]%char.

Definition hex_digit (n : nat) : ascii :=
  match String.get n "0123456789ABCDEF" with
  | Some d => d
  | None => "0"%char
  end.

Definition percent_encode (c : ascii) : string :=
  String "%" (String (hex_digit (nat_of_ascii c / 16))
             (String (hex_digit (nat_of_ascii c mod 16)) EmptyString)).

Fixpoint encodeURIComponent (s : string) : string :=
  match s with
  | EmptyString => EmptyString
  | String c rest =>
      (if uri_unreserved c then String c EmptyString else percent_encode c)
      +:+ encodeURIComponent rest
  end.

(** [s.replace(/%2F/g, '/')] *)
Fixpoint restore_slashes (s : string) : string :=
  match s with
  | EmptyString => EmptyString
  | String c rest =>
      match rest with
      | String d (String e rest') =>
          if Ascii.eqb c "%" && Ascii.eqb d "2" && Ascii.eqb e "F"
          then String "/" (restore_slashes rest')
          else String c (restore_slashes rest)
      | _ => String c (restore_slashes rest)
      end
  end.

(** ** [AirtableClient.buildPath] *)

(** The local [encodePathComponent] of [buildPath]. *)
Definition encodePathComponent (value : string) : string :=
  restore_slashes (encodeURIComponent value).

(** The longest prefix of [s] made of characters that [stop] rejects, and
    what follows it. *)
Fixpoint span_until (stop : ascii -> bool) (s : string) : string * string :=
  match s with
  | EmptyString => (EmptyString, EmptyString)
  | String c rest =>
      if stop c then (EmptyString, s)
      else let '(a, b) := span_until stop rest in (String c a, b)
  end.

Definition is_close_or_eq (c : ascii) : bool := Ascii.eqb c "}" || Ascii.eqb c "=".
Definition is_close (c : ascii) : bool := Ascii.eqb c "}".

(** A match of [/{([^}=]+)=[^}]*}/] anchored at the start of [s]: the
    whole match and its first group.  Both character classes exclude the
    character that must follow them, so the match is unique. *)
Definition google_match_at (s : string) : option (string * string) :=
  match s with
  | String "{" rest =>
      let '(name, after_name) := span_until is_close_or_eq rest in
      match name, after_name with
      | String _ _, String "=" rest2 =>
          let '(pat, after_pat) := span_until is_close rest2 in
          match after_pat with
          | String "}" _ => Some ("{" +:+ name +:+ "=" +:+ pat +:+ "}", name)
          | _ => None
          end
      | _, _ => None
      end
  | _ => None
  end.

(** A match of [/{([^}=]+)}/] anchored at the start of [s]: the whole
    match and the name between the braces. *)
Definition standard_match_at (s : string) : option (string * string) :=
  match s with
  | String "{" rest =>
      let '(name, after_name) := span_until is_close_or_eq rest in
      match name, after_name with
      | String _ _, String "}" _ => Some ("{" +:+ name +:+ "}", name)
      | _, _ => None
      end
  | _ => None
  end.

(** The successive matches of a global regular expression, from left to
    right, each search starting where the previous match ended ([skip]
    counts the characters still inside it); [match_at] is the anchored
    match. *)
Fixpoint regex_matches_from (match_at : string -> option (string * string))
    (skip : nat) (s : string) : list (string * string) :=
  match s with
  | EmptyString => []
  | String _ rest =>
      match skip with
      | S k => regex_matches_from match_at k rest
      | O =>
          match match_at s with
          | Some (full, name) =>
              (full, name) :: regex_matches_from match_at (String.length full - 1) rest
          | None => regex_matches_from match_at 0 rest
          end
      end
  end.

(** The results of [googlePathTemplateRegex.exec(template)] in a loop. *)
Definition google_matches (template : string) : list (string * string) :=
  regex_matches_from google_match_at 0 template.

(** [template.match(/{([^}=]+)}/g) || []] *)
Definition standard_matches (template : string) : list (string * string) :=
  regex_matches_from standard_match_at 0 template.

(** One turn of the [while] loop over Google-style templates. *)
Definition google_step (params : Params) (acc : string * list string)
    (m : string * string) : string * list string :=
  let '(path, processedParams) := acc in
  let '(fullMatch, paramName) := m in
  if negb (String.eqb paramName "") && is_defined (get_param params paramName) then
    (str_replace path fullMatch (encodePathComponent (JsString (get_param params paramName))),
     processedParams ++ [paramName])
  else acc.

(** One turn of the [for] loop over [Object.entries(params)]. *)
Definition standard_step (acc : string * list string) (entry : string * JsValue)
    : string * list string :=
  let '(path, processedParams) := acc in
  let '(key, value) := entry in
  if negb (includes_str processedParams key) then
    let standardTemplate := "{" +:+ key +:+ "}" in
    if str_includes path standardTemplate then
      (str_replace path standardTemplate (encodePathComponent (JsString value)),
       processedParams ++ [key])
    else acc
  else acc.

Definition buildPath (template : string) (params : Params) : string :=
  let after_google :=
    fold_left (google_step params) (google_matches template) (template, []) in
  fst (fold_left standard_step params after_google).

(** *** Templates made of text and placeholders *)

(** A piece of a path template: literal text, or a placeholder [{key}]. *)
Inductive Segment : Type :=
| Lit (text : string)
| Hole (key : string).

Definition placeholder (key : string) : string := "{" +:+ key +:+ "}".

Definition render_segment (s : Segment) : string :=
  match s with
  | Lit text => text
  | Hole key => placeholder key
  end.

(** The template a list of pieces stands for. *)
Fixpoint render (segs : list Segment) : string :=
  match segs with
  | [] => EmptyString
  | s :: rest => render_segment s +:+ render rest
  end.

(** The keys of the placeholders of a template, in order. *)
Fixpoint holes (segs : list Segment) : list string :=
  match segs with
  | [] => []
  | Lit _ :: rest => holes rest
  | Hole key :: rest => key :: holes rest
  end.

Fixpoint all_chars (ok : ascii -> bool) (s : string) : bool :=
  match s with
  | EmptyString => true
  | String c rest => ok c && all_chars ok rest
  end.

Definition not_open (c : ascii) : bool := negb (Ascii.eqb c "{").

Definition not_close (c : ascii) : bool := negb (Ascii.eqb c "}").

(** Text without an opening brace. *)
Definition no_open (s : string) : bool := all_chars not_open s.

(** Text without a closing brace. *)
Definition no_close (s : string) : bool := all_chars not_close s.

(** A key without braces and without the equals sign. *)
Definition plain_key (s : string) : bool :=
  all_chars (fun c => not_open c && not_close c && negb (Ascii.eqb c "=")) s.

(** The pieces are told apart by the braces: no opening brace in the
    literal text, no brace and no equals sign in a key. *)
Definition well_formed (segs : list Segment) : bool :=
  forallb (fun s => match s with
                    | Lit text => no_open text
                    | Hole key => plain_key key
                    end) segs.

(** The own property [key] of a record of parameters, if it has one. *)
Fixpoint own_param (params : Params) (key : string) : option JsValue :=
  match params with
  | [] => None
  | (k, v) :: rest => if String.eqb k key then Some v else own_param rest key
  end.

(** A piece once the parameters are filled in: a placeholder whose key
    the record has becomes the encoded value, any other piece stays. *)
Definition fill_segment (params : Params) (s : Segment) : string :=
  match s with
  | Lit text => text
  | Hole key =>
      match own_param params key with
      | Some v => encodePathComponent (JsString v)
      | None => placeholder key
      end
  end.

Fixpoint fill (params : Params) (segs : list Segment) : string :=
  match segs with
  | [] => EmptyString
  | s :: rest => fill_segment params s +:+ fill params rest
  end.

(** The template before and after its first placeholder named [key]. *)
Fixpoint split_at_hole (key : string) (segs : list Segment)
    : option (list Segment * list Segment) :=
  match segs with
  | [] => None
  | Hole k :: rest =>
      if String.eqb k key then Some ([], rest)
      else match split_at_hole key rest with
           | Some (before, after) => Some (Hole k :: before, after)
           | None => None
           end
  | Lit t :: rest =>
      match split_at_hole key rest with
      | Some (before, after) => Some (Lit t :: before, after)
      | None => None
      end
  end.

(** No string occurs twice in the list. *)
Fixpoint distinct (l : list string) : bool :=
  match l with
  | [] => true
  | x :: rest => negb (includes_str rest x) && distinct rest
  end.

(** [obj[key] = value] on a record of parameters. *)
Fixpoint set_param (obj : Params) (key : string) (value : JsValue) : Params :=
  match obj with
  | [] => [(key, value)]
  | (k, v) :: rest =>
      if String.eqb k key then (key, value) :: rest
      else (k, v) :: set_param rest key value
  end.

(** ** Request context, progress and the observable trace *)

(** Modelled from the spec: the type of the progress token is declared
    outside the sources.  The design calls it an opaque value supplied by
    the caller; the README shows a string and refers to the protocol, in
    which a progress token is a string or an integer. *)
Inductive ProgressToken : Type :=
| TokStr (s : string)
| TokNum (n : Z).

(** JavaScript truthiness of a token: the empty string and zero are
    falsy. *)
Definition token_truthy (t : ProgressToken) : bool :=
  match t with
  | TokStr s => negb (String.eqb s "")
  | TokNum n => negb (Z.eqb n 0)
  end.

Record AbortSignal : Type := { aborted : bool }.

Record AbortController : Type := { signal : AbortSignal }.

(** Modelled from the spec: the declaration of [RequestContext]
    ([services/request-tracker.ts]) is not among the sources.  The fields
    are those [executeTool] reads: [context.requestId],
    [context.progressToken] and [context.abortController.signal.aborted];
    the start time, used for durations only, is left out. *)
Record RequestContext : Type := {
  requestId : string;
  progressToken : option ProgressToken;
  abortController : AbortController
}.

Record Progress : Type := {
  progress : Z;
  total : option Z;
  message : string
}.

Inductive HttpVerb : Type := GET | POST | PATCH | PUT | DELETE.

(** A call of [httpClient.get/post/patch/put/delete]. *)
Record HttpRequest : Type := {
  verb : HttpVerb;
  url : string;
  query : Params;
  body : option Params;
  with_signal : bool
}.

(** The methods of [AirtableClient] that [executeTool] dispatches to. *)
Inductive ClientMethod : Type :=
| listBases | getBaseSchema | listRecords | getRecord
| createRecords | updateRecords | replaceRecords | deleteRecords
| getTable | createTable | updateTable
| createField | updateField
| listViews | getView | createView | updateView | deleteView.

(** Calls of the logger, by level and tag. *)
Inductive LogCall : Type :=
| LogInfo (tag : string)
| LogDebug (tag : string)
| LogError (tag : string)
| LogToolStart (tool : string)
| LogToolSuccess (tool : string)
| LogToolError (tool : string) (error_message : string).

(** What a run does to the outside, in order. *)
Inductive Event : Type :=
| EvLog (l : LogCall)
| EvReport (token : ProgressToken) (p : Progress)
| EvCallback (token : ProgressToken) (p : Progress)
| EvInvoke (m : ClientMethod)
| EvHttp (req : HttpRequest).

(** A thrown value: an [Error] with its message, or the error axios
    rejects with when a request is cancelled ([axios.isCancel]). *)
Inductive JsError : Type :=
| Error (msg : string)
| AxiosCancel.

(** [error instanceof Error ? error.message : String(error)] *)
Definition error_message (e : JsError) : string :=
  match e with
  | Error msg => msg
  | AxiosCancel => "canceled"
  end.

Definition isCancel (e : JsError) : bool :=
  match e with AxiosCancel => true | Error _ => false end.

(** [{ content: [ { type, text } ] }] *)
Record ContentBlock : Type := { type : string; text : string }.

Record Payload : Type := { content : list ContentBlock }.

(** ** The world a call runs in *)

(** The places where a call waits on the outside: the two reports of
    [executeTool], the two progress callbacks of an endpoint method, and
    the HTTP request. *)
Inductive AwaitPoint : Type :=
| AwaitReportStart | AwaitCallbackStart | AwaitHttp
| AwaitCallbackDone | AwaitReportDone.

Inductive HttpReply : Type :=
| Resolved (data : JsValue)
| Cancelled
| Rejected (msg : string).

(** What the outside does during one call: the answer to each HTTP
    request, whether the transport aborts the request's controller while
    the call waits at a given point, and the host's
    [JSON.stringify(., null, 2)]. *)
Record Env : Type := {
  http_reply : HttpRequest -> HttpReply;
  cancel_during : AwaitPoint -> bool;
  JSON_stringify : JsValue -> string
}.

(** The mutable state a call can reach: the flag of [AirtableTools], the
    context object its [context] argument refers to ([None] when the
    argument is omitted), and the trace so far. *)
Record State : Type := {
  initialized : bool;
  context : option RequestContext;
  events : list Event
}.

(** [controller.abort()]: the one-way transition of the signal. *)
Definition abort_context (c : RequestContext) : RequestContext :=
  {| requestId := requestId c;
     progressToken := progressToken c;
     abortController := {| signal := {| aborted := true |} |} |}.

(** ** The monad of [async] methods: state and exceptions *)

Definition M (A : Type) : Type := State -> (A + JsError) * State.

Definition ret {A} (a : A) : M A := fun st => (inl a, st).

Definition throw {A} (e : JsError) : M A := fun st => (inr e, st).

Definition bind {A B} (c : M A) (k : A -> M B) : M B :=
  fun st =>
    match c st with
    | (inl a, st') => k a st'
    | (inr e, st') => (inr e, st')
    end.

Definition try_catch {A} (c : M A) (handler : JsError -> M A) : M A :=
  fun st =>
    match c st with
    | (inl a, st') => (inl a, st')
    | (inr e, st') => handler e st'
    end.

Declare Scope exec_scope.
Delimit Scope exec_scope with exec.
Notation "x <- c ;; k" := (bind c (fun x => k))
  (at level 100, c at next level, right associativity) : exec_scope.
Notation "c ;; k" := (bind c (fun _ => k))
  (at level 100, right associativity) : exec_scope.
Open Scope exec_scope.

(** The state once [e] has happened. *)
Definition record (e : Event) (st : State) : State :=
  {| initialized := initialized st;
     context := context st;
     events := events st ++ [e] |}.

Definition emit (e : Event) : M unit := fun st => (inl tt, record e st).

Definition log (l : LogCall) : M unit := emit (EvLog l).

Definition get_context : M (option RequestContext) :=
  fun st => (inl (context st), st).

Definition get_initialized : M bool :=
  fun st => (inl (initialized st), st).

Definition set_initialized (b : bool) : M unit :=
  fun st => (inl tt, {| initialized := b;
                        context := context st;
                        events := events st |}).

(** The call waits at [p]; a cancellation handled meanwhile aborts the
    controller of the context. *)
Definition arrive (env : Env) (p : AwaitPoint) (st : State) : State :=
  if cancel_during env p then
    {| initialized := initialized st;
       context := option_map abort_context (context st);
       events := events st |}
  else st.

Definition await (env : Env) (p : AwaitPoint) : M unit :=
  fun st => (inl tt, arrive env p st).

Fixpoint foldM {A B} (f : A -> B -> M A) (l : list B) (a : A) : M A :=
  match l with
  | [] => ret a
  | b :: rest => a' <- f a b ;; foldM f rest a'
  end.

(** Modelled from the spec: [ProgressReporter]
    ([services/progress-reporter.ts]) is not among the sources.  A report
    hands the event to the progress correlator and raises no error; the
    call waits until it is sent. *)
Definition report (env : Env) (p : AwaitPoint) (token : ProgressToken)
    (pr : Progress) : M unit :=
  emit (EvReport token pr) ;; await env p.

(** Modelled from the spec: the callback that
    [progressReporter.createProgressCallback(token)] returns emits on the
    channel of [token]. *)
Definition call_progress_callback (env : Env) (p : AwaitPoint)
    (token : ProgressToken) (pr : Progress) : M unit :=
  emit (EvCallback token pr) ;; await env p.

(** ** [AirtableClient]: the endpoint methods *)

(** [args] of a tool call: an object, or [undefined]. *)
Inductive Args : Type :=
| ArgsUndefined
| ArgsObject (params : Params).

(** [RequestOptions]: the abort signal and the progress callback, when
    given.  The signal is the one of the context; the callback is known
    by the token it was made for. *)
Record RequestOptions : Type := {
  opt_signal : bool;
  onProgress : option ProgressToken
}.

(** [params[key]] where [params] may be [undefined]. *)
Definition read (params : Args) (key : string) : M JsValue :=
  match params with
  | ArgsUndefined =>
      throw (Error ("Cannot read properties of undefined (reading '" +:+ key +:+ "')"))
  | ArgsObject o => ret (get_param o key)
  end.

(** [Object.entries(params)] *)
Definition entries (params : Args) : M Params :=
  match params with
  | ArgsUndefined => throw (Error "Cannot convert undefined or null to object")
  | ArgsObject o => ret o
  end.

(** The generated blocks [if (params[""] !== undefined) { ... }]: into
    the query as it is, into the query with an array joined by commas,
    or into the body. *)
Inductive BlankSlot : Type := QueryRaw | QueryJoined | BodyRaw.

(** What tells one endpoint method from another. *)
Record Endpoint : Type := {
  ep_name : string;
  ep_verb : HttpVerb;
  ep_path : string;
  ep_blank : list BlankSlot
}.

Definition endpoint_of (m : ClientMethod) : Endpoint :=
  match m with
  | listBases => {| ep_name := "list_bases"; ep_verb := GET;
      ep_path := "/meta/bases"; ep_blank := [QueryRaw] |}
  | getBaseSchema => {| ep_name := "get_base_schema"; ep_verb := GET;
      ep_path := "/meta/bases/{base_id}/tables"; ep_blank := [] |}
  | listRecords => {| ep_name := "list_records"; ep_verb := GET;
      ep_path := "/{base_id}/{table_id_or_name}";
      ep_blank := [QueryJoined; QueryRaw; QueryRaw; QueryRaw; QueryJoined;
                   QueryRaw; QueryRaw; QueryRaw; QueryRaw; QueryRaw] |}
  | getRecord => {| ep_name := "get_record"; ep_verb := GET;
      ep_path := "/{base_id}/{table_id_or_name}/{record_id}"; ep_blank := [] |}
  | createRecords => {| ep_name := "create_records"; ep_verb := POST;
      ep_path := "/{base_id}/{table_id_or_name}"; ep_blank := [BodyRaw; BodyRaw] |}
  | updateRecords => {| ep_name := "update_records"; ep_verb := PATCH;
      ep_path := "/{base_id}/{table_id_or_name}"; ep_blank := [BodyRaw; BodyRaw] |}
  | replaceRecords => {| ep_name := "replace_records"; ep_verb := PUT;
      ep_path := "/{base_id}/{table_id_or_name}"; ep_blank := [BodyRaw; BodyRaw] |}
  | deleteRecords => {| ep_name := "delete_records"; ep_verb := DELETE;
      ep_path := "/{base_id}/{table_id_or_name}"; ep_blank := [QueryJoined] |}
  | getTable => {| ep_name := "get_table"; ep_verb := GET;
      ep_path := "/meta/bases/{base_id}/tables/{table_id}"; ep_blank := [] |}
  | createTable => {| ep_name := "create_table"; ep_verb := POST;
      ep_path := "/meta/bases/{base_id}/tables";
      ep_blank := [BodyRaw; BodyRaw; BodyRaw] |}
  | updateTable => {| ep_name := "update_table"; ep_verb := PATCH;
      ep_path := "/meta/bases/{base_id}/tables/{table_id}";
      ep_blank := [BodyRaw; BodyRaw] |}
  | createField => {| ep_name := "create_field"; ep_verb := POST;
      ep_path := "/meta/bases/{base_id}/tables/{table_id}/fields";
      ep_blank := [BodyRaw; BodyRaw; BodyRaw; BodyRaw] |}
  | updateField => {| ep_name := "update_field"; ep_verb := PATCH;
      ep_path := "/meta/bases/{base_id}/tables/{table_id}/fields/{field_id}";
      ep_blank := [BodyRaw; BodyRaw; BodyRaw] |}
  | listViews => {| ep_name := "list_views"; ep_verb := GET;
      ep_path := "/meta/bases/{base_id}/tables/{table_id}/views"; ep_blank := [] |}
  | getView => {| ep_name := "get_view"; ep_verb := GET;
      ep_path := "/meta/bases/{base_id}/tables/{table_id}/views/{view_id}";
      ep_blank := [] |}
  | createView => {| ep_name := "create_view"; ep_verb := POST;
      ep_path := "/meta/bases/{base_id}/tables/{table_id}/views";
      ep_blank := [BodyRaw; BodyRaw; BodyRaw; BodyRaw] |}
  | updateView => {| ep_name := "update_view"; ep_verb := PATCH;
      ep_path := "/meta/bases/{base_id}/tables/{table_id}/views/{view_id}";
      ep_blank := [BodyRaw; BodyRaw; BodyRaw] |}
  | deleteView => {| ep_name := "delete_view"; ep_verb := DELETE;
      ep_path := "/meta/bases/{base_id}/tables/{table_id}/views/{view_id}";
      ep_blank := [] |}
  end.

(** The locals [pathParams], [queryParams], [bodyParams] and
    [extractedParams] of an endpoint method. *)
Record Extracted : Type := {
  pathParams : Params;
  queryParams : Params;
  bodyParams : Params;
  extractedParams : list string
}.

Definition no_params : Extracted :=
  {| pathParams := []; queryParams := []; bodyParams := []; extractedParams := [] |}.

Definition add_path (x : Extracted) (key : string) (v : JsValue) : Extracted :=
  {| pathParams := set_param (pathParams x) key v;
     queryParams := queryParams x;
     bodyParams := bodyParams x;
     extractedParams := extractedParams x ++ [key] |}.

Definition add_query (x : Extracted) (key : string) (v : JsValue) : Extracted :=
  {| pathParams := pathParams x;
     queryParams := set_param (queryParams x) key v;
     bodyParams := bodyParams x;
     extractedParams := extractedParams x ++ [key] |}.

Definition add_body (x : Extracted) (key : string) (v : JsValue) : Extracted :=
  {| pathParams := pathParams x;
     queryParams := queryParams x;
     bodyParams := set_param (bodyParams x) key v;
     extractedParams := extractedParams x ++ [key] |}.

(** One turn of the loop over Google-style templates of the path. *)
Definition extract_google (params : Args) (x : Extracted) (m : string * string)
    : M Extracted :=
  let paramName := snd m in
  if String.eqb paramName "" then ret x
  else
    v <- read params paramName ;;
    if is_defined v then ret (add_path x paramName v) else ret x.

(** One turn of [standardPathParams.forEach]. *)
Definition extract_standard (params : Args) (x : Extracted) (m : string * string)
    : M Extracted :=
  let paramName := snd m in
  if includes_str (extractedParams x) paramName then ret x
  else
    v <- read params paramName ;;
    if is_defined v then ret (add_path x paramName v)
    else if String.eqb paramName "userId" then ret (add_path x paramName (JStr "me"))
    else ret x.

(** One generated block on the parameter named by the empty string. *)
Definition extract_blank (params : Args) (x : Extracted) (slot : BlankSlot)
    : M Extracted :=
  v <- read params "" ;;
  if is_defined v then
    match slot with
    | QueryRaw => ret (add_query x "" v)
    | QueryJoined =>
        ret (add_query x "" (match v with
                             | JArr _ => JStr (JsString v)
                             | _ => v
                             end))
    | BodyRaw => ret (add_body x "" v)
    end
  else ret x.

(** One turn of the loop that sends what is left to the body. *)
Definition extract_rest (x : Extracted) (entry : string * JsValue) : M Extracted :=
  let '(key, value) := entry in
  if includes_str (extractedParams x) key then ret x
  else ret {| pathParams := pathParams x;
              queryParams := queryParams x;
              bodyParams := set_param (bodyParams x) key value;
              extractedParams := extractedParams x |}.

(** The separation of the parameters by location: path, query, body. *)
Definition extract (ep : Endpoint) (params : Args) : M Extracted :=
  x1 <- foldM (extract_google params) (google_matches (ep_path ep)) no_params ;;
  x2 <- foldM (extract_standard params) (standard_matches (ep_path ep)) x1 ;;
  x3 <- foldM (extract_blank params) (ep_blank ep) x2 ;;
  all <- entries params ;;
  foldM extract_rest all x3.

Definition has_body (v : HttpVerb) : bool :=
  match v with POST | PATCH | PUT => true | GET | DELETE => false end.

(** The request an endpoint method builds. *)
Definition build_request (ep : Endpoint) (x : Extracted) (options : RequestOptions)
    : HttpRequest :=
  let path := buildPath (ep_path ep) (pathParams x) in
  {| verb := ep_verb ep;
     url := if String.eqb path "/" then "" else path;
     query := queryParams x;
     body := if has_body (ep_verb ep) then
               match bodyParams x with [] => None | _ => Some (bodyParams x) end
             else None;
     with_signal := opt_signal options |}.

(** [await this.httpClient.<verb>(...)] *)
Definition http_call (env : Env) (req : HttpRequest) : M JsValue :=
  emit (EvHttp req) ;;
  await env AwaitHttp ;;
  match http_reply env req with
  | Resolved data => ret data
  | Cancelled => throw AxiosCancel
  | Rejected msg => throw (Error msg)
  end.

Definition progress_of (value : Z) (msg : string) : Progress :=
  {| progress := value; total := Some 100%Z; message := msg |}.

(** The body shared by the eighteen endpoint methods. *)
Definition call_endpoint (env : Env) (ep : Endpoint) (params : Args)
    (options : RequestOptions) : M Payload :=
  log (LogInfo "ENDPOINT_START") ;;
  try_catch
    (x <- extract ep params ;;
     log (LogDebug "PATH_BUILD") ;;
     (match onProgress options with
      | Some token =>
          call_progress_callback env AwaitCallbackStart token
            (progress_of 0 ("Starting " +:+ ep_name ep +:+ " request..."))
      | None => ret tt
      end) ;;
     data <- http_call env (build_request ep x options) ;;
     (match onProgress options with
      | Some token =>
          call_progress_callback env AwaitCallbackDone token
            (progress_of 100 ("Completed " +:+ ep_name ep +:+ " request"))
      | None => ret tt
      end) ;;
     (if is_defined data then ret tt
      else throw (Error "Cannot read properties of undefined (reading 'length')")) ;;
     log (LogInfo "ENDPOINT_SUCCESS") ;;
     ret {| content := [ {| type := "text"; text := JSON_stringify env data |} ] |})
    (fun error =>
       if isCancel error then
         log (LogInfo "REQUEST_CANCELLED") ;;
         throw (Error "Request was cancelled")
       else
         log (LogError "ENDPOINT_ERROR") ;;
         throw (Error ("Failed to execute " +:+ ep_name ep +:+ ": "
                       +:+ error_message error))).

(** A client, as [AirtableTools] sees it. *)
Definition Client : Type := ClientMethod -> Args -> RequestOptions -> M Payload.

Definition AirtableClient (env : Env) : Client :=
  fun m => call_endpoint env (endpoint_of m).

(** ** [AirtableTools] *)

Definition supportedTools : list string :=
  ["airtable_list_bases"; "airtable_get_base_schema"; "airtable_list_records";
   "airtable_get_record"; "airtable_create_records"; "airtable_update_records";
   "airtable_replace_records"; "airtable_delete_records"; "airtable_get_table";
   "airtable_create_table"; "airtable_update_table"; "airtable_create_field";
   "airtable_update_field"; "airtable_list_views"; "airtable_get_view";
   "airtable_create_view"; "airtable_update_view"; "airtable_delete_view"].

Definition canHandle (toolName : string) : bool := includes_str supportedTools toolName.

(** The cases of the [switch] of [executeTool], in order. *)
Definition switch_cases : list (string * ClientMethod) :=
  [("airtable_list_bases", listBases);
   ("airtable_get_base_schema", getBaseSchema);
   ("airtable_list_records", listRecords);
   ("airtable_get_record", getRecord);
   ("airtable_create_records", createRecords);
   ("airtable_update_records", updateRecords);
   ("airtable_replace_records", replaceRecords);
   ("airtable_delete_records", deleteRecords);
   ("airtable_get_table", getTable);
   ("airtable_create_table", createTable);
   ("airtable_update_table", updateTable);
   ("airtable_create_field", createField);
   ("airtable_update_field", updateField);
   ("airtable_list_views", listViews);
   ("airtable_get_view", getView);
   ("airtable_create_view", createView);
   ("airtable_update_view", updateView);
   ("airtable_delete_view", deleteView)].

(** The first case whose label is [name]; [None] is [default]. *)
Fixpoint switch_on (cases : list (string * ClientMethod)) (name : string)
    : option ClientMethod :=
  match cases with
  | [] => None
  | (label, m) :: rest => if String.eqb label name then Some m else switch_on rest name
  end.

Definition ensureInitialized : M unit :=
  b <- get_initialized ;;
  if b then ret tt
  else
    log (LogInfo "TOOLS_INIT") ;;
    log (LogInfo "CLIENT_INITIALIZATION") ;;
    set_initialized true ;;
    log (LogInfo "CLIENT_INITIALIZATION").

(** [context?.abortController.signal.aborted] *)
Definition context_aborted (c : option RequestContext) : bool :=
  match c with
  | Some ctx => aborted (signal (abortController ctx))
  | None => false
  end.

(** The test [context?.progressToken && progressReporter]: the token to
    report on, when the test passes. *)
Definition progress_target (c : option RequestContext) (progressReporter : bool)
    : option ProgressToken :=
  match c with
  | Some ctx =>
      match progressToken ctx with
      | Some token => if token_truthy token && progressReporter then Some token else None
      | None => None
      end
  | None => None
  end.

(** The [requestOptions] of [executeTool]. *)
Definition make_requestOptions (c : option RequestContext) (progressReporter : bool)
    : RequestOptions :=
  {| opt_signal := match c with Some _ => true | None => false end;
     onProgress := progress_target c progressReporter |}.

(** [if (context?.progressToken && progressReporter) await progressReporter.report(...)] *)
Definition report_if_tracked (env : Env) (p : AwaitPoint) (progressReporter : bool)
    (pr : Progress) : M unit :=
  c <- get_context ;;
  match progress_target c progressReporter with
  | Some token => report env p token pr
  | None => ret tt
  end.

(** A method of the client is called. *)
Definition invoke (client : Client) (m : ClientMethod) (args : Args)
    (options : RequestOptions) : M Payload :=
  emit (EvInvoke m) ;; client m args options.

(** The two progress events [executeTool] reports for a tool. *)
Definition start_progress (m : ClientMethod) : Progress :=
  progress_of 0 ("Starting " +:+ ep_name (endpoint_of m) +:+ " operation...").

Definition done_progress (m : ClientMethod) : Progress :=
  progress_of 100 ("Completed " +:+ ep_name (endpoint_of m) +:+ " operation").

(** One case of the [switch]. *)
Definition run_case (env : Env) (client : Client) (m : ClientMethod) (args : Args)
    (progressReporter : bool) (requestOptions : RequestOptions) : M Payload :=
  log (LogDebug "TOOL_EXECUTE") ;;
  report_if_tracked env AwaitReportStart progressReporter (start_progress m) ;;
  result <- invoke client m args requestOptions ;;
  report_if_tracked env AwaitReportDone progressReporter (done_progress m) ;;
  ret result.

(** The [try] block of [executeTool]. *)
Definition dispatch (env : Env) (client : Client) (name : string) (args : Args)
    (progressReporter : bool) : M Payload :=
  c <- get_context ;;
  let requestOptions := make_requestOptions c progressReporter in
  match switch_on switch_cases name with
  | Some m =>
      result <- run_case env client m args progressReporter requestOptions ;;
      log (LogToolSuccess name) ;;
      ret result
  | None => throw (Error ("Unknown tool: " +:+ name))
  end.

(** The [catch] block of [executeTool]. *)
Definition on_error (name : string) (error : JsError) : M Payload :=
  c <- get_context ;;
  let isCancelled :=
    context_aborted c || String.eqb (error_message error) "Request was cancelled" in
  (if isCancelled then log (LogInfo "TOOL_CANCELLED")
   else log (LogToolError name (error_message error))) ;;
  throw error.

(** [executeTool(name, args, context, progressReporter)].  The context is
    the one of the state; [progressReporter] tells whether a reporter was
    passed. *)
Definition executeTool (env : Env) (client : Client) (name : string) (args : Args)
    (progressReporter : bool) : M Payload :=
  log (LogToolStart name) ;;
  c <- get_context ;;
  if context_aborted c then
    log (LogInfo "TOOL_CANCELLED_EARLY") ;;
    throw (Error "Request was cancelled")
  else
    ensureInitialized ;;
    if negb (canHandle name) then
      log (LogError "TOOL_ERROR") ;;
      throw (Error ("Unknown tool: " +:+ name))
    else
      log (LogDebug "PARAM_VALIDATION") ;;
      try_catch (dispatch env client name args progressReporter) (on_error name).

(** *** The course of a call *)

(** What [executeTool] does, for a supported tool and a context that is
    not aborted, up to the point where the body of the client method
    starts. *)
Definition before_handler (env : Env) (name : string) (m : ClientMethod)
    (progressReporter : bool) : M unit :=
  log (LogToolStart name) ;;
  ensureInitialized ;;
  log (LogDebug "PARAM_VALIDATION") ;;
  log (LogDebug "TOOL_EXECUTE") ;;
  report_if_tracked env AwaitReportStart progressReporter (start_progress m) ;;
  emit (EvInvoke m).

Definition state_at_handler (env : Env) (name : string) (m : ClientMethod)
    (progressReporter : bool) (st : State) : State :=
  snd (before_handler env name m progressReporter st).

(** What [executeTool] does once the client method has resolved. *)
Definition after_handler (env : Env) (name : string) (m : ClientMethod)
    (progressReporter : bool) : M unit :=
  report_if_tracked env AwaitReportDone progressReporter (done_progress m) ;;
  log (LogToolSuccess name).

(** The log calls of the first [ensureInitialized]. *)
Definition init_events (already : bool) : list Event :=
  if already then []
  else [EvLog (LogInfo "TOOLS_INIT"); EvLog (LogInfo "CLIENT_INITIALIZATION");
        EvLog (LogInfo "CLIENT_INITIALIZATION")].

(** How a context may differ between two moments of a call: same
    identifier and token, and a signal that never goes back. *)
Definition context_evolves (c c' : option RequestContext) : Prop :=
  match c, c' with
  | None, None => True
  | Some a, Some b =>
      requestId a = requestId b /\
      progressToken a = progressToken b /\
      (aborted (signal (abortController a)) = true ->
       aborted (signal (abortController b)) = true)
  | _, _ => False
  end.

(** A progress event of the trace. *)
Definition is_progress_event (e : Event) : bool :=
  match e with
  | EvReport _ _ | EvCallback _ _ => true
  | _ => false
  end.

(** [c] keeps the relation [R] between the state it starts in and the
    state it ends in, however it ends. *)
Definition preserves (R : State -> State -> Prop) {A} (c : M A) : Prop :=
  forall st, R st (snd (c st)).

(** [c] neither reads nor writes the state. *)
Definition stateless {A} (c : M A) : Prop :=
  exists r, forall st, c st = (r, st).

Definition same_context (st st' : State) : Prop := context st' = context st.

Definition context_frame (st st' : State) : Prop :=
  context_evolves (context st) (context st').

Definition same_progress (st st' : State) : Prop :=
  List.filter is_progress_event (events st') = List.filter is_progress_event (events st).

(** The progress events of the trace of a state, in order. *)
Definition progress_events (st : State) : list Event :=
  List.filter is_progress_event (events st).

(** ** The registries of the request lifecycle *)

#[global] Instance ProgressToken_eq_dec : EqDecision ProgressToken.
Proof. solve_decision. Defined.

#[global] Instance ProgressToken_countable : Countable ProgressToken.
Proof.
  refine (inj_countable'
            (fun t => match t with TokStr s => inl s | TokNum n => inr n end)
            (fun x => match x with inl s => TokStr s | inr n => TokNum n end) _).
  intros []; reflexivity.
Defined.

(** The result of a registry operation: a value, or a fault. *)
Inductive Outcome (A : Type) : Type :=
| Ok (a : A)
| Fault (why : string).

Arguments Ok {A} a.
Arguments Fault {A} why.

Module CancellationRegistry.

(** Modelled from the spec: the cancellation registry
    ([services/request-tracker.ts]) is not among the sources.  A signal
    is a flag that goes from active to cancelled at most once; the
    reason of the cancellation that activated it is kept. *)
Record Signal : Type := {
  cancelled : bool;
  reason : option string
}.

(** Modelled from the spec: the registry maps a request identifier to
    the signal registered under it.  Signals live in a store of their
    own, since a handler keeps its reference to a signal after the
    entry is removed; [next] is the next free place in that store. *)
Record t : Type := {
  entries : gmap string nat;
  signals : gmap nat Signal;
  next : nat
}.

Definition empty : t := {| entries := ∅; signals := ∅; next := 0 |}.

Definition inactive : Signal := {| cancelled := false; reason := None |}.

(** Modelled from the spec: activation is one-way and idempotent. *)
Definition activate (why : option string) (s : Signal) : Signal :=
  if cancelled s then s else {| cancelled := true; reason := why |}.

(** Modelled from the spec: [register(requestId) -> signal] stores a
    new inactive signal and fails only on a duplicate identifier. *)
Definition register (requestId : string) (r : t) : Outcome (nat * t) :=
  match entries r !! requestId with
  | Some _ => Fault "duplicate requestId"
  | None =>
      Ok (next r,
          {| entries := <[requestId := next r]> (entries r);
             signals := <[next r := inactive]> (signals r);
             next := S (next r) |})
  end.

(** Modelled from the spec: [cancel(requestId, reason)] activates the
    signal if the id is currently registered; otherwise it is silently
    ignored. *)
Definition cancel (requestId : string) (why : option string) (r : t) : Outcome t :=
  match entries r !! requestId with
  | Some place =>
      Ok {| entries := entries r;
            signals := alter (activate why) place (signals r);
            next := next r |}
  | None => Ok r
  end.

(** Modelled from the spec: [unregister(requestId)] removes the entry;
    safe to call even if already removed. *)
Definition unregister (requestId : string) (r : t) : Outcome t :=
  Ok {| entries := delete requestId (entries r);
        signals := signals r;
        next := next r |}.

(** What the holder of a signal sees. *)
Definition observe (place : nat) (r : t) : option Signal := signals r !! place.

Inductive Op : Type :=
| Register (requestId : string)
| Cancel (requestId : string) (why : option string)
| Unregister (requestId : string).

(** One operation; a fault leaves the registry as it was. *)
Definition step (r : t) (op : Op) : t :=
  match op with
  | Register id => match register id r with Ok (_, r') => r' | Fault _ => r end
  | Cancel id why => match cancel id why r with Ok r' => r' | Fault _ => r end
  | Unregister id => match unregister id r with Ok r' => r' | Fault _ => r end
  end.

Definition run (ops : list Op) (r : t) : t := fold_left step ops r.

Definition registers (requestId : string) (op : Op) : bool :=
  match op with
  | Register id => String.eqb id requestId
  | _ => false
  end.

End CancellationRegistry.

Module ProgressCorrelator.

(** An outbound [notifications/progress]. *)
Record Notification : Type := {
  n_token : ProgressToken;
  n_progress : Progress
}.

(** Modelled from the spec: the progress correlator
    ([services/progress-reporter.ts]) is not among the sources.  It
    holds the tokens that have an emission channel and what was handed
    to the transport, in order; it holds no queue of pending events. *)
Record t : Type := {
  channels : gset ProgressToken;
  transport : list Notification
}.

Definition empty : t := {| channels := ∅; transport := [] |}.

(** Modelled from the spec: [register(progressToken) -> emitter]. *)
Definition register (token : ProgressToken) (c : t) : t :=
  {| channels := {[token]} ∪ channels c; transport := transport c |}.

(** Modelled from the spec: [emit] forwards a notification to the
    transport if the token is currently registered; otherwise the event
    is silently dropped. *)
Definition emit (token : ProgressToken) (p : Progress) (c : t) : t :=
  if decide (token ∈ channels c) then
    {| channels := channels c;
       transport := transport c ++ [ {| n_token := token; n_progress := p |} ] |}
  else c.

(** Modelled from the spec: [unregister(progressToken)], done when the
    invocation completes. *)
Definition unregister (token : ProgressToken) (c : t) : t :=
  {| channels := channels c ∖ {[token]}; transport := transport c |}.

Inductive Op : Type :=
| Register (token : ProgressToken)
| Emit (token : ProgressToken) (p : Progress)
| Unregister (token : ProgressToken).

Definition step (c : t) (op : Op) : t :=
  match op with
  | Register token => register token c
  | Emit token p => emit token p c
  | Unregister token => unregister token c
  end.

Definition run (ops : list Op) (c : t) : t := fold_left step ops c.

(** The progress events of a trace, as emissions on the correlator:
    both the reports of [executeTool] and the callbacks of the client
    go through it. *)
Definition emissions (trace : list Event) : list Op :=
  flat_map (fun e => match e with
                     | EvReport token p => [Emit token p]
                     | EvCallback token p => [Emit token p]
                     | _ => []
                     end) trace.

End ProgressCorrelator.

(** ** A sample world, for worked examples *)

(** An environment that answers every request with [reply]; a
    cancellation arrives while the request is awaited when [cancelling]
    is set.  The data of the examples below is the empty object, whose
    serialisation is the text of two braces. *)
Definition sample_env (reply : HttpReply) (cancelling : bool) : Env :=
  {| http_reply := fun _ => reply;
     cancel_during := fun p => match p with AwaitHttp => cancelling | _ => false end;
     JSON_stringify := fun _ => "{}" |}.

Definition sample_context (token : option ProgressToken) (is_aborted : bool)
    : RequestContext :=
  {| requestId := "r1";
     progressToken := token;
     abortController := {| signal := {| aborted := is_aborted |} |} |}.

(** The state before the first call on a fresh [AirtableTools]. *)
Definition sample_state (c : option RequestContext) : State :=
  {| initialized := false; context := c; events := [] |}.

Definition sample_record_args : Args :=
  ArgsObject [("base_id", JStr "appX"); ("table_id_or_name", JStr "Tasks");
              ("records", JArr [])].

Definition get_record_template : list Segment :=
  [Lit "/"; Hole "base_id"; Lit "/"; Hole "table_id_or_name"; Lit "/"; Hole "record_id"].

(** ** Where the arguments of a call end up *)

(** The names an endpoint method looks up for its path: the first groups
    of the Google-style matches of the template, then the names of its
    standard placeholders. *)
Definition path_keys (ep : Endpoint) : list string :=
  map snd (google_matches (ep_path ep)) ++ map snd (standard_matches (ep_path ep)).



(** What holds of the locals of an endpoint method while it looks up the
    path parameters in the arguments [o]: a name is in [extractedParams]
    exactly when [pathParams] has it; a path parameter holds the value
    the arguments give, or the default of [userId] when they give none;
    nothing is in the query or in the body yet. *)
Definition path_lookup_inv (o : Params) (x : Extracted) : Prop :=
  (forall k, includes_str (extractedParams x) k = true <-> own_param (pathParams x) k <> None) /\
  (forall k v, own_param (pathParams x) k = Some v ->
     (v = get_param o k /\ is_defined v = true) \/
     (k = "userId" /\ v = JStr "me" /\ is_defined (get_param o k) = false)) /\
  queryParams x = [] /\
  bodyParams x = [].

(** What one turn of a loop over the placeholders does, on the
    arguments [o]: [good] tells the names the loop looks up. *)
Definition path_turn (o : Params) (good : string -> Prop)
    (f : Extracted -> string * string -> M Extracted) : Prop :=
  forall x m s, path_lookup_inv o x ->
    exists x', f x m s = (inl x', s) /\
      path_lookup_inv o x' /\
      (forall k, own_param (pathParams x') k <> None ->
                 own_param (pathParams x) k <> None \/ k = snd m) /\
      (forall k, own_param (pathParams x) k = Some (get_param o k) ->
                 own_param (pathParams x') k = Some (get_param o k)) /\
      (forall k, own_param (pathParams x) k <> None -> own_param (pathParams x') k <> None) /\
      (good (snd m) -> is_defined (get_param o (snd m)) = true ->
       own_param (pathParams x') (snd m) = Some (get_param o (snd m))).

(** *** The templates of the endpoint methods, piece by piece *)

Definition lit_piece (text : string) : list Segment :=
  match text with
  | EmptyString => []
  | _ => [Lit text]
  end.

(** The pieces of a template read from left to right: [text] is the
    literal text read so far, [inside] the name read since an opening
    brace, if one is open.  A closing brace ends a placeholder; a brace
    left open stays literal text. *)
Fixpoint segments_from (inside : option string) (text : string) (s : string)
    : list Segment :=
  match s with
  | EmptyString =>
      match inside with
      | None => lit_piece text
      | Some name => lit_piece (text +:+ "{" +:+ name)
      end
  | String c rest =>
      match inside with
      | None =>
          if Ascii.eqb c "{" then segments_from (Some EmptyString) text rest
          else segments_from None (text +:+ String c EmptyString) rest
      | Some name =>
          if Ascii.eqb c "}" then
            lit_piece text ++ Hole name :: segments_from None EmptyString rest
          else segments_from (Some (name +:+ String c EmptyString)) text rest
      end
  end.

Definition template_segments (template : string) : list Segment :=
  segments_from None EmptyString template.

(** Text without a brace. *)
Definition brace_free (s : string) : bool :=
  all_chars (fun c => not_open c && not_close c) s.

(** The literal text of a template: whether it is free of braces, and
    how long it is. *)
Definition literal_brace_free (segs : list Segment) : bool :=
  forallb (fun s => match s with Lit text => brace_free text | Hole _ => true end) segs.

Fixpoint literal_length (segs : list Segment) : nat :=
  match segs with
  | [] => 0
  | Lit text :: rest => String.length text + literal_length rest
  | Hole _ :: rest => literal_length rest
  end.

(** ** [AirtableTools.getToolDefinitions] *)

(** One property of an input schema: [{ type, description }]. *)
Record PropertySchema : Type := {
  prop_type : string;
  prop_description : string
}.

(** [inputSchema]: [{ type, properties, required }]. *)
Record InputSchema : Type := {
  schema_type : string;
  properties : list (string * PropertySchema);
  required : list string
}.

(** A tool definition: [{ name, description, inputSchema }]. *)
Record Tool : Type := {
  tool_name : string;
  tool_description : string;
  inputSchema : InputSchema
}.

Definition property (key type_ description : string) : string * PropertySchema :=
  (key, {| prop_type := type_; prop_description := description |}).

Definition tool (name description : string) (props : list (string * PropertySchema))
    (required_ : list string) : Tool :=
  {| tool_name := name;
     tool_description := description;
     inputSchema := {| schema_type := "object"; properties := props;
                       required := required_ |} |}.

Definition getToolDefinitions : list Tool :=
  [
    tool "airtable_list_bases"
      "List all bases"
      [ property "offset" "string"
          "Pagination offset" ]
      [];
    tool "airtable_get_base_schema"
      "Get base schema including tables and fields"
      [ property "base_id" "string"
          "Base ID to get schema for" ]
      ["base_id"];
    tool "airtable_list_records"
      "List records in a table"
      [ property "base_id" "string"
          "Base ID containing the table";
        property "table_id_or_name" "string"
          "Table ID or name";
        property "fields" "array"
          "Array of field names to return";
        property "filterByFormula" "string"
          "Formula to filter records";
        property "maxRecords" "number"
          "Maximum number of records to return (max 100)";
        property "pageSize" "number"
          "Number of records per page (max 100)";
        property "sort" "array"
          "Array of sort objects";
        property "view" "string"
          "View ID or name to use";
        property "cellFormat" "string"
          "Cell format (json or string)";
        property "timeZone" "string"
          "Time zone for date/time fields";
        property "userLocale" "string"
          "User locale for number formatting";
        property "offset" "string"
          "Pagination offset" ]
      ["base_id"; "table_id_or_name"];
    tool "airtable_get_record"
      "Get a specific record"
      [ property "base_id" "string"
          "Base ID containing the table";
        property "table_id_or_name" "string"
          "Table ID or name";
        property "record_id" "string"
          "Record ID to fetch" ]
      ["base_id"; "table_id_or_name"; "record_id"];
    tool "airtable_create_records"
      "Create new records (up to 10 at once)"
      [ property "base_id" "string"
          "Base ID containing the table";
        property "table_id_or_name" "string"
          "Table ID or name";
        property "records" "array"
          "Array of record objects to create";
        property "typecast" "boolean"
          "Enable automatic type casting" ]
      ["base_id"; "table_id_or_name"; "records"];
    tool "airtable_update_records"
      "Update existing records (up to 10 at once)"
      [ property "base_id" "string"
          "Base ID containing the table";
        property "table_id_or_name" "string"
          "Table ID or name";
        property "records" "array"
          "Array of record objects to update";
        property "typecast" "boolean"
          "Enable automatic type casting" ]
      ["base_id"; "table_id_or_name"; "records"];
    tool "airtable_replace_records"
      "Replace records completely (up to 10 at once)"
      [ property "base_id" "string"
          "Base ID containing the table";
        property "table_id_or_name" "string"
          "Table ID or name";
        property "records" "array"
          "Array of record objects to replace";
        property "typecast" "boolean"
          "Enable automatic type casting" ]
      ["base_id"; "table_id_or_name"; "records"];
    tool "airtable_delete_records"
      "Delete records (up to 10 at once)"
      [ property "base_id" "string"
          "Base ID containing the table";
        property "table_id_or_name" "string"
          "Table ID or name";
        property "records" "array"
          "Array of record IDs to delete" ]
      ["base_id"; "table_id_or_name"; "records"];
    tool "airtable_get_table"
      "Get table schema"
      [ property "base_id" "string"
          "Base ID containing the table";
        property "table_id" "string"
          "Table ID to get schema for" ]
      ["base_id"; "table_id"];
    tool "airtable_create_table"
      "Create a new table"
      [ property "base_id" "string"
          "Base ID to create table in";
        property "name" "string"
          "Table name";
        property "description" "string"
          "Table description";
        property "fields" "array"
          "Array of field definitions" ]
      ["base_id"; "name"; "fields"];
    tool "airtable_update_table"
      "Update table properties"
      [ property "base_id" "string"
          "Base ID containing the table";
        property "table_id" "string"
          "Table ID to update";
        property "name" "string"
          "New table name";
        property "description" "string"
          "New table description" ]
      ["base_id"; "table_id"];
    tool "airtable_create_field"
      "Create a new field in a table"
      [ property "base_id" "string"
          "Base ID containing the table";
        property "table_id" "string"
          "Table ID to add field to";
        property "name" "string"
          "Field name";
        property "type" "string"
          "Field type (singleLineText, multilineText, number, etc.)";
        property "description" "string"
          "Field description";
        property "options" "object"
          "Field-specific options" ]
      ["base_id"; "table_id"; "name"; "type"];
    tool "airtable_update_field"
      "Update a field"
      [ property "base_id" "string"
          "Base ID containing the table";
        property "table_id" "string"
          "Table ID containing the field";
        property "field_id" "string"
          "Field ID to update";
        property "name" "string"
          "New field name";
        property "description" "string"
          "New field description";
        property "options" "object"
          "Updated field options" ]
      ["base_id"; "table_id"; "field_id"];
    tool "airtable_list_views"
      "List views in a table"
      [ property "base_id" "string"
          "Base ID containing the table";
        property "table_id" "string"
          "Table ID to list views for" ]
      ["base_id"; "table_id"];
    tool "airtable_get_view"
      "Get view details"
      [ property "base_id" "string"
          "Base ID containing the table";
        property "table_id" "string"
          "Table ID containing the view";
        property "view_id" "string"
          "View ID to get details for" ]
      ["base_id"; "table_id"; "view_id"];
    tool "airtable_create_view"
      "Create a new view"
      [ property "base_id" "string"
          "Base ID containing the table";
        property "table_id" "string"
          "Table ID to create view in";
        property "name" "string"
          "View name";
        property "type" "string"
          "View type (grid, form, calendar, etc.)";
        property "visibleFieldIds" "array"
          "Array of field IDs to show in view";
        property "fieldOrder" "array"
          "Array of field IDs defining column order" ]
      ["base_id"; "table_id"; "name"; "type"];
    tool "airtable_update_view"
      "Update a view"
      [ property "base_id" "string"
          "Base ID containing the table";
        property "table_id" "string"
          "Table ID containing the view";
        property "view_id" "string"
          "View ID to update";
        property "name" "string"
          "New view name";
        property "visibleFieldIds" "array"
          "Array of field IDs to show in view";
        property "fieldOrder" "array"
          "Array of field IDs defining column order" ]
      ["base_id"; "table_id"; "view_id"];
    tool "airtable_delete_view"
      "Delete a view"
      [ property "base_id" "string"
          "Base ID containing the table";
        property "table_id" "string"
          "Table ID containing the view";
        property "view_id" "string"
          "View ID to delete" ]
      ["base_id"; "table_id"; "view_id"]
  ].

(** Whether the schema of a tool requires every placeholder of the path
    of the method [executeTool] calls for it. *)
Definition requires_path_keys (t : Tool) : bool :=
  match switch_on switch_cases (tool_name t) with
  | Some m =>
      forallb (includes_str (required (inputSchema t))) (path_keys (endpoint_of m))
  | None => false
  end.

(** Whether every required name of a schema is one of its properties. *)
Definition required_declared (t : Tool) : bool :=
  forallb (includes_str (map fst (properties (inputSchema t)))) (required (inputSchema t)).

(** Whether [executeTool] has a case for a tool, on the method of the
    endpoint the tool is named after. *)
Definition dispatched_by_name (t : Tool) : bool :=
  match switch_on switch_cases (tool_name t) with
  | Some m => String.eqb (tool_name t) ("airtable_" +:+ ep_name (endpoint_of m))
  | None => false
  end.

(** ** The trace of a call *)

(** The events an endpoint method produces: its own log calls, the HTTP
    request and the calls of the progress callback. *)
Definition client_event (e : Event) : bool :=
  match e with
  | EvLog (LogInfo tag) =>
      includes_str ["ENDPOINT_START"; "ENDPOINT_SUCCESS"; "REQUEST_CANCELLED"] tag
  | EvLog (LogDebug tag) => String.eqb tag "PATH_BUILD"
  | EvLog (LogError tag) => String.eqb tag "ENDPOINT_ERROR"
  | EvHttp _ | EvCallback _ _ => true
  | _ => false
  end.

(** The log calls by which [executeTool] tells how a call ended. *)
Definition is_outcome_log (e : Event) : bool :=
  match e with
  | EvLog (LogToolSuccess _) | EvLog (LogToolError _ _) => true
  | EvLog (LogInfo tag) => includes_str ["TOOL_CANCELLED_EARLY"; "TOOL_CANCELLED"] tag
  | EvLog (LogError tag) => String.eqb tag "TOOL_ERROR"
  | _ => false
  end.

(** The log calls of [ensureInitialized]. *)
Definition is_init_log (e : Event) : bool :=
  match e with
  | EvLog (LogInfo tag) => includes_str ["TOOLS_INIT"; "CLIENT_INITIALIZATION"] tag
  | _ => false
  end.

Definition is_report (e : Event) : bool :=
  match e with EvReport _ _ => true | _ => false end.

Definition is_http (e : Event) : bool :=
  match e with EvHttp _ => true | _ => false end.

(** From [st] to [st'] the flag of the tools is the same, and the trace
    has grown by events that [ok] accepts. *)
Definition steady (ok : Event -> bool) (st st' : State) : Prop :=
  initialized st' = initialized st /\
  exists added, events st' = events st ++ added /\ forallb ok added = true.

(** ** Reading back an encoded path component *)

(** The value of a hexadecimal digit. *)
Definition hex_value (c : ascii) : nat :=
  let n := nat_of_ascii c in
  if in_range 48 57 c then n - 48
  else if in_range 65 70 c then n - 55
  else if in_range 97 102 c then n - 87
  else 0.

(** The inverse of [encodePathComponent] on what it produces: a percent
    sign and two digits give back a byte, any other character stands for
    itself.  It is used to show that the encoding loses nothing; the
    sources never decode a path. *)
Fixpoint decode_path (s : string) : string :=
  match s with
  | EmptyString => EmptyString
  | String c rest =>
      if Ascii.eqb c "%" then
        match rest with
        | String x (String y rest') =>
            String (ascii_of_nat (16 * hex_value x + hex_value y)) (decode_path rest')
        | _ => s
        end
      else String c (decode_path rest)
  end.

(** What [encodePathComponent] makes of one byte. *)
Definition encode_path_byte (c : ascii) : string :=
  if uri_unreserved c then String c EmptyString
  else if Ascii.eqb c "/" then "/"
  else percent_encode c.

(** The characters that [encodePathComponent] leaves as they are. *)
Definition path_safe (c : ascii) : bool := uri_unreserved c || Ascii.eqb c "/".

(** The characters a request path is made of: those of an encoded
    component, and the braces of a placeholder left as it was. *)
Definition url_char (c : ascii) : bool :=
  uri_unreserved c || Ascii.eqb c "%" || Ascii.eqb c "/" ||
  Ascii.eqb c "{" || Ascii.eqb c "}".

(** ** The construction of [AirtableClient] *)

(** [AirtableClientConfig], without [api_version], which nothing reads,
    and without the logger. *)
Record AirtableClientConfig : Type := {
  aIRTABLEACCESSTOKEN : option string;
  timeout : option Z;
  rateLimit : option Z;
  authToken : option string
}.

(** [process.env] *)
Definition ProcessEnv : Type := string -> option string.

(** [a || b] on values that are a string or [undefined]: the empty
    string is falsy. *)
Definition or_else (a b : option string) : option string :=
  match a with
  | Some s => if String.eqb s "" then b else a
  | None => b
  end.

(** [a || b] on a number or [undefined], with a number for [b]: zero is
    falsy. *)
Definition number_or (a : option Z) (b : Z) : Z :=
  match a with
  | Some n => if Z.eqb n 0 then b else n
  | None => b
  end.

(** The log calls of the client while it is constructed: by level and
    tag, and, for the event of the authentication, with the preview of
    the token that it records. *)
Inductive ClientLog : Type :=
| ClientInfo (tag : string)
| ClientWarn (tag : string)
| AuthEvent (event : string) (success : bool) (tokenPreview : string).

(** A character of one byte, which is one UTF-16 unit as well. *)
Definition is_ascii (c : ascii) : bool := (nat_of_ascii c <? 128)%nat.

(** The token [getAuthHeaders] uses.  On a token of ASCII characters,
    [token.substring(0, 8)] is the substring of the first eight bytes. *)
Definition auth_token (config : AirtableClientConfig) (process_env : ProcessEnv)
    : option string :=
  or_else (or_else (authToken config) (aIRTABLEACCESSTOKEN config))
    (process_env "AIRTABLE_ACCESS_TOKEN").

Definition getAuthHeaders (config : AirtableClientConfig) (process_env : ProcessEnv)
    : list (string * string) * list ClientLog :=
  match auth_token config process_env with
  | Some token =>
      if String.eqb token "" then ([], [ClientWarn "AUTH_WARNING"])
      else
        ([("Authorization", "Bearer " +:+ token)],
         [AuthEvent "static_token_auth_setup" true (String.substring 0 8 token +:+ "...")])
  | None => ([], [ClientWarn "AUTH_WARNING"])
  end.

(** [s.replace(/pat/g, repl)] for a pattern of plain characters, not
    empty: every occurrence from left to right, each search starting
    where the previous match ended ([skip] counts the characters still
    inside it, [before] is the text read so far). *)
Fixpoint replace_all_from (pat repl : string) (skip : nat) (before s : string) : string :=
  match s with
  | EmptyString => EmptyString
  | String c rest =>
      match skip with
      | S k => replace_all_from pat repl k (before +:+ String c EmptyString) rest
      | O =>
          match strip_prefix pat s with
          | Some after =>
              get_substitution pat before after repl
              +:+ replace_all_from pat repl (String.length pat - 1)
                    (before +:+ String c EmptyString) rest
          | None =>
              String c (replace_all_from pat repl 0 (before +:+ String c EmptyString) rest)
          end
      end
  end.

Definition str_replace_all (s pat repl : string) : string :=
  replace_all_from pat repl 0 EmptyString s.

(** [resolveBaseUrl()]: the base URL, or the error it throws, and what
    it logs. *)
Definition resolveBaseUrl (process_env : ProcessEnv) : (string + JsError) * list ClientLog :=
  let baseUrl := "https://api.airtable.com/v0" in
  if String.eqb baseUrl "" then
    (inr (Error ("No base URL configured for airtable. "
                 +:+ "Please provide base_url in template or customConfig.baseUrl.")), [])
  else
    let domainEnvVar := "AIRTABLE_DOMAIN" in
    let domain := process_env domainEnvVar in
    if str_includes baseUrl "YOUR_DOMAIN" || str_includes baseUrl domainEnvVar then
      match or_else domain None with
      | None =>
          (inr (Error ("Missing domain configuration. Please set " +:+ domainEnvVar
                       +:+ " environment variable.")), [])
      | Some d =>
          let baseUrl1 :=
            if str_includes baseUrl "YOUR_DOMAIN"
            then str_replace_all baseUrl "YOUR_DOMAIN" d else baseUrl in
          let baseUrl2 :=
            if str_includes baseUrl1 domainEnvVar
            then str_replace_all baseUrl1 domainEnvVar d else baseUrl1 in
          (inl baseUrl2, [ClientInfo "DOMAIN_RESOLVED"])
      end
    else (inl baseUrl, []).

(** The configuration [axios.create] is called with. *)
Record HttpClientConfig : Type := {
  baseURL : string;
  client_timeout : Z;
  headers : list (string * string)
}.

(** A client once constructed: its HTTP client, the rate it is limited
    to when [setupRateLimit] was called, and what the constructor
    logged.  The session identifier, drawn from the clock and from
    [Math.random], is left out. *)
Record ClientInstance : Type := {
  httpClient : HttpClientConfig;
  rate_limited : option Z;
  construction_log : list ClientLog
}.

(** [new AirtableClient(config)].  [resolveBaseUrl] is called twice: for
    the log of [CLIENT_INIT], then for [axios.create]. *)
Definition new_AirtableClient (config : AirtableClientConfig) (process_env : ProcessEnv)
    : ClientInstance + JsError :=
  match resolveBaseUrl process_env with
  | (inr e, _) => inr e
  | (inl _, log1) =>
      match resolveBaseUrl process_env with
      | (inr e, _) => inr e
      | (inl baseUrl, log2) =>
          let '(auth, log3) := getAuthHeaders config process_env in
          let limited :=
            match rateLimit config with
            | Some n => if Z.eqb n 0 then None else Some n
            | None => None
            end in
          inl {| httpClient :=
                   {| baseURL := baseUrl;
                      client_timeout := number_or (timeout config) 30000;
                      headers := [("Accept", "application/json");
                                  ("Content-Type", "application/json");
                                  ("User-Agent", "airtable-mcp/1.0.0")] ++ auth |};
                 rate_limited := limited;
                 construction_log :=
                   log1 ++ [ClientInfo "CLIENT_INIT"] ++ log2 ++ log3
                   ++ match limited with
                      | Some _ => [ClientInfo "RATE_LIMIT_SETUP"]
                      | None => []
                      end |}
      end
  end.

(** ** Google-style placeholders *)

(** The text of a Google-style placeholder, [{name=pattern}]. *)
Definition google_placeholder (name pattern : string) : string :=
  "{" +:+ name +:+ "=" +:+ pattern +:+ "}".

(** * Properties *)
Example buildPath_get_record :
  buildPath "/{base_id}/{table_id_or_name}/{record_id}"
    [("base_id", JStr "appX"); ("table_id_or_name", JStr "My Table/1");
     ("record_id", JStr "rec{1}")]
  = "/appX/My%20Table/1/rec%7B1%7D".
Proof. reflexivity. Qed.

Example buildPath_google_style :
  buildPath "/v1/{resourceName=people/*}:get" [("resourceName", JStr "people/c1")]
  = "/v1/people/c1:get".
Proof. reflexivity. Qed.

Example buildPath_missing :
  buildPath "/{base_id}/{table_id_or_name}" [("table_id_or_name", JNum 7)]
  = "/{base_id}/7".
Proof. reflexivity. Qed.

Example buildPath_repeated :
  buildPath "/{a}/{a}" [("a", JStr "x")] = "/x/{a}".
Proof. reflexivity. Qed.

Example standard_matches_get_record :
  map snd (standard_matches "/{base_id}/{table_id_or_name}/{record_id}")
  = ["base_id"; "table_id_or_name"; "record_id"].
Proof. reflexivity. Qed.

(** ** Strings *)

#[local] Arguments String.append : simpl nomatch.

Lemma str_app_assoc (a b c : string) : (a +:+ b) +:+ c = a +:+ (b +:+ c).
Proof. induction a as [|x a IH]; cbn [String.append]; [reflexivity | rewrite IH; reflexivity]. Qed.

Lemma str_app_nil_r (a : string) : a +:+ "" = a.
Proof. induction a as [|x a IH]; cbn [String.append]; [reflexivity | rewrite IH; reflexivity]. Qed.

Lemma all_chars_app (ok : ascii -> bool) (a b : string) :
  all_chars ok (a +:+ b) = all_chars ok a && all_chars ok b.
Proof.
  induction a as [|x a IH]; cbn [String.append all_chars]; [reflexivity|].
  rewrite IH. apply andb_assoc.
Qed.

Lemma all_chars_weaken (ok ok' : ascii -> bool) (s : string) :
  (forall c, ok c = true -> ok' c = true) ->
  all_chars ok s = true -> all_chars ok' s = true.
Proof.
  intros Himp. induction s as [|x s IH]; cbn [all_chars]; [reflexivity|].
  intros [Hx Hs]%andb_true_iff. rewrite (Himp x Hx), (IH Hs). reflexivity.
Qed.

Lemma strip_prefix_app (p s : string) : strip_prefix p (p +:+ s) = Some s.
Proof.
  induction p as [|x p IH]; cbn [String.append strip_prefix]; [reflexivity|].
  rewrite Ascii.eqb_refl. exact IH.
Qed.

(** A pattern cannot start inside text that lacks its first character. *)
Lemma find_sub_skip (a : ascii) (p l s : string) :
  all_chars (fun c => negb (Ascii.eqb a c)) l = true ->
  find_sub (String a p) (l +:+ s) =
    match find_sub (String a p) s with
    | Some (pre, post) => Some (l +:+ pre, post)
    | None => None
    end.
Proof.
  induction l as [|x l IH]; intros Hl.
  - cbn [String.append]. destruct (find_sub (String a p) s) as [[pre post]|]; reflexivity.
  - cbn [all_chars] in Hl. apply andb_true_iff in Hl as [Hx Hl].
    apply negb_true_iff in Hx.
    cbn [String.append find_sub strip_prefix]. rewrite Hx, (IH Hl).
    destruct (find_sub (String a p) s) as [[pre post]|]; reflexivity.
Qed.

(** Two keys followed by a closing brace match only when they are the
    same key. *)
Lemma strip_prefix_key (k k' y : string) :
  no_close k = true ->
  no_close k' = true ->
  strip_prefix (k +:+ "}") (k' +:+ "}" +:+ y) = if String.eqb k k' then Some y else None.
Proof.
  unfold no_close. revert k'. induction k as [|a k IH]; intros k' Hk Hk'.
  - destruct k' as [|c k']; cbn [String.append strip_prefix String.eqb].
    + reflexivity.
    + cbn [all_chars] in Hk'. apply andb_true_iff in Hk' as [Hc _].
      unfold not_close in Hc. apply negb_true_iff in Hc.
      rewrite Ascii.eqb_sym, Hc. reflexivity.
  - cbn [all_chars] in Hk. apply andb_true_iff in Hk as [Ha Hk].
    unfold not_close in Ha. apply negb_true_iff in Ha.
    destruct k' as [|c k']; cbn [String.append strip_prefix String.eqb].
    + rewrite Ha. reflexivity.
    + cbn [all_chars] in Hk'. apply andb_true_iff in Hk' as [_ Hk'].
      destruct (Ascii.eqb a c); [apply IH; assumption | reflexivity].
Qed.

Lemma get_substitution_plain (matched pre post repl : string) :
  all_chars (fun c => negb (Ascii.eqb c "$")) repl = true ->
  get_substitution matched pre post repl = repl.
Proof.
  induction repl as [|c r IH]; cbn [all_chars get_substitution]; [reflexivity|].
  intros [Hc Hr]%andb_true_iff. apply negb_true_iff in Hc.
  rewrite Hc, (IH Hr). reflexivity.
Qed.

(** *** What [encodePathComponent] can produce *)

(** The characters of an encoded path component: those
    [encodeURIComponent] keeps, the percent sign and the slash. *)
Definition path_char (c : ascii) : bool :=
  uri_unreserved c || Ascii.eqb c "%" || Ascii.eqb c "/".

Lemma path_char_plain (c : ascii) :
  path_char c = true ->
  not_open c = true /\ negb (Ascii.eqb c "$") = true.
Proof.
  destruct c as [[] [] [] [] [] [] [] []]; vm_compute; intros H;
    first [discriminate H | split; reflexivity].
Qed.

Lemma percent_encode_chars (c : ascii) : all_chars path_char (percent_encode c) = true.
Proof. destruct c as [[] [] [] [] [] [] [] []]; vm_compute; reflexivity. Qed.

Lemma encodeURIComponent_chars (s : string) :
  all_chars path_char (encodeURIComponent s) = true.
Proof.
  induction s as [|c s IH]; cbn [encodeURIComponent]; [reflexivity|].
  rewrite all_chars_app, IH, andb_true_r.
  destruct (uri_unreserved c) eqn:E.
  - cbn [all_chars]. unfold path_char. rewrite E. reflexivity.
  - apply percent_encode_chars.
Qed.

Lemma restore_slashes_chars (s : string) :
  all_chars path_char s = true -> all_chars path_char (restore_slashes s) = true.
Proof.
  assert (H : forall n s, String.length s <= n ->
                all_chars path_char s = true ->
                all_chars path_char (restore_slashes s) = true).
  { clear s. induction n as [|n IH]; intros s Hlen Hs.
    - destruct s; [reflexivity | cbn in Hlen; lia].
    - destruct s as [|c s]; [reflexivity|].
      cbn [String.length] in Hlen. cbn [all_chars] in Hs.
      apply andb_true_iff in Hs as [Hc Hs].
      assert (Hkeep : all_chars path_char (String c (restore_slashes s)) = true).
      { cbn [all_chars]. rewrite Hc. apply IH; [lia | exact Hs]. }
      destruct s as [|d [|e s]]; try exact Hkeep.
      cbn [restore_slashes].
      destruct (Ascii.eqb c "%" && Ascii.eqb d "2" && Ascii.eqb e "F"); [|exact Hkeep].
      cbn [all_chars]. cbn [all_chars] in Hs.
      apply andb_true_iff in Hs as [_ Hs]. apply andb_true_iff in Hs as [_ Hs].
      rewrite (IH s); [reflexivity | cbn [String.length] in Hlen; lia | exact Hs]. }
  apply (H (String.length s)). lia.
Qed.

Lemma encodePathComponent_chars (value : string) :
  all_chars path_char (encodePathComponent value) = true.
Proof. apply restore_slashes_chars, encodeURIComponent_chars. Qed.

Lemma encodePathComponent_no_open (value : string) :
  no_open (encodePathComponent value) = true.
Proof.
  eapply all_chars_weaken; [|apply encodePathComponent_chars].
  intros c Hc. apply path_char_plain, Hc.
Qed.

Lemma encodePathComponent_no_dollar (value : string) :
  all_chars (fun c => negb (Ascii.eqb c "$")) (encodePathComponent value) = true.
Proof.
  eapply all_chars_weaken; [|apply encodePathComponent_chars].
  intros c Hc. apply path_char_plain, Hc.
Qed.

(** *** Templates *)

Lemma placeholder_eq (key : string) : placeholder key = String "{" (key +:+ "}").
Proof. reflexivity. Qed.

Lemma render_app (a b : list Segment) : render (a ++ b) = render a +:+ render b.
Proof.
  induction a as [|s a IH]; cbn [app render]; [reflexivity|].
  rewrite IH, str_app_assoc. reflexivity.
Qed.

Lemma holes_app (a b : list Segment) : holes (a ++ b) = holes a ++ holes b.
Proof.
  induction a as [|[t|k] a IH]; cbn [app holes]; [reflexivity | exact IH |].
  rewrite IH. reflexivity.
Qed.

Lemma well_formed_app (a b : list Segment) :
  well_formed (a ++ b) = well_formed a && well_formed b.
Proof. apply forallb_app. Qed.

Lemma no_open_skip (s : string) :
  no_open s = true -> all_chars (fun c => negb (Ascii.eqb "{" c)) s = true.
Proof.
  apply all_chars_weaken. intros c Hc. rewrite Ascii.eqb_sym. exact Hc.
Qed.

Lemma plain_key_no_open (k : string) : plain_key k = true -> no_open k = true.
Proof.
  apply all_chars_weaken. intros c Hc.
  apply andb_true_iff in Hc as [Hc _]. apply andb_true_iff in Hc as [Hc _]. exact Hc.
Qed.

Lemma plain_key_no_close (k : string) : plain_key k = true -> no_close k = true.
Proof.
  apply all_chars_weaken. intros c Hc.
  apply andb_true_iff in Hc as [Hc _]. apply andb_true_iff in Hc as [_ Hc]. exact Hc.
Qed.

(** [split_at_hole] cuts the template at the first placeholder of the key. *)
Lemma split_at_hole_Some (key : string) (segs before after : list Segment) :
  split_at_hole key segs = Some (before, after) ->
  segs = before ++ Hole key :: after /\ ~ In key (holes before).
Proof.
  revert before. induction segs as [|[t|k] segs IH]; intros before H;
    cbn [split_at_hole] in H.
  - discriminate H.
  - destruct (split_at_hole key segs) as [[b a]|]; [|discriminate H].
    injection H as <- <-. destruct (IH b eq_refl) as [-> Hb].
    split; [reflexivity | exact Hb].
  - destruct (String.eqb k key) eqn:E.
    + injection H as <- <-. apply String.eqb_eq in E. subst k.
      split; [reflexivity | intros []].
    + destruct (split_at_hole key segs) as [[b a]|]; [|discriminate H].
      injection H as <- <-. destruct (IH b eq_refl) as [-> Hb].
      split; [reflexivity|].
      cbn [holes In]. intros [Heq|Hin]; [|exact (Hb Hin)].
      apply String.eqb_neq in E. exact (E Heq).
Qed.

Lemma split_at_hole_None (key : string) (segs : list Segment) :
  split_at_hole key segs = None -> ~ In key (holes segs).
Proof.
  induction segs as [|[t|k] segs IH]; cbn [split_at_hole holes]; intros H.
  - intros [].
  - destruct (split_at_hole key segs) as [[b a]|]; [discriminate H | exact (IH eq_refl)].
  - destruct (String.eqb k key) eqn:E; [discriminate H|].
    destruct (split_at_hole key segs) as [[b a]|]; [discriminate H|].
    cbn [In]. intros [Heq|Hin]; [|exact (IH eq_refl Hin)].
    apply String.eqb_neq in E. exact (E Heq).
Qed.

(** In a well-formed template the text [{key}] occurs first where the
    first placeholder of that key stands, and nowhere when there is none. *)
Lemma find_hole (key : string) (segs : list Segment) :
  well_formed segs = true ->
  no_close key = true ->
  find_sub (placeholder key) (render segs) =
    match split_at_hole key segs with
    | Some (before, after) => Some (render before, render after)
    | None => None
    end.
Proof.
  intros Hwf Hkey. rewrite placeholder_eq.
  induction segs as [|[t|k] segs IH]; cbn [render render_segment split_at_hole].
  - reflexivity.
  - cbn [well_formed forallb] in Hwf. apply andb_true_iff in Hwf as [Ht Hwf].
    rewrite find_sub_skip by (apply no_open_skip; exact Ht).
    rewrite (IH Hwf).
    destruct (split_at_hole key segs) as [[b a]|]; reflexivity.
  - cbn [well_formed forallb] in Hwf. apply andb_true_iff in Hwf as [Hk Hwf].
    rewrite placeholder_eq. cbn [String.append]. rewrite str_app_assoc.
    cbn [find_sub strip_prefix]. rewrite Ascii.eqb_refl.
    rewrite strip_prefix_key by (try exact Hkey; apply plain_key_no_close; exact Hk).
    rewrite (String.eqb_sym k key).
    destruct (String.eqb key k) eqn:E; [reflexivity|].
    rewrite <- str_app_assoc.
    rewrite find_sub_skip.
    2:{ rewrite all_chars_app.
        rewrite (no_open_skip _ (plain_key_no_open _ Hk)). reflexivity. }
    rewrite (IH Hwf).
    destruct (split_at_hole key segs) as [[b a]|]; reflexivity.
Qed.

Lemma str_includes_hole (key : string) (segs : list Segment) :
  well_formed segs = true ->
  no_close key = true ->
  str_includes (render segs) (placeholder key)
  = match split_at_hole key segs with Some _ => true | None => false end.
Proof.
  intros Hwf Hkey. unfold str_includes. rewrite find_hole by assumption.
  destruct (split_at_hole key segs) as [[b a]|]; reflexivity.
Qed.

Lemma str_replace_hole (key e : string) (segs before after : list Segment) :
  well_formed segs = true ->
  no_close key = true ->
  all_chars (fun c => negb (Ascii.eqb c "$")) e = true ->
  split_at_hole key segs = Some (before, after) ->
  str_replace (render segs) (placeholder key) e = render (before ++ Lit e :: after).
Proof.
  intros Hwf Hkey He Hsplit. unfold str_replace.
  rewrite find_hole by assumption. rewrite Hsplit.
  rewrite get_substitution_plain by exact He.
  rewrite render_app. reflexivity.
Qed.

(** *** The Google-style pass finds nothing in a well-formed template *)

Lemma span_until_stop (stop : ascii -> bool) (k rest : string) (c : ascii) :
  all_chars (fun x => negb (stop x)) k = true ->
  stop c = true ->
  span_until stop (k +:+ String c rest) = (k, String c rest).
Proof.
  intros Hk Hc. induction k as [|x k IH]; cbn [String.append span_until].
  - rewrite Hc. reflexivity.
  - cbn [all_chars] in Hk. apply andb_true_iff in Hk as [Hx Hk].
    apply negb_true_iff in Hx. rewrite Hx, (IH Hk). reflexivity.
Qed.

Lemma google_match_at_other (c : ascii) (s : string) :
  Ascii.eqb c "{" = false -> google_match_at (String c s) = None.
Proof.
  intros Hc. unfold google_match_at.
  destruct c as [[] [] [] [] [] [] [] []]; try reflexivity; discriminate Hc.
Qed.

Lemma google_scan_skip (l rest : string) :
  all_chars (fun c => negb (Ascii.eqb c "{")) l = true ->
  regex_matches_from google_match_at 0 (l +:+ rest)
  = regex_matches_from google_match_at 0 rest.
Proof.
  induction l as [|c l IH]; intros Hl; cbn [String.append]; [reflexivity|].
  cbn [all_chars] in Hl. apply andb_true_iff in Hl as [Hc Hl].
  apply negb_true_iff in Hc.
  cbn [regex_matches_from]. rewrite (google_match_at_other c _ Hc). exact (IH Hl).
Qed.

Lemma google_match_at_hole (k rest : string) :
  plain_key k = true -> google_match_at (placeholder k +:+ rest) = None.
Proof.
  intros Hk. rewrite placeholder_eq. cbn [String.append]. rewrite str_app_assoc.
  cbn [String.append]. unfold google_match_at.
  rewrite span_until_stop.
  - destruct k; reflexivity.
  - eapply all_chars_weaken; [|exact Hk]. intros c Hc.
    apply andb_true_iff in Hc as [Hb He].
    apply andb_true_iff in Hb as [_ Hcl]. unfold is_close_or_eq.
    unfold not_close in Hcl. rewrite negb_orb, Hcl, He. reflexivity.
  - reflexivity.
Qed.

Lemma google_matches_none (segs : list Segment) :
  well_formed segs = true -> google_matches (render segs) = [].
Proof.
  unfold google_matches.
  induction segs as [|[t|k] segs IH]; intros Hwf; cbn [render render_segment].
  - reflexivity.
  - cbn [well_formed forallb] in Hwf. apply andb_true_iff in Hwf as [Ht Hwf].
    rewrite google_scan_skip; [exact (IH Hwf) | exact Ht].
  - cbn [well_formed forallb] in Hwf. apply andb_true_iff in Hwf as [Hk Hwf].
    pose proof (google_match_at_hole k (render segs) Hk) as Hnone.
    rewrite placeholder_eq in *. cbn [String.append] in *.
    cbn [regex_matches_from]. rewrite Hnone.
    rewrite str_app_assoc. rewrite <- str_app_assoc.
    rewrite google_scan_skip; [exact (IH Hwf)|].
    rewrite all_chars_app.
    replace (all_chars (fun c => negb (Ascii.eqb c "{")) "}") with true by reflexivity.
    rewrite andb_true_r.
    exact (plain_key_no_open _ Hk).
Qed.

(** *** Filling a template *)

Lemma fill_app (params : Params) (a b : list Segment) :
  fill params (a ++ b) = fill params a +:+ fill params b.
Proof.
  induction a as [|s a IH]; cbn [app fill]; [reflexivity|].
  rewrite IH, str_app_assoc. reflexivity.
Qed.

Lemma fill_nil (segs : list Segment) : fill [] segs = render segs.
Proof.
  induction segs as [|[t|k] segs IH]; cbn [fill render]; [reflexivity | |];
    rewrite IH; reflexivity.
Qed.

(** An entry whose key names no placeholder changes nothing. *)
Lemma fill_cons_absent (key : string) (value : JsValue) (params : Params)
    (segs : list Segment) :
  ~ In key (holes segs) ->
  fill ((key, value) :: params) segs = fill params segs.
Proof.
  induction segs as [|[t|k] segs IH]; cbn [fill holes]; intros Hout.
  - reflexivity.
  - rewrite (IH Hout). reflexivity.
  - cbn [In] in Hout. rewrite IH by tauto.
    cbn [fill_segment own_param].
    destruct (String.eqb key k) eqn:E; [|reflexivity].
    apply String.eqb_eq in E. exfalso. apply Hout. left. symmetry. exact E.
Qed.

(** Filling with one more entry is filling the template in which the
    placeholder of that entry has been replaced. *)
Lemma fill_cons_split (key : string) (value : JsValue) (params : Params)
    (segs before after : list Segment) :
  List.NoDup (holes segs) ->
  split_at_hole key segs = Some (before, after) ->
  fill ((key, value) :: params) segs
  = fill params (before ++ Lit (encodePathComponent (JsString value)) :: after).
Proof.
  intros Hnodup Hsplit.
  destruct (split_at_hole_Some _ _ _ _ Hsplit) as [-> Hbefore].
  rewrite holes_app in Hnodup. cbn [holes] in Hnodup.
  apply NoDup_remove_2 in Hnodup.
  rewrite !fill_app. cbn [fill fill_segment own_param].
  rewrite String.eqb_refl.
  rewrite !fill_cons_absent; [reflexivity | |exact Hbefore].
  intros Hin. apply Hnodup, in_or_app. right. exact Hin.
Qed.

Lemma includes_str_In (l : list string) (x : string) :
  includes_str l x = true <-> In x l.
Proof.
  induction l as [|y l IH]; simpl.
  - split; [discriminate | tauto].
  - rewrite orb_true_iff, String.eqb_eq, IH. tauto.
Qed.

Lemma includes_str_false (l : list string) (x : string) :
  includes_str l x = false <-> ~ In x l.
Proof.
  induction l as [|y l IH]; cbn [includes_str In]; [tauto|].
  rewrite orb_false_iff, String.eqb_neq, IH. tauto.
Qed.

(** The loop over the entries, on a well-formed template without
    repeated placeholders and keys without a closing brace. *)
Lemma standard_loop_fills (params : Params) :
  forall (segs : list Segment) (processedParams : list string),
    well_formed segs = true ->
    List.NoDup (holes segs) ->
    forallb (fun entry => no_close (fst entry)) params = true ->
    (forall k, In k processedParams -> ~ In k (holes segs)) ->
    fst (fold_left standard_step params (render segs, processedParams))
    = fill params segs.
Proof.
  induction params as [|[key value] params IH];
    intros segs processed Hwf Hnodup Hkeys Hdone; cbn [fold_left].
  - cbn [fst]. symmetry. apply fill_nil.
  - cbn [forallb fst] in Hkeys. apply andb_true_iff in Hkeys as [Hkey Hkeys].
    unfold standard_step at 2.
    fold (placeholder key).
    destruct (includes_str processed key) eqn:Hseen; cbn [negb].
    { apply includes_str_In in Hseen.
      rewrite IH by assumption. symmetry. apply fill_cons_absent. exact (Hdone _ Hseen). }
    rewrite str_includes_hole by assumption.
    destruct (split_at_hole key segs) as [[before after]|] eqn:Hsplit.
    + rewrite (str_replace_hole key _ segs before after)
        by (try assumption; apply encodePathComponent_no_dollar).
      destruct (split_at_hole_Some _ _ _ _ Hsplit) as [Heq Hbefore].
      assert (Hrest : ~ In key (holes before ++ holes after)).
      { rewrite Heq, holes_app in Hnodup. cbn [holes] in Hnodup.
        exact (NoDup_remove_2 _ _ _ Hnodup). }
      rewrite IH.
      * symmetry. apply fill_cons_split; assumption.
      * rewrite Heq, well_formed_app in Hwf. apply andb_true_iff in Hwf as [Hb Ha].
        cbn [well_formed forallb] in Ha. apply andb_true_iff in Ha as [_ Ha].
        rewrite well_formed_app, Hb. cbn [well_formed forallb].
        rewrite encodePathComponent_no_open. exact Ha.
      * rewrite holes_app. cbn [holes].
        rewrite Heq, holes_app in Hnodup. cbn [holes] in Hnodup.
        exact (NoDup_remove_1 _ _ _ Hnodup).
      * exact Hkeys.
      * intros k Hk. rewrite holes_app. cbn [holes].
        apply in_app_or in Hk as [Hk|[<-|[]]]; [|exact Hrest].
        intros Hin. apply (Hdone k Hk). rewrite Heq, holes_app. cbn [holes].
        apply in_app_or in Hin as [Hin|Hin]; apply in_or_app;
          [left; exact Hin | right; right; exact Hin].
    + rewrite IH by assumption. symmetry. apply fill_cons_absent.
      apply split_at_hole_None. exact Hsplit.
Qed.

(** On a well-formed template without repeated placeholders, and a record
    whose keys hold no closing brace, [buildPath] fills the template. *)
Lemma buildPath_fill (segs : list Segment) (params : Params) :
  well_formed segs = true ->
  List.NoDup (holes segs) ->
  forallb (fun entry => no_close (fst entry)) params = true ->
  buildPath (render segs) params = fill params segs.
Proof.
  intros Hwf Hnodup Hkeys. unfold buildPath.
  rewrite google_matches_none by exact Hwf. cbn [fold_left].
  apply standard_loop_fills; try assumption. intros k [].
Qed.

(** A placeholder whose key the record lacks is still in the filled
    template, as it was written. *)
Lemma fill_keeps_absent (key : string) (params : Params) (segs : list Segment) :
  In key (holes segs) ->
  own_param params key = None ->
  exists pre post, fill params segs = pre +:+ placeholder key +:+ post.
Proof.
  induction segs as [|[t|k] segs IH]; cbn [holes In fill fill_segment]; intros Hin Hnone.
  - destruct Hin.
  - destruct (IH Hin Hnone) as (pre & post & ->).
    exists (t +:+ pre), post. rewrite str_app_assoc. reflexivity.
  - destruct Hin as [->|Hin].
    + rewrite Hnone. exists "", (fill params segs). reflexivity.
    + destruct (IH Hin Hnone) as (pre & post & ->).
      eexists (_ +:+ pre), post. rewrite str_app_assoc. reflexivity.
Qed.

Lemma distinct_NoDup (l : list string) : distinct l = true -> List.NoDup l.
Proof.
  induction l as [|x l IH]; cbn [distinct]; intros H; [constructor|].
  apply andb_true_iff in H as [Hx Hl]. apply negb_true_iff, includes_str_false in Hx.
  constructor; [exact Hx | exact (IH Hl)].
Qed.

(** C10, as amended.  For a template made of text without an opening
    brace and of placeholders [{key}] that are pairwise distinct (keys free
    of braces and of the equals sign), and a record of parameters whose
    keys hold no closing brace: [buildPath] returns the template in which
    every placeholder whose key the record has is replaced by the
    URI-encoded value, slashes kept, and every other placeholder is left as
    written; so a call that lacks the parameter of a placeholder gets a
    path that still holds the text of that placeholder, and no error. *)
Theorem buildPath_fills_distinct_placeholders (segs : list Segment) (params : Params) :
  well_formed segs = true ->
  distinct (holes segs) = true ->
  forallb (fun entry => no_close (fst entry)) params = true ->
  buildPath (render segs) params = fill params segs /\
  (forall key,
      In key (holes segs) ->
      own_param params key = None ->
      exists pre post, buildPath (render segs) params = pre +:+ placeholder key +:+ post).
Proof.
  intros Hwf Hdistinct Hkeys.
  pose proof (buildPath_fill segs params Hwf (distinct_NoDup _ Hdistinct) Hkeys) as Hfill.
  split; [exact Hfill|].
  intros key Hin Hnone. rewrite Hfill. apply fill_keeps_absent; assumption.
Qed.

(** C10, as stated, fails: when a placeholder is written twice, only its
    first occurrence is replaced, although the record has its key. *)
Lemma buildPath_repeated_placeholder_kept :
  render [Lit "/"; Hole "a"; Lit "/"; Hole "a"] = "/{a}/{a}" /\
  well_formed [Lit "/"; Hole "a"; Lit "/"; Hole "a"] = true /\
  own_param [("a", JStr "x")] "a" = Some (JStr "x") /\
  fill [("a", JStr "x")] [Lit "/"; Hole "a"; Lit "/"; Hole "a"] = "/x/x" /\
  buildPath "/{a}/{a}" [("a", JStr "x")] = "/x/{a}" /\
  buildPath (render [Lit "/"; Hole "a"; Lit "/"; Hole "a"]) [("a", JStr "x")]
    <> fill [("a", JStr "x")] [Lit "/"; Hole "a"; Lit "/"; Hole "a"].
Proof. repeat split; try reflexivity. intros H. discriminate H. Qed.

(** The path of [getRecord] keeps the placeholder of a missing
    [base_id]. *)
Lemma get_record_path_keeps_base_id (table record : JsValue) :
  exists rest,
    buildPath "/{base_id}/{table_id_or_name}/{record_id}"
      [("table_id_or_name", table); ("record_id", record)]
    = "/{base_id}/" +:+ rest.
Proof.
  change "/{base_id}/{table_id_or_name}/{record_id}"
    with (render [Lit "/"; Hole "base_id"; Lit "/"; Hole "table_id_or_name";
                  Lit "/"; Hole "record_id"]).
  rewrite buildPath_fill.
  - eexists. reflexivity.
  - reflexivity.
  - apply distinct_NoDup. reflexivity.
  - reflexivity.
Qed.

#[local] Arguments String.append : simpl never.

(** ** The dispatcher *)

Create HintDb exec discriminated.

#[global] Hint Unfold bind ret throw try_catch emit log get_context get_initialized
  set_initialized await report call_progress_callback record arrive : exec.

Ltac exec_unfold := autounfold with exec in *; simpl in *.

Lemma canHandle_In (name : string) : canHandle name = true <-> In name supportedTools.
Proof. apply includes_str_In. Qed.

Lemma supportedTools_length : length supportedTools = 18.
Proof. reflexivity. Qed.

Lemma switch_on_includes (cases : list (string * ClientMethod)) (name : string) :
  includes_str (map fst cases) name = true <-> exists m, switch_on cases name = Some m.
Proof.
  induction cases as [|[label m] cases IH]; cbn [map fst includes_str switch_on].
  - split; [intros H; discriminate H | intros [m Hm]; discriminate Hm].
  - destruct (String.eqb label name); cbn [orb]; [|exact IH].
    split; [eauto | reflexivity].
Qed.

(** The [switch] has a case exactly for the supported tools. *)
Lemma switch_on_canHandle (name : string) :
  canHandle name = true <-> exists m, switch_on switch_cases name = Some m.
Proof. exact (switch_on_includes switch_cases name). Qed.

Lemma switch_on_supported (name : string) (m : ClientMethod) :
  switch_on switch_cases name = Some m -> canHandle name = true.
Proof. intros H. apply switch_on_canHandle. eauto. Qed.

#[global] Arguments switch_on : simpl never.
#[global] Arguments canHandle : simpl never.
#[global] Arguments start_progress : simpl never.
#[global] Arguments done_progress : simpl never.

Lemma ensureInitialized_run (st : State) :
  ensureInitialized st =
    (inl tt, {| initialized := true;
                context := context st;
                events := events st ++ init_events (initialized st) |}).
Proof.
  unfold ensureInitialized, init_events. exec_unfold.
  destruct st as [[] c ev]; simpl.
  - rewrite app_nil_r. reflexivity.
  - rewrite <- !app_assoc. reflexivity.
Qed.

(** A supported tool with a live context: the call is the client method,
    run between [before_handler] and [after_handler], or followed by the
    [catch] block. *)
Lemma executeTool_supported (env : Env) (client : Client) (name : string)
    (m : ClientMethod) (args : Args) (progressReporter : bool) (st : State) :
  switch_on switch_cases name = Some m ->
  context_aborted (context st) = false ->
  executeTool env client name args progressReporter st =
    match client m args (make_requestOptions (context st) progressReporter)
            (state_at_handler env name m progressReporter st) with
    | (inl p, st_f) => (inl p, snd (after_handler env name m progressReporter st_f))
    | (inr e, st_f) => on_error name e st_f
    end.
Proof.
  intros Hsw Hlive.
  pose proof (switch_on_supported _ _ Hsw) as Hcan.
  unfold executeTool, state_at_handler, before_handler.
  unfold bind at 1. unfold log at 1, emit at 1.
  unfold bind at 1. unfold get_context at 1. simpl.
  rewrite Hlive.
  unfold bind at 1. rewrite ensureInitialized_run.
  rewrite Hcan. simpl.
  unfold try_catch, dispatch.
  unfold bind at 1. unfold log at 1, emit at 1.
  unfold bind at 1. unfold get_context at 1. simpl.
  rewrite Hsw.
  unfold run_case, invoke, after_handler.
  unfold bind, log, emit, ret. simpl.
  rewrite ensureInitialized_run. simpl.
  destruct (report_if_tracked env AwaitReportStart progressReporter (start_progress m) _)
    as [[[]|e0] st1] eqn:Hrep.
  - simpl. destruct (client m args _ _) as [[p|e] st_f]; [|reflexivity].
    destruct (report_if_tracked env AwaitReportDone progressReporter (done_progress m) st_f)
      as [[[]|e1] st2] eqn:Hrep2; simpl; [reflexivity|].
    exfalso. revert Hrep2. unfold report_if_tracked, report. exec_unfold.
    destruct (progress_target _ _); discriminate.
  - exfalso. revert Hrep. unfold report_if_tracked, report. exec_unfold.
    destruct (progress_target _ _); discriminate.
Qed.

(** *** Relations kept along a computation *)

Section Preservation.

Variable R : State -> State -> Prop.
Hypothesis R_refl : forall st, R st st.
Hypothesis R_trans : forall a b c, R a b -> R b c -> R a c.

Lemma preserves_ret {A} (a : A) : preserves R (ret a).
Proof. intros st. apply R_refl. Qed.

Lemma preserves_throw {A} (e : JsError) : preserves R (@throw A e).
Proof. intros st. apply R_refl. Qed.

Lemma preserves_get_context : preserves R get_context.
Proof. intros st. apply R_refl. Qed.

Lemma preserves_get_initialized : preserves R get_initialized.
Proof. intros st. apply R_refl. Qed.

Lemma preserves_bind {A B} (c : M A) (k : A -> M B) :
  preserves R c -> (forall a, preserves R (k a)) -> preserves R (bind c k).
Proof.
  intros Hc Hk st. unfold bind. specialize (Hc st).
  destruct (c st) as [[a|e] st1]; simpl in *.
  - eapply R_trans; [exact Hc | apply Hk].
  - exact Hc.
Qed.

Lemma preserves_try_catch {A} (c : M A) (h : JsError -> M A) :
  preserves R c -> (forall e, preserves R (h e)) -> preserves R (try_catch c h).
Proof.
  intros Hc Hh st. unfold try_catch. specialize (Hc st).
  destruct (c st) as [[a|e] st1]; simpl in *.
  - exact Hc.
  - eapply R_trans; [exact Hc | apply Hh].
Qed.

Lemma preserves_foldM {A B} (f : A -> B -> M A) (l : list B) :
  (forall a b, preserves R (f a b)) -> forall a, preserves R (foldM f l a).
Proof.
  intros Hf. induction l as [|b l IH]; intros a; simpl.
  - apply preserves_ret.
  - apply preserves_bind; [apply Hf | exact IH].
Qed.

Lemma preserves_stateless {A} (c : M A) : stateless c -> preserves R c.
Proof. intros [r Hr] st. rewrite Hr. apply R_refl. Qed.

End Preservation.

Lemma stateless_ret {A} (a : A) : stateless (ret a).
Proof. exists (inl a). reflexivity. Qed.

Lemma stateless_throw {A} (e : JsError) : stateless (@throw A e).
Proof. exists (inr e). reflexivity. Qed.

Lemma stateless_bind {A B} (c : M A) (k : A -> M B) :
  stateless c -> (forall a, stateless (k a)) -> stateless (bind c k).
Proof.
  intros [r Hr] Hk. destruct r as [a|e].
  - destruct (Hk a) as [r' Hr']. exists r'. intros st. unfold bind. rewrite Hr. apply Hr'.
  - exists (inr e). intros st. unfold bind. rewrite Hr. reflexivity.
Qed.

Lemma stateless_foldM {A B} (f : A -> B -> M A) (l : list B) :
  (forall a b, stateless (f a b)) -> forall a, stateless (foldM f l a).
Proof.
  intros Hf. induction l as [|b l IH]; intros a; simpl.
  - apply stateless_ret.
  - apply stateless_bind; [apply Hf | exact IH].
Qed.

Lemma stateless_read (params : Args) (key : string) : stateless (read params key).
Proof. destruct params; [apply stateless_throw | apply stateless_ret]. Qed.

Lemma stateless_entries (params : Args) : stateless (entries params).
Proof. destruct params; [apply stateless_throw | apply stateless_ret]. Qed.

Ltac stateless_step :=
  first [ apply stateless_ret | apply stateless_throw | apply stateless_read
        | apply stateless_entries
        | apply stateless_bind; [|intros ?]
        | apply stateless_foldM; intros ? ? ].

(** The separation of the parameters touches no state. *)
Lemma stateless_extract (ep : Endpoint) (params : Args) : stateless (extract ep params).
Proof.
  unfold extract.
  apply stateless_bind; [|intros x1].
  { apply stateless_foldM. intros x [full name]. unfold extract_google. cbn [snd].
    destruct (String.eqb name ""); [apply stateless_ret|].
    apply stateless_bind; [apply stateless_read|intros v].
    destruct (is_defined v); apply stateless_ret. }
  apply stateless_bind; [|intros x2].
  { apply stateless_foldM. intros x [full name]. unfold extract_standard. cbn [snd].
    destruct (includes_str _ _); [apply stateless_ret|].
    apply stateless_bind; [apply stateless_read|intros v].
    destruct (is_defined v); [apply stateless_ret|].
    destruct (String.eqb name "userId"); apply stateless_ret. }
  apply stateless_bind; [|intros x3].
  { apply stateless_foldM. intros x slot. unfold extract_blank.
    apply stateless_bind; [apply stateless_read|intros v].
    destruct (is_defined v); [|apply stateless_ret].
    destruct slot; apply stateless_ret. }
  apply stateless_bind; [apply stateless_entries|intros all].
  apply stateless_foldM. intros x [key value]. unfold extract_rest.
  destruct (includes_str _ _); apply stateless_ret.
Qed.

Lemma extract_any_state (ep : Endpoint) (params : Args) (st st' : State) :
  extract ep params st' = (fst (extract ep params st), st').
Proof.
  destruct (stateless_extract ep params) as [r Hr]. rewrite !Hr. reflexivity.
Qed.

(** On an object, the separation of the parameters never throws. *)
Lemma extract_object_total (ep : Endpoint) (o : Params) (st : State) :
  exists x, extract ep (ArgsObject o) st = (inl x, st).
Proof.
  assert (Hfold : forall {B} (f : Extracted -> B -> M Extracted) (l : list B),
             (forall a b s, exists x, f a b s = (inl x, s)) ->
             forall a s, exists x, foldM f l a s = (inl x, s)).
  { intros B f l Hf. induction l as [|b l IH]; intros a s; simpl.
    - eexists; reflexivity.
    - unfold bind. destruct (Hf a b s) as [x Hx]. rewrite Hx. apply IH. }
  unfold extract, bind.
  edestruct (Hfold _ (extract_google (ArgsObject o))) as [x1 H1]; [|rewrite H1].
  { intros x [full name] s. unfold extract_google, read, bind, ret. cbn [snd].
    destruct (String.eqb name ""); [eexists; reflexivity|].
    destruct (is_defined _); eexists; reflexivity. }
  edestruct (Hfold _ (extract_standard (ArgsObject o))) as [x2 H2]; [|rewrite H2].
  { intros x [full name] s. unfold extract_standard, read, bind, ret. cbn [snd].
    destruct (includes_str _ _); [eexists; reflexivity|].
    destruct (is_defined _); [eexists; reflexivity|].
    destruct (String.eqb name "userId"); eexists; reflexivity. }
  edestruct (Hfold _ (extract_blank (ArgsObject o))) as [x3 H3]; [|rewrite H3].
  { intros x slot s. unfold extract_blank, read, bind, ret.
    destruct (is_defined _); [|eexists; reflexivity].
    destruct slot; eexists; reflexivity. }
  cbn [entries ret].
  apply Hfold. intros x [key value] s. unfold extract_rest, ret.
  destruct (includes_str _ _); eexists; reflexivity.
Qed.

(** *** Steps of [executeTool], one by one *)

Lemma report_if_tracked_run (env : Env) (p : AwaitPoint) (progressReporter : bool)
    (pr : Progress) (st : State) :
  report_if_tracked env p progressReporter pr st =
    (inl tt,
     match progress_target (context st) progressReporter with
     | Some token => arrive env p (record (EvReport token pr) st)
     | None => st
     end).
Proof.
  unfold report_if_tracked, report, bind, get_context, emit, await, ret.
  destruct (progress_target _ _); reflexivity.
Qed.

Lemma context_arrive_record (env : Env) (p : AwaitPoint) (e : Event) (st : State) :
  context_evolves (context st) (context (arrive env p (record e st))).
Proof.
  unfold arrive, record, context_evolves. simpl.
  destruct (cancel_during env p); simpl; destruct (context st) as [c|]; simpl; auto.
Qed.

Lemma progress_target_evolves (c c' : option RequestContext) (progressReporter : bool) :
  context_evolves c c' -> progress_target c' progressReporter = progress_target c progressReporter.
Proof.
  unfold context_evolves, progress_target.
  destruct c as [a|], c' as [b|]; try tauto.
  intros (_ & Htok & _). rewrite Htok. reflexivity.
Qed.

Lemma state_at_handler_eq (env : Env) (name : string) (m : ClientMethod)
    (progressReporter : bool) (st : State) :
  state_at_handler env name m progressReporter st =
    let st1 :=
      {| initialized := true;
         context := context st;
         events := events st ++ [EvLog (LogToolStart name)]
                   ++ init_events (initialized st)
                   ++ [EvLog (LogDebug "PARAM_VALIDATION"); EvLog (LogDebug "TOOL_EXECUTE")] |} in
    record (EvInvoke m)
      match progress_target (context st) progressReporter with
      | Some token => arrive env AwaitReportStart (record (EvReport token (start_progress m)) st1)
      | None => st1
      end.
Proof.
  unfold state_at_handler, before_handler.
  unfold bind at 1. unfold log at 1, emit at 1.
  unfold bind at 1. rewrite ensureInitialized_run.
  unfold bind at 1. unfold log at 1, emit at 1.
  unfold bind at 1. unfold log at 1, emit at 1.
  unfold bind at 1. rewrite report_if_tracked_run.
  unfold emit, record. cbn [snd initialized context events].
  rewrite <- !app_assoc. reflexivity.
Qed.

Lemma state_at_handler_context (env : Env) (name : string) (m : ClientMethod)
    (progressReporter : bool) (st : State) :
  context_evolves (context st) (context (state_at_handler env name m progressReporter st)).
Proof.
  rewrite state_at_handler_eq. cbv zeta. unfold record at 1. cbn [context].
  destruct (progress_target _ _).
  - apply (context_arrive_record env AwaitReportStart _
             {| initialized := true; context := context st; events := _ |}).
  - cbn [context]. unfold context_evolves. destruct (context st); auto.
Qed.

Lemma after_handler_run (env : Env) (name : string) (m : ClientMethod)
    (progressReporter : bool) (st : State) :
  after_handler env name m progressReporter st =
    (inl tt,
     record (EvLog (LogToolSuccess name))
       match progress_target (context st) progressReporter with
       | Some token => arrive env AwaitReportDone (record (EvReport token (done_progress m)) st)
       | None => st
       end).
Proof.
  unfold after_handler. unfold bind. rewrite report_if_tracked_run. reflexivity.
Qed.

Lemma on_error_run (name : string) (e : JsError) (st : State) :
  on_error name e st =
    (inr e,
     record (EvLog (if context_aborted (context st)
                       || String.eqb (error_message e) "Request was cancelled"
                    then LogInfo "TOOL_CANCELLED"
                    else LogToolError name (error_message e))) st).
Proof.
  unfold on_error, bind, get_context, log, emit, throw.
  destruct (context_aborted (context st) || _); reflexivity.
Qed.

(** The early check: a context already aborted ends the call at once. *)
Lemma executeTool_aborted (env : Env) (client : Client)
    (name : string) (args : Args) (progressReporter : bool) (st : State) :
  context_aborted (context st) = true ->
  executeTool env client name args progressReporter st =
    (inr (Error "Request was cancelled"),
     {| initialized := initialized st;
        context := context st;
        events := events st ++ [EvLog (LogToolStart name);
                                EvLog (LogInfo "TOOL_CANCELLED_EARLY")] |}).
Proof.
  intros Haborted. unfold executeTool.
  unfold bind at 1. unfold log at 1, emit at 1.
  unfold bind at 1. unfold get_context at 1. cbn [record context].
  rewrite Haborted.
  unfold bind, log, emit, throw, record. cbn [initialized context events].
  rewrite <- app_assoc. reflexivity.
Qed.

(** C1.  Whatever the operation name and the arguments, supported or
    not: when the signal of the context is already aborted as
    [executeTool] is entered, the call throws the error "Request was
    cancelled"; it returns no payload, and all it does is two calls of the
    logger, so that no method of the client is invoked. *)
Theorem executeTool_cancelled_before_dispatch (env : Env) (client : Client)
    (name : string) (args : Args) (progressReporter : bool) (st : State) :
  context_aborted (context st) = true ->
  executeTool env client name args progressReporter st =
    (inr (Error "Request was cancelled"),
     {| initialized := initialized st;
        context := context st;
        events := events st ++ [EvLog (LogToolStart name);
                                EvLog (LogInfo "TOOL_CANCELLED_EARLY")] |}) /\
  (forall m, ~ In (EvInvoke m)
               [EvLog (LogToolStart name); EvLog (LogInfo "TOOL_CANCELLED_EARLY")]).
Proof.
  intros Haborted. split; [apply executeTool_aborted; exact Haborted|].
  intros m [H|[H|[]]]; discriminate H.
Qed.

(** A tool without a case: the call ends at the test of [canHandle]. *)
Lemma executeTool_unsupported (env : Env) (client : Client)
    (name : string) (args : Args) (progressReporter : bool) (st : State) :
  canHandle name = false ->
  context_aborted (context st) = false ->
  executeTool env client name args progressReporter st =
    (inr (Error ("Unknown tool: " +:+ name)),
     {| initialized := true;
        context := context st;
        events := events st ++ [EvLog (LogToolStart name)]
                  ++ init_events (initialized st)
                  ++ [EvLog (LogError "TOOL_ERROR")] |}).
Proof.
  intros Hcan Hlive.
  unfold executeTool.
  unfold bind at 1. unfold log at 1, emit at 1.
  unfold bind at 1. unfold get_context at 1. cbn [record context].
  rewrite Hlive.
  unfold bind at 1. rewrite ensureInitialized_run. rewrite Hcan. cbn [negb].
  unfold bind, log, emit, throw, record. cbn [initialized context events].
  rewrite <- !app_assoc. reflexivity.
Qed.

Lemma init_events_no_invoke (already : bool) (m : ClientMethod) :
  ~ In (EvInvoke m) (init_events already).
Proof.
  destruct already; cbn [init_events In]; [tauto|].
  intros [H|[H|[H|[]]]]; discriminate H.
Qed.

(** C2.  For a name that is none of the eighteen supported tools
    ([canHandle] answers no) and a context whose signal is not aborted,
    [executeTool] throws the error "Unknown tool: <name>"; besides the
    first initialisation it only logs, so that no method of the client is
    invoked. *)
Theorem executeTool_unknown_tool (env : Env) (client : Client)
    (name : string) (args : Args) (progressReporter : bool) (st : State) :
  canHandle name = false ->
  context_aborted (context st) = false ->
  executeTool env client name args progressReporter st =
    (inr (Error ("Unknown tool: " +:+ name)),
     {| initialized := true;
        context := context st;
        events := events st ++ [EvLog (LogToolStart name)]
                  ++ init_events (initialized st)
                  ++ [EvLog (LogError "TOOL_ERROR")] |}) /\
  (forall m, ~ In (EvInvoke m)
               ([EvLog (LogToolStart name)] ++ init_events (initialized st)
                ++ [EvLog (LogError "TOOL_ERROR")])) /\
  length supportedTools = 18.
Proof.
  intros Hcan Hlive. split; [apply executeTool_unsupported; assumption|].
  split; [|reflexivity].
  intros m Hin. apply in_app_or in Hin as [[H|[]]|Hin]; [discriminate H|].
  apply in_app_or in Hin as [Hin|[H|[]]]; [|discriminate H].
  exact (init_events_no_invoke _ _ Hin).
Qed.

(** C3.  For a supported operation: when the client method fails and, at
    that moment, the signal of the context is aborted or the failure is
    the error "Request was cancelled", [executeTool] logs the call as
    cancelled ([TOOL_CANCELLED]) and not as a tool error, and rethrows the
    failure, so that no payload is returned.  And an endpoint method of the
    client turns the cancellation of its HTTP request into exactly the
    error "Request was cancelled". *)
Theorem executeTool_cancelled_during_call (env : Env) :
  (forall (client : Client) (name : string) (m : ClientMethod) (args : Args)
          (progressReporter : bool) (st st_f : State) (e : JsError),
      switch_on switch_cases name = Some m ->
      context_aborted (context st) = false ->
      client m args (make_requestOptions (context st) progressReporter)
        (state_at_handler env name m progressReporter st) = (inr e, st_f) ->
      context_aborted (context st_f) = true \/ e = Error "Request was cancelled" ->
      executeTool env client name args progressReporter st =
        (inr e, record (EvLog (LogInfo "TOOL_CANCELLED")) st_f)) /\
  (forall (m : ClientMethod) (o : Params) (options : RequestOptions)
          (st : State) (x : Extracted),
      fst (extract (endpoint_of m) (ArgsObject o) st) = inl x ->
      http_reply env (build_request (endpoint_of m) x options) = Cancelled ->
      fst (AirtableClient env m (ArgsObject o) options st)
        = inr (Error "Request was cancelled")).
Proof.
  split.
  - intros client name m args progressReporter st st_f e Hsw Hlive Hfail Hcancel.
    rewrite (executeTool_supported _ _ _ m) by assumption.
    rewrite Hfail, on_error_run.
    destruct Hcancel as [Hab | ->].
    + rewrite Hab. reflexivity.
    + cbn [error_message]. rewrite String.eqb_refl, orb_true_r. reflexivity.
  - intros m o options st x Hx Hreply.
    unfold AirtableClient, call_endpoint.
    unfold bind at 1. unfold log at 1, emit at 1.
    unfold try_catch.
    unfold bind at 1. rewrite (extract_any_state _ _ st), Hx.
    unfold bind at 1. unfold log at 1, emit at 1.
    set (st1 := record _ (record _ st)).
    assert (Hcb : forall p pr s, exists s',
               (match onProgress options with
                | Some token => call_progress_callback env p token pr
                | None => ret tt
                end) s = (inl tt, s')).
    { intros p pr s. destruct (onProgress options); eexists; reflexivity. }
    unfold bind at 1. destruct (Hcb AwaitCallbackStart
      (progress_of 0 ("Starting " +:+ ep_name (endpoint_of m) +:+ " request...")) st1)
      as [st2 ->].
    unfold bind at 1. unfold http_call. unfold bind at 1 2. unfold emit, await.
    rewrite Hreply. reflexivity.
Qed.

(** When an endpoint method gets its answer, it returns one text block
    holding the serialised data. *)
Lemma call_endpoint_resolved (env : Env) (m : ClientMethod) (o : Params)
    (options : RequestOptions) (st : State) (x : Extracted) (data : JsValue) :
  fst (extract (endpoint_of m) (ArgsObject o) st) = inl x ->
  http_reply env (build_request (endpoint_of m) x options) = Resolved data ->
  is_defined data = true ->
  fst (AirtableClient env m (ArgsObject o) options st)
    = inl {| content := [ {| type := "text"; text := JSON_stringify env data |} ] |}.
Proof.
  intros Hx Hreply Hdata.
  unfold AirtableClient, call_endpoint.
  unfold bind at 1. unfold log at 1, emit at 1.
  unfold try_catch.
  unfold bind at 1. rewrite (extract_any_state _ _ st), Hx.
  unfold bind at 1. unfold log at 1, emit at 1.
  set (st1 := record _ (record _ st)).
  assert (Hcb : forall p pr s, exists s',
             (match onProgress options with
              | Some token => call_progress_callback env p token pr
              | None => ret tt
              end) s = (inl tt, s')).
  { intros p pr s. destruct (onProgress options); eexists; reflexivity. }
  unfold bind at 1. destruct (Hcb AwaitCallbackStart
    (progress_of 0 ("Starting " +:+ ep_name (endpoint_of m) +:+ " request...")) st1)
    as [st2 ->].
  unfold bind at 1. unfold http_call. unfold bind at 1 2. unfold emit at 1, await at 1.
  rewrite Hreply. unfold ret at 1.
  unfold bind at 1. destruct (Hcb AwaitCallbackDone
    (progress_of 100 ("Completed " +:+ ep_name (endpoint_of m) +:+ " request"))
    (arrive env AwaitHttp (record (EvHttp (build_request (endpoint_of m) x options)) st2)))
    as [st3 ->].
  rewrite Hdata. reflexivity.
Qed.

(** C4.  For a supported operation and a context that is not aborted at
    dispatch: when the client method resolves with a payload,
    [executeTool] returns that payload unchanged.  In particular
    "airtable_list_bases", when the HTTP request of [listBases] is
    answered, returns one text block holding the serialised response
    data. *)
Theorem executeTool_completed (env : Env) :
  (forall (client : Client) (name : string) (m : ClientMethod) (args : Args)
          (progressReporter : bool) (st st_f : State) (p : Payload),
      switch_on switch_cases name = Some m ->
      context_aborted (context st) = false ->
      client m args (make_requestOptions (context st) progressReporter)
        (state_at_handler env name m progressReporter st) = (inl p, st_f) ->
      fst (executeTool env client name args progressReporter st) = inl p) /\
  (forall (o : Params) (progressReporter : bool) (st : State) (x : Extracted)
          (data : JsValue),
      context_aborted (context st) = false ->
      fst (extract (endpoint_of listBases) (ArgsObject o) st) = inl x ->
      http_reply env
        (build_request (endpoint_of listBases) x
           (make_requestOptions (context st) progressReporter)) = Resolved data ->
      is_defined data = true ->
      fst (executeTool env (AirtableClient env) "airtable_list_bases" (ArgsObject o)
             progressReporter st)
        = inl {| content := [ {| type := "text"; text := JSON_stringify env data |} ] |}).
Proof.
  assert (Hgen : forall (client : Client) name m args progressReporter st st_f p,
             switch_on switch_cases name = Some m ->
             context_aborted (context st) = false ->
             client m args (make_requestOptions (context st) progressReporter)
               (state_at_handler env name m progressReporter st) = (inl p, st_f) ->
             fst (executeTool env client name args progressReporter st) = inl p).
  { intros client name m args progressReporter st st_f p Hsw Hlive Hok.
    rewrite (executeTool_supported _ _ _ m) by assumption.
    rewrite Hok. reflexivity. }
  split; [exact Hgen|].
  intros o progressReporter st x data Hlive Hx Hreply Hdata.
  pose proof (call_endpoint_resolved env listBases o
                (make_requestOptions (context st) progressReporter)
                (state_at_handler env "airtable_list_bases" listBases progressReporter st)
                x data) as Hcall.
  rewrite (extract_any_state _ _ st), Hx in Hcall.
  specialize (Hcall eq_refl Hreply Hdata).
  destruct (AirtableClient env listBases (ArgsObject o) _ _) as [r st_f] eqn:Hrun.
  cbn [fst] in Hcall. subst r.
  apply (Hgen _ _ listBases _ _ _ st_f); [reflexivity | exact Hlive | exact Hrun].
Qed.

(** *** What a call leaves alone *)

Lemma context_evolves_refl (c : option RequestContext) : context_evolves c c.
Proof. destruct c; simpl; auto. Qed.

Lemma context_evolves_trans (a b c : option RequestContext) :
  context_evolves a b -> context_evolves b c -> context_evolves a c.
Proof.
  destruct a, b, c; simpl; try tauto.
  intros (-> & -> & H1) (-> & -> & H2). auto.
Qed.

Lemma context_frame_refl (st : State) : context_frame st st.
Proof. apply context_evolves_refl. Qed.

Lemma context_frame_trans (a b c : State) :
  context_frame a b -> context_frame b c -> context_frame a c.
Proof. apply context_evolves_trans. Qed.

Lemma same_context_refl (st : State) : same_context st st.
Proof. reflexivity. Qed.

Lemma same_context_trans (a b c : State) :
  same_context a b -> same_context b c -> same_context a c.
Proof. unfold same_context. congruence. Qed.

Lemma same_progress_refl (st : State) : same_progress st st.
Proof. reflexivity. Qed.

Lemma same_progress_trans (a b c : State) :
  same_progress a b -> same_progress b c -> same_progress a c.
Proof. unfold same_progress. congruence. Qed.

Lemma same_progress_record (e : Event) (st : State) :
  is_progress_event e = false -> same_progress st (record e st).
Proof.
  intros He. unfold same_progress, record. cbn [events].
  rewrite List.filter_app. cbn [List.filter]. rewrite He. apply app_nil_r.
Qed.

Lemma same_progress_arrive (env : Env) (p : AwaitPoint) (st : State) :
  same_progress st (arrive env p st).
Proof. unfold same_progress, arrive. destruct (cancel_during env p); reflexivity. Qed.

Lemma context_frame_arrive (env : Env) (p : AwaitPoint) (st : State) :
  context_frame st (arrive env p st).
Proof.
  unfold context_frame, arrive.
  destruct (cancel_during env p); [|apply context_evolves_refl].
  cbn [context]. destruct (context st); simpl; auto.
Qed.

Lemma same_context_arrive (env : Env) (p : AwaitPoint) (st : State) :
  (forall q, cancel_during env q = false) -> same_context st (arrive env p st).
Proof. intros Hquiet. unfold arrive. rewrite Hquiet. reflexivity. Qed.

Section CallPreserves.

Variable R : State -> State -> Prop.
Variable env : Env.
Hypothesis R_refl : forall st, R st st.
Hypothesis R_trans : forall a b c, R a b -> R b c -> R a c.
Hypothesis R_log : forall l st, R st (record (EvLog l) st).
Hypothesis R_arrive : forall p st, R st (arrive env p st).

Lemma preserves_log (l : LogCall) : preserves R (log l).
Proof. intros st. apply R_log. Qed.

Lemma preserves_await (p : AwaitPoint) : preserves R (await env p).
Proof. intros st. apply R_arrive. Qed.

Lemma preserves_emit (e : Event) :
  (forall st, R st (record e st)) -> preserves R (emit e).
Proof. intros He st. apply He. Qed.

Ltac p_bind := apply (preserves_bind R R_trans); [|intros ?].
Ltac p_leaf :=
  first [ apply (preserves_ret R R_refl)
        | apply (preserves_throw R R_refl)
        | apply (preserves_get_context R R_refl)
        | apply (preserves_get_initialized R R_refl)
        | apply preserves_log
        | apply preserves_await ].
Ltac p_seq := repeat first [ p_leaf | p_bind ].

Hypothesis R_http : forall req st, R st (record (EvHttp req) st).

(** An endpoint method keeps [R] when its progress callback does. *)
Lemma preserves_call_endpoint (ep : Endpoint) (params : Args)
    (options : RequestOptions) :
  (forall token pr st, onProgress options = Some token ->
                       R st (record (EvCallback token pr) st)) ->
  preserves R (call_endpoint env ep params options).
Proof.
  intros Hcb.
  assert (Hcallback : forall p pr,
             preserves R (match onProgress options with
                          | Some token => call_progress_callback env p token pr
                          | None => ret tt
                          end)).
  { intros p pr. destruct (onProgress options) as [token|] eqn:E; [|p_leaf].
    unfold call_progress_callback. p_bind; [|p_leaf].
    apply preserves_emit. intros st. apply Hcb. reflexivity. }
  unfold call_endpoint. p_bind; [p_leaf|].
  apply (preserves_try_catch R R_trans).
  - p_bind; [apply (preserves_stateless R R_refl), stateless_extract|].
    p_bind; [p_leaf|]. p_bind; [apply Hcallback|].
    p_bind.
    { unfold http_call. p_bind; [apply preserves_emit, R_http|].
      p_bind; [p_leaf|]. destruct (http_reply env _); p_leaf. }
    p_bind; [apply Hcallback|].
    p_bind; [destruct (is_defined _); p_leaf|].
    p_seq.
  - intros e. destruct (isCancel e); p_seq.
Qed.

Hypothesis R_invoke : forall m st, R st (record (EvInvoke m) st).
Hypothesis R_init : forall st, R st (snd (set_initialized true st)).

(** [executeTool] keeps [R] when its reports and the client do. *)
Lemma preserves_executeTool (client : Client) (name : string) (args : Args)
    (progressReporter : bool) :
  (forall p pr, preserves R (report_if_tracked env p progressReporter pr)) ->
  (forall m a o, preserves R (client m a o)) ->
  preserves R (executeTool env client name args progressReporter).
Proof.
  intros Hreport Hclient.
  unfold executeTool. p_bind; [p_leaf|]. p_bind; [p_leaf|].
  destruct (context_aborted _); [p_seq|].
  p_bind.
  { unfold ensureInitialized.
    apply (preserves_bind R R_trans); [p_leaf | intros already].
    destruct already; [p_leaf|].
    p_bind; [p_leaf|]. p_bind; [p_leaf|]. p_bind; [exact R_init|]. p_leaf. }
  destruct (negb (canHandle name)); [p_seq|].
  p_bind; [p_leaf|].
  apply (preserves_try_catch R R_trans).
  - unfold dispatch. p_bind; [p_leaf|].
    destruct (switch_on switch_cases name) as [m|]; [|p_leaf].
    p_bind; [|p_seq].
    unfold run_case. p_bind; [p_leaf|]. p_bind; [apply Hreport|].
    p_bind; [|p_bind; [apply Hreport|p_leaf]].
    unfold invoke. p_bind; [apply preserves_emit, R_invoke | apply Hclient].
  - intros e. unfold on_error. p_bind; [p_leaf|].
    p_bind; [|p_leaf]. destruct (_ || _); p_leaf.
Qed.

End CallPreserves.

(** The client of the sources keeps the identity of the context, and
    leaves the context alone when no cancellation arrives. *)
Lemma AirtableClient_context_frame (env : Env) (m : ClientMethod) (a : Args)
    (o : RequestOptions) :
  preserves context_frame (AirtableClient env m a o).
Proof.
  apply (preserves_call_endpoint context_frame env
           context_frame_refl context_frame_trans).
  - intros l st. apply context_evolves_refl.
  - apply context_frame_arrive.
  - intros req st. apply context_evolves_refl.
  - intros token pr st _. apply context_evolves_refl.
Qed.

Lemma AirtableClient_same_context (env : Env) (m : ClientMethod) (a : Args)
    (o : RequestOptions) :
  (forall p, cancel_during env p = false) ->
  preserves same_context (AirtableClient env m a o).
Proof.
  intros Hquiet.
  apply (preserves_call_endpoint same_context env
           same_context_refl same_context_trans).
  - reflexivity.
  - intros p st. apply same_context_arrive. exact Hquiet.
  - reflexivity.
  - reflexivity.
Qed.

(** Without a progress callback, an endpoint method emits no progress
    event. *)
Lemma AirtableClient_same_progress (env : Env) (m : ClientMethod) (a : Args)
    (o : RequestOptions) :
  onProgress o = None ->
  preserves same_progress (AirtableClient env m a o).
Proof.
  intros Hnone.
  apply (preserves_call_endpoint same_progress env
           same_progress_refl same_progress_trans).
  - intros l st. apply same_progress_record. reflexivity.
  - apply same_progress_arrive.
  - intros req st. apply same_progress_record. reflexivity.
  - intros token pr st Hsome. congruence.
Qed.

(** C9.  [executeTool] does not change the context it is given.  Along a
    call, on every way out, the identifier and the progress token of the
    context stay what they were and its signal never goes back from
    aborted, provided the client does as much; and when no cancellation
    arrives while the call waits and the client leaves the context alone,
    the whole context, signal included, is the same after the call:
    [executeTool] itself never aborts the signal.  The client of the
    sources meets both provisos. *)
Theorem executeTool_context_unchanged (env : Env) (client : Client)
    (name : string) (args : Args) (progressReporter : bool) (st : State) :
  ((forall m a o, preserves context_frame (client m a o)) ->
   context_evolves (context st)
     (context (snd (executeTool env client name args progressReporter st)))) /\
  ((forall p, cancel_during env p = false) ->
   (forall m a o, preserves same_context (client m a o)) ->
   context (snd (executeTool env client name args progressReporter st)) = context st) /\
  (forall m a o, preserves context_frame (AirtableClient env m a o)) /\
  ((forall p, cancel_during env p = false) ->
   forall m a o, preserves same_context (AirtableClient env m a o)).
Proof.
  split; [|split; [|split]].
  - intros Hclient.
    apply (preserves_executeTool context_frame env
             context_frame_refl context_frame_trans); try exact Hclient.
    + intros l s. apply context_evolves_refl.
    + intros m s. apply context_evolves_refl.
    + intros s. apply context_evolves_refl.
    + intros p pr s. rewrite report_if_tracked_run. cbn [snd].
      destruct (progress_target _ _);
        [apply context_arrive_record | apply context_evolves_refl].
  - intros Hquiet Hclient.
    apply (preserves_executeTool same_context env
             same_context_refl same_context_trans); try exact Hclient.
    + reflexivity.
    + reflexivity.
    + reflexivity.
    + intros p pr s. rewrite report_if_tracked_run. cbn [snd].
      destruct (progress_target _ _); [|reflexivity].
      unfold same_context, arrive. rewrite Hquiet. reflexivity.
  - intros m a o. apply AirtableClient_context_frame.
  - intros Hquiet m a o. apply AirtableClient_same_context. exact Hquiet.
Qed.

(** *** Progress reports of [executeTool] *)

Lemma progress_target_truthy (ctx : RequestContext) (token : ProgressToken) :
  progressToken ctx = Some token ->
  token_truthy token = true ->
  progress_target (Some ctx) true = Some token.
Proof. intros Htok Htruthy. unfold progress_target. rewrite Htok, Htruthy. reflexivity. Qed.

Lemma same_progress_app (st st' : State) (added : list Event) :
  events st' = events st ++ added ->
  forallb (fun e => negb (is_progress_event e)) added = true ->
  same_progress st st'.
Proof.
  intros Hev Hquiet. unfold same_progress. rewrite Hev, List.filter_app.
  assert (Hnone : List.filter is_progress_event added = []).
  { clear Hev. induction added as [|e l IH]; [reflexivity|].
    cbn [forallb] in Hquiet. apply andb_true_iff in Hquiet as [He Hl].
    cbn [List.filter]. destruct (is_progress_event e); [discriminate He | exact (IH Hl)]. }
  rewrite Hnone. apply app_nil_r.
Qed.

(** With a truthy progress token and a reporter, [executeTool] reports
    once before the client method is called, with progress 0 of 100, and,
    when the method resolves, once after it, with progress 100 of 100. *)
Theorem executeTool_progress_reports (env : Env) (client : Client) (name : string)
    (m : ClientMethod) (args : Args) (st : State) (ctx : RequestContext)
    (token : ProgressToken) :
  switch_on switch_cases name = Some m ->
  context st = Some ctx ->
  aborted (signal (abortController ctx)) = false ->
  progressToken ctx = Some token ->
  token_truthy token = true ->
  events (state_at_handler env name m true st)
    = events st ++ [EvLog (LogToolStart name)] ++ init_events (initialized st)
      ++ [EvLog (LogDebug "PARAM_VALIDATION"); EvLog (LogDebug "TOOL_EXECUTE");
          EvReport token (start_progress m); EvInvoke m] /\
  (progress (start_progress m) = 0%Z /\ total (start_progress m) = Some 100%Z) /\
  (progress (done_progress m) = 100%Z /\ total (done_progress m) = Some 100%Z) /\
  (forall (p : Payload) (st_f : State),
      client m args (make_requestOptions (context st) true)
        (state_at_handler env name m true st) = (inl p, st_f) ->
      context_evolves (context st) (context st_f) ->
      executeTool env client name args true st
        = (inl p,
           record (EvLog (LogToolSuccess name))
             (arrive env AwaitReportDone (record (EvReport token (done_progress m)) st_f)))).
Proof.
  intros Hsw Hctx Hlive Htok Htruthy.
  pose proof (progress_target_truthy ctx token Htok Htruthy) as Htarget.
  split; [|split; [|split]].
  - rewrite state_at_handler_eq. cbv zeta. rewrite Hctx, Htarget.
    unfold record, arrive.
    destruct (cancel_during env AwaitReportStart); cbn [events];
      rewrite <- !app_assoc; reflexivity.
  - split; reflexivity.
  - split; reflexivity.
  - intros p st_f Hok Hframe.
    rewrite (executeTool_supported _ _ _ m); [|exact Hsw|rewrite Hctx; exact Hlive].
    rewrite Hok, after_handler_run. cbn [snd].
    rewrite (progress_target_evolves _ _ true Hframe), Hctx, Htarget. reflexivity.
Qed.

(** When the test on the progress token fails (no context, no token, a
    falsy token or no reporter), a call through the client of the sources
    emits no progress event at all. *)
Lemma executeTool_untracked_silent (env : Env) (name : string) (args : Args)
    (progressReporter : bool) (st : State) :
  progress_target (context st) progressReporter = None ->
  same_progress st
    (snd (executeTool env (AirtableClient env) name args progressReporter st)).
Proof.
  intros Hnone.
  destruct (context_aborted (context st)) eqn:Hab.
  { rewrite executeTool_aborted by exact Hab. cbn [snd].
    eapply same_progress_app; [reflexivity|reflexivity]. }
  destruct (switch_on switch_cases name) as [m|] eqn:Hsw.
  - rewrite (executeTool_supported _ _ _ m) by assumption.
    set (st_h := state_at_handler env name m progressReporter st).
    assert (Hh : same_progress st st_h /\ context st_h = context st).
    { subst st_h. rewrite state_at_handler_eq. cbv zeta. rewrite Hnone. split; [|reflexivity].
      eapply same_progress_app.
      - unfold record. cbn [events]. rewrite <- !app_assoc. reflexivity.
      - unfold init_events. destruct (initialized st); reflexivity. }
    destruct Hh as [Hh1 Hh2].
    pose proof (AirtableClient_same_progress env m args
                  (make_requestOptions (context st) progressReporter) Hnone st_h) as Hc1.
    pose proof (AirtableClient_context_frame env m args
                  (make_requestOptions (context st) progressReporter) st_h) as Hc2.
    destruct (AirtableClient env m args _ st_h) as [[p|e] st_f]; cbn [snd] in Hc1, Hc2.
    + rewrite after_handler_run. cbn [snd].
      unfold context_frame in Hc2. rewrite Hh2 in Hc2.
      rewrite (progress_target_evolves _ _ progressReporter Hc2), Hnone.
      eapply same_progress_trans; [exact Hh1|].
      eapply same_progress_trans; [exact Hc1|].
      apply same_progress_record. reflexivity.
    + rewrite on_error_run. cbn [snd].
      eapply same_progress_trans; [exact Hh1|].
      eapply same_progress_trans; [exact Hc1|].
      apply same_progress_record. reflexivity.
  - assert (Hunk : canHandle name = false).
    { destruct (canHandle name) eqn:E; [|reflexivity].
      apply switch_on_canHandle in E as [m Hm]. congruence. }
    rewrite executeTool_unsupported by assumption. cbn [snd].
    eapply same_progress_app; [reflexivity|].
    unfold init_events. destruct (initialized st); reflexivity.
Qed.

(** When the context carries no progress token, or there is no context,
    a call through the client of the sources emits no progress event at
    all, whatever the tool, the arguments and the outcome. *)
Theorem executeTool_no_token_no_progress (env : Env) (name : string) (args : Args)
    (progressReporter : bool) (st : State) :
  match context st with
  | Some ctx => progressToken ctx = None
  | None => True
  end ->
  List.filter is_progress_event
    (events (snd (executeTool env (AirtableClient env) name args progressReporter st)))
  = List.filter is_progress_event (events st).
Proof.
  intros Hnone. apply executeTool_untracked_silent.
  unfold progress_target. destruct (context st) as [ctx|]; [|reflexivity].
  rewrite Hnone. reflexivity.
Qed.

(** ** The cancellation registry *)

Lemma activate_idempotent (why1 why2 : option string) (s : CancellationRegistry.Signal) :
  CancellationRegistry.activate why2 (CancellationRegistry.activate why1 s)
  = CancellationRegistry.activate why1 s.
Proof.
  unfold CancellationRegistry.activate.
  destruct (CancellationRegistry.cancelled s) eqn:E; cbn; [rewrite E|]; reflexivity.
Qed.

Lemma alter_activate_twice (why1 why2 : option string) (place : nat)
    (m : gmap nat CancellationRegistry.Signal) :
  alter (CancellationRegistry.activate why2) place
    (alter (CancellationRegistry.activate why1) place m)
  = alter (CancellationRegistry.activate why1) place m.
Proof.
  apply map_eq. intros k.
  destruct (decide (place = k)) as [->|Hne].
  - rewrite !lookup_alter_eq.
    destruct (m !! k) as [s|]; cbn; [|reflexivity].
    f_equal. apply activate_idempotent.
  - rewrite !lookup_alter_ne by exact Hne. reflexivity.
Qed.

(** An identifier that no operation of a history registers has no entry
    after the history. *)
Lemma never_registered_absent (requestId : string) (ops : list CancellationRegistry.Op)
    (r : CancellationRegistry.t) :
  CancellationRegistry.entries r !! requestId = None ->
  forallb (fun op => negb (CancellationRegistry.registers requestId op)) ops = true ->
  CancellationRegistry.entries (CancellationRegistry.run ops r) !! requestId = None.
Proof.
  revert r. induction ops as [|op ops IH]; intros r Hr Hops; [exact Hr|].
  cbn [forallb] in Hops. apply andb_true_iff in Hops as [Hop Hrest].
  unfold CancellationRegistry.run. cbn [fold_left]. apply IH; [|exact Hrest].
  destruct op as [id|id why|id]; cbn [CancellationRegistry.step].
  - cbn [CancellationRegistry.registers] in Hop.
    apply negb_true_iff, String.eqb_neq in Hop.
    unfold CancellationRegistry.register.
    destruct (CancellationRegistry.entries r !! id); [exact Hr|].
    cbn [CancellationRegistry.entries]. rewrite lookup_insert_ne by exact Hop. exact Hr.
  - unfold CancellationRegistry.cancel.
    destruct (CancellationRegistry.entries r !! id); exact Hr.
  - cbn [CancellationRegistry.unregister CancellationRegistry.entries].
    destruct (decide (id = requestId)) as [->|Hne].
    + apply lookup_delete_eq.
    + rewrite lookup_delete_ne by exact Hne. exact Hr.
Qed.

(** C8.  On the cancellation registry: cancelling an identifier that has
    no entry, be it that no operation ever registered it or that its entry
    was removed when the invocation completed, returns without a fault and
    leaves the whole registry, signals included, as it was; and cancelling
    twice leaves the registry as the first cancellation left it. *)
Theorem cancel_unknown_or_repeated (requestId : string) (why : option string) :
  (forall r : CancellationRegistry.t,
      CancellationRegistry.entries r !! requestId = None ->
      CancellationRegistry.cancel requestId why r = Ok r) /\
  (forall ops : list CancellationRegistry.Op,
      forallb (fun op => negb (CancellationRegistry.registers requestId op)) ops = true ->
      CancellationRegistry.cancel requestId why
        (CancellationRegistry.run ops CancellationRegistry.empty)
      = Ok (CancellationRegistry.run ops CancellationRegistry.empty)) /\
  (forall r r' : CancellationRegistry.t,
      CancellationRegistry.unregister requestId r = Ok r' ->
      CancellationRegistry.cancel requestId why r' = Ok r') /\
  (forall (r r1 : CancellationRegistry.t) (why1 : option string),
      CancellationRegistry.cancel requestId why1 r = Ok r1 ->
      CancellationRegistry.cancel requestId why r1 = Ok r1).
Proof.
  assert (Habsent : forall r, CancellationRegistry.entries r !! requestId = None ->
                              CancellationRegistry.cancel requestId why r = Ok r).
  { intros r Hr. unfold CancellationRegistry.cancel. rewrite Hr. reflexivity. }
  split; [exact Habsent|]. split; [|split].
  - intros ops Hops. apply Habsent, never_registered_absent; [|exact Hops].
    apply lookup_empty.
  - intros r r' Hun. apply Habsent.
    unfold CancellationRegistry.unregister in Hun. injection Hun as <-.
    cbn [CancellationRegistry.entries]. apply lookup_delete_eq.
  - intros r r1 why1 Hfirst. unfold CancellationRegistry.cancel in *.
    destruct (CancellationRegistry.entries r !! requestId) as [place|] eqn:E.
    + injection Hfirst as <-. cbn [CancellationRegistry.entries]. rewrite E.
      cbn [CancellationRegistry.signals CancellationRegistry.next].
      rewrite alter_activate_twice. reflexivity.
    + injection Hfirst as <-. rewrite E. reflexivity.
Qed.

(** ** The progress correlator *)

Lemma emit_unregistered (token : ProgressToken) (p : Progress) (c : ProgressCorrelator.t) :
  token ∉ ProgressCorrelator.channels c ->
  ProgressCorrelator.emit token p c = c.
Proof.
  intros Hout. unfold ProgressCorrelator.emit.
  destruct (decide (token ∈ ProgressCorrelator.channels c)); [contradiction | reflexivity].
Qed.

(** C7.  On the progress correlator: an event emitted on a token after
    the invocation has completed, that is after the token was
    unregistered, changes nothing; the transport gets no notification, and
    whatever operations follow, a later registration of the same token
    included, the transport gets what it would have got had the event
    never been emitted: the event is dropped, not queued. *)
Theorem emit_after_completion_dropped (token : ProgressToken) (p : Progress)
    (c : ProgressCorrelator.t) :
  ProgressCorrelator.emit token p (ProgressCorrelator.unregister token c)
    = ProgressCorrelator.unregister token c /\
  ProgressCorrelator.transport
    (ProgressCorrelator.emit token p (ProgressCorrelator.unregister token c))
    = ProgressCorrelator.transport c /\
  (forall later : list ProgressCorrelator.Op,
      ProgressCorrelator.run later
        (ProgressCorrelator.emit token p (ProgressCorrelator.unregister token c))
      = ProgressCorrelator.run later (ProgressCorrelator.unregister token c)).
Proof.
  assert (Hdrop : ProgressCorrelator.emit token p (ProgressCorrelator.unregister token c)
                  = ProgressCorrelator.unregister token c).
  { apply emit_unregistered.
    unfold ProgressCorrelator.unregister. cbn [ProgressCorrelator.channels].
    intros [_ Hnot]%elem_of_difference. apply Hnot, elem_of_singleton. reflexivity. }
  split; [exact Hdrop|]. split.
  - rewrite Hdrop. reflexivity.
  - intros later. rewrite Hdrop. reflexivity.
Qed.

(** On a registered token, events reach the transport in the order of
    their emission. *)
Lemma emit_in_order (token : ProgressToken) (p1 p2 : Progress)
    (c : ProgressCorrelator.t) :
  token ∈ ProgressCorrelator.channels c ->
  ProgressCorrelator.transport
    (ProgressCorrelator.emit token p2 (ProgressCorrelator.emit token p1 c))
  = ProgressCorrelator.transport c
    ++ [ {| ProgressCorrelator.n_token := token; ProgressCorrelator.n_progress := p1 |};
         {| ProgressCorrelator.n_token := token; ProgressCorrelator.n_progress := p2 |} ].
Proof.
  intros Hin. unfold ProgressCorrelator.emit.
  destruct (decide (token ∈ ProgressCorrelator.channels c)); [|contradiction].
  cbn [ProgressCorrelator.channels ProgressCorrelator.transport].
  destruct (decide (token ∈ ProgressCorrelator.channels c)); [|contradiction].
  cbn [ProgressCorrelator.transport]. rewrite <- app_assoc. reflexivity.
Qed.

(** ** Missing required parameters *)

(** The course of an endpoint method on an object of parameters: the
    request is built from the separated parameters and sent, and the
    method ends as the request ends. *)
Lemma call_endpoint_object (env : Env) (ep : Endpoint) (o : Params)
    (options : RequestOptions) (st : State) (x : Extracted) :
  fst (extract ep (ArgsObject o) st) = inl x ->
  call_endpoint env ep (ArgsObject o) options st =
    let st1 := record (EvLog (LogDebug "PATH_BUILD"))
                 (record (EvLog (LogInfo "ENDPOINT_START")) st) in
    let st2 := match onProgress options with
               | Some token =>
                   arrive env AwaitCallbackStart
                     (record (EvCallback token
                                (progress_of 0 ("Starting " +:+ ep_name ep +:+ " request...")))
                        st1)
               | None => st1
               end in
    let req := build_request ep x options in
    let st3 := arrive env AwaitHttp (record (EvHttp req) st2) in
    match http_reply env req with
    | Resolved data =>
        let st4 := match onProgress options with
                   | Some token =>
                       arrive env AwaitCallbackDone
                         (record (EvCallback token
                                    (progress_of 100 ("Completed " +:+ ep_name ep +:+ " request")))
                            st3)
                   | None => st3
                   end in
        if is_defined data then
          (inl {| content := [ {| type := "text"; text := JSON_stringify env data |} ] |},
           record (EvLog (LogInfo "ENDPOINT_SUCCESS")) st4)
        else
          (inr (Error ("Failed to execute " +:+ ep_name ep +:+ ": "
                       +:+ "Cannot read properties of undefined (reading 'length')")),
           record (EvLog (LogError "ENDPOINT_ERROR")) st4)
    | Cancelled =>
        (inr (Error "Request was cancelled"),
         record (EvLog (LogInfo "REQUEST_CANCELLED")) st3)
    | Rejected msg =>
        (inr (Error ("Failed to execute " +:+ ep_name ep +:+ ": " +:+ msg)),
         record (EvLog (LogError "ENDPOINT_ERROR")) st3)
    end.
Proof.
  intros Hx. cbv zeta.
  unfold call_endpoint.
  unfold bind at 1. unfold log at 1, emit at 1.
  unfold try_catch.
  unfold bind at 1. rewrite (extract_any_state _ _ st), Hx.
  unfold bind at 1. unfold log at 1, emit at 1.
  unfold bind at 1.
  replace ((match onProgress options with
            | Some token =>
                call_progress_callback env AwaitCallbackStart token
                  (progress_of 0 ("Starting " +:+ ep_name ep +:+ " request..."))
            | None => ret tt
            end) (record (EvLog (LogDebug "PATH_BUILD"))
                    (record (EvLog (LogInfo "ENDPOINT_START")) st)))
    with (@inl unit JsError tt,
          match onProgress options with
          | Some token =>
              arrive env AwaitCallbackStart
                (record (EvCallback token
                           (progress_of 0 ("Starting " +:+ ep_name ep +:+ " request...")))
                   (record (EvLog (LogDebug "PATH_BUILD"))
                      (record (EvLog (LogInfo "ENDPOINT_START")) st)))
          | None => record (EvLog (LogDebug "PATH_BUILD"))
                      (record (EvLog (LogInfo "ENDPOINT_START")) st)
          end)
    by (destruct (onProgress options); reflexivity).
  unfold bind at 1. unfold http_call. unfold bind at 1 2. unfold emit at 1, await at 1.
  destruct (http_reply env (build_request ep x options)) as [data| |msg].
  - unfold ret at 1. unfold bind at 1.
    match goal with
    | |- context [ (match onProgress options with
                    | Some token => call_progress_callback env AwaitCallbackDone token ?pr
                    | None => ret tt
                    end) ?s ] =>
        replace ((match onProgress options with
                  | Some token => call_progress_callback env AwaitCallbackDone token pr
                  | None => ret tt
                  end) s)
          with (@inl unit JsError tt,
                match onProgress options with
                | Some token => arrive env AwaitCallbackDone (record (EvCallback token pr) s)
                | None => s
                end)
          by (destruct (onProgress options); reflexivity)
    end.
    unfold bind at 1. destruct (is_defined data); reflexivity.
  - reflexivity.
  - reflexivity.
Qed.

Lemma In_events_record (e e' : Event) (st : State) :
  e = e' \/ In e (events st) -> In e (events (record e' st)).
Proof.
  intros H. unfold record. cbn [events]. apply in_app_iff.
  destruct H as [->|H]; [right; left; reflexivity | left; exact H].
Qed.

Lemma In_events_arrive (env : Env) (p : AwaitPoint) (e : Event) (st : State) :
  In e (events st) -> In e (events (arrive env p st)).
Proof. unfold arrive. destruct (cancel_during env p); exact (fun H => H). Qed.

Ltac in_events :=
  repeat first
    [ apply In_events_arrive
    | apply In_events_record; first [ left; reflexivity | right ]
    | match goal with
      | |- In _ (events (match ?t with Some _ => _ | None => _ end)) => destruct t
      end ].

(** What a call on an object of arguments comes to, for a supported tool
    and a context that is not aborted: the request built from the
    arguments is issued, whatever the arguments hold or lack, and the call
    ends as the request ends. *)
Lemma executeTool_object_outcome (env : Env) (name : string) (m : ClientMethod)
    (o : Params) (progressReporter : bool) (st : State) (x : Extracted) :
  switch_on switch_cases name = Some m ->
  context_aborted (context st) = false ->
  fst (extract (endpoint_of m) (ArgsObject o) st) = inl x ->
  let req := build_request (endpoint_of m) x
               (make_requestOptions (context st) progressReporter) in
  let run := executeTool env (AirtableClient env) name (ArgsObject o) progressReporter st in
  In (EvHttp req) (events (snd run)) /\
  fst run =
    match http_reply env req with
    | Resolved data =>
        if is_defined data then
          inl {| content := [ {| type := "text"; text := JSON_stringify env data |} ] |}
        else
          inr (Error ("Failed to execute " +:+ ep_name (endpoint_of m) +:+ ": "
                      +:+ "Cannot read properties of undefined (reading 'length')"))
    | Cancelled => inr (Error "Request was cancelled")
    | Rejected msg =>
        inr (Error ("Failed to execute " +:+ ep_name (endpoint_of m) +:+ ": " +:+ msg))
    end.
Proof.
  intros Hsw Hlive Hx. cbv zeta.
  rewrite (executeTool_supported _ _ _ m) by assumption.
  unfold AirtableClient.
  rewrite (call_endpoint_object env _ o _ _ x)
    by (rewrite (extract_any_state _ _ st); exact Hx).
  cbv zeta.
  destruct (http_reply env _) as [data| |msg]; [destruct (is_defined data)| |].
  - rewrite after_handler_run. cbn [fst snd]. split; [in_events | reflexivity].
  - rewrite on_error_run. cbn [fst snd]. split; [in_events | reflexivity].
  - rewrite on_error_run. cbn [fst snd]. split; [in_events | reflexivity].
  - rewrite on_error_run. cbn [fst snd]. split; [in_events | reflexivity].
Qed.

(** C5.  A call of "airtable_get_record" whose arguments lack the
    required [base_id] is not refused: [getRecord] issues its HTTP request,
    on a path that still holds the text of the placeholder, and the call
    ends as that request ends; with an answer, it returns the payload. *)
Theorem get_record_without_base_id_is_sent (env : Env) :
  let args := ArgsObject [("table_id_or_name", JStr "tbl"); ("record_id", JStr "rec1")] in
  let st := {| initialized := false;
               context := Some {| requestId := "r1";
                                  progressToken := None;
                                  abortController := {| signal := {| aborted := false |} |} |};
               events := [] |} in
  let req := {| verb := GET; url := "/{base_id}/tbl/rec1"; query := [];
                body := None; with_signal := true |} in
  let run := executeTool env (AirtableClient env) "airtable_get_record" args true st in
  In (EvHttp req) (events (snd run)) /\
  fst run =
    match http_reply env req with
    | Resolved data =>
        if is_defined data then
          inl {| content := [ {| type := "text"; text := JSON_stringify env data |} ] |}
        else
          inr (Error ("Failed to execute get_record: "
                      +:+ "Cannot read properties of undefined (reading 'length')"))
    | Cancelled => inr (Error "Request was cancelled")
    | Rejected msg => inr (Error ("Failed to execute get_record: " +:+ msg))
    end.
Proof.
  cbv zeta.
  exact (executeTool_object_outcome env "airtable_get_record" getRecord
           [("table_id_or_name", JStr "tbl"); ("record_id", JStr "rec1")] true
           {| initialized := false;
              context := Some {| requestId := "r1";
                                 progressToken := None;
                                 abortController := {| signal := {| aborted := false |} |} |};
              events := [] |}
           {| pathParams := [("table_id_or_name", JStr "tbl"); ("record_id", JStr "rec1")];
              queryParams := []; bodyParams := [];
              extractedParams := ["table_id_or_name"; "record_id"] |}
           eq_refl eq_refl eq_refl).
Qed.

(** No arguments are refused.  For every supported tool and every object
    of arguments, whatever it holds or lacks, a call on a context that is
    not aborted issues the HTTP request built from the separated
    parameters, and ends as that request ends: with the payload when it is
    answered, with the error of the cancellation when it is cancelled,
    with "Failed to execute ..." when it is rejected. *)
Theorem executeTool_refuses_no_arguments (env : Env) (name : string) (m : ClientMethod)
    (o : Params) (progressReporter : bool) (st : State) :
  switch_on switch_cases name = Some m ->
  context_aborted (context st) = false ->
  exists x,
    fst (extract (endpoint_of m) (ArgsObject o) st) = inl x /\
    let req := build_request (endpoint_of m) x
                 (make_requestOptions (context st) progressReporter) in
    let run := executeTool env (AirtableClient env) name (ArgsObject o) progressReporter st in
    In (EvHttp req) (events (snd run)) /\
    fst run =
      match http_reply env req with
      | Resolved data =>
          if is_defined data then
            inl {| content := [ {| type := "text"; text := JSON_stringify env data |} ] |}
          else
            inr (Error ("Failed to execute " +:+ ep_name (endpoint_of m) +:+ ": "
                        +:+ "Cannot read properties of undefined (reading 'length')"))
      | Cancelled => inr (Error "Request was cancelled")
      | Rejected msg =>
          inr (Error ("Failed to execute " +:+ ep_name (endpoint_of m) +:+ ": " +:+ msg))
      end.
Proof.
  intros Hsw Hlive.
  destruct (extract_object_total (endpoint_of m) o st) as [x Hx].
  exists x. split; [rewrite Hx; reflexivity|].
  apply executeTool_object_outcome; [exact Hsw | exact Hlive | rewrite Hx; reflexivity].
Qed.

(** ** The progress events of a tracked call, in order *)

Lemma progress_events_record (e : Event) (st : State) :
  progress_events (record e st)
  = progress_events st ++ (if is_progress_event e then [e] else []).
Proof.
  unfold progress_events, record. cbn [events].
  rewrite List.filter_app. cbn [List.filter].
  destruct (is_progress_event e); reflexivity.
Qed.

Lemma progress_events_arrive (env : Env) (p : AwaitPoint) (st : State) :
  progress_events (arrive env p st) = progress_events st.
Proof. unfold progress_events, arrive. destruct (cancel_during env p); reflexivity. Qed.

Lemma context_record (e : Event) (st : State) : context (record e st) = context st.
Proof. reflexivity. Qed.

Lemma progress_target_arrive (env : Env) (p : AwaitPoint) (st : State)
    (progressReporter : bool) :
  progress_target (context (arrive env p st)) progressReporter
  = progress_target (context st) progressReporter.
Proof.
  apply progress_target_evolves. apply context_frame_arrive.
Qed.

Ltac trace_simpl :=
  repeat first [ rewrite progress_events_record | rewrite progress_events_arrive
               | rewrite context_record | rewrite progress_target_arrive ].

(** A tracked call that succeeds emits four progress events on its token:
    the report of the start, the two callbacks of the endpoint method
    around the request, and the report of the completion, with progress
    0, 0, 100 and 100. *)
Theorem executeTool_progress_sequence (env : Env) (name : string) (m : ClientMethod)
    (o : Params) (st : State) (ctx : RequestContext) (token : ProgressToken)
    (x : Extracted) (data : JsValue) :
  switch_on switch_cases name = Some m ->
  context st = Some ctx ->
  aborted (signal (abortController ctx)) = false ->
  progressToken ctx = Some token ->
  token_truthy token = true ->
  fst (extract (endpoint_of m) (ArgsObject o) st) = inl x ->
  http_reply env (build_request (endpoint_of m) x (make_requestOptions (context st) true))
    = Resolved data ->
  is_defined data = true ->
  progress_events (snd (executeTool env (AirtableClient env) name (ArgsObject o) true st))
  = progress_events st
    ++ [EvReport token (start_progress m);
        EvCallback token
          (progress_of 0 ("Starting " +:+ ep_name (endpoint_of m) +:+ " request..."));
        EvCallback token
          (progress_of 100 ("Completed " +:+ ep_name (endpoint_of m) +:+ " request"));
        EvReport token (done_progress m)] /\
  map (fun e => match e with
                | EvReport _ p | EvCallback _ p => progress p
                | _ => 0%Z
                end)
      [EvReport token (start_progress m);
       EvCallback token
         (progress_of 0 ("Starting " +:+ ep_name (endpoint_of m) +:+ " request..."));
       EvCallback token
         (progress_of 100 ("Completed " +:+ ep_name (endpoint_of m) +:+ " request"));
       EvReport token (done_progress m)]
  = [0; 0; 100; 100]%Z.
Proof.
  intros Hsw Hctx Hlive Htok Htruthy Hx Hreply Hdata.
  split; [|reflexivity].
  pose proof (progress_target_truthy ctx token Htok Htruthy) as Htarget.
  rewrite (executeTool_supported _ _ _ m); [|exact Hsw|rewrite Hctx; exact Hlive].
  unfold AirtableClient.
  rewrite (call_endpoint_object env _ o _ _ x)
    by (rewrite (extract_any_state _ _ st); exact Hx).
  cbv zeta. rewrite Hreply, Hdata.
  assert (Hopt : onProgress (make_requestOptions (context st) true) = Some token).
  { unfold make_requestOptions. cbn [onProgress]. rewrite Hctx. exact Htarget. }
  rewrite Hopt. rewrite after_handler_run. cbn [snd].
  rewrite state_at_handler_eq. cbv zeta. rewrite Hctx, Htarget.
  trace_simpl. cbn [context]. rewrite Htarget.
  trace_simpl. cbn [is_progress_event].
  rewrite !app_nil_r, <- !app_assoc. cbn [app].
  unfold progress_events. cbn [events].
  rewrite List.filter_app. cbn [List.filter is_progress_event app].
  rewrite List.filter_app. cbn [List.filter is_progress_event app].
  replace (List.filter is_progress_event (init_events (initialized st))) with (@nil Event)
    by (destruct (initialized st); reflexivity).
  rewrite !app_nil_r. reflexivity.
Qed.

(** Handed to the correlator, the progress events of a trace reach the
    transport in the order of the trace. *)
Lemma emissions_delivered_in_order (token : ProgressToken) (trace : list Event)
    (c : ProgressCorrelator.t) :
  token ∈ ProgressCorrelator.channels c ->
  forallb (fun e => match e with
                    | EvReport t _ | EvCallback t _ => bool_decide (t = token)
                    | _ => true
                    end) trace = true ->
  ProgressCorrelator.transport
    (ProgressCorrelator.run (ProgressCorrelator.emissions trace) c)
  = ProgressCorrelator.transport c
    ++ flat_map (fun e => match e with
                          | EvReport t p | EvCallback t p =>
                              [ {| ProgressCorrelator.n_token := t;
                                   ProgressCorrelator.n_progress := p |} ]
                          | _ => []
                          end) trace.
Proof.
  revert c. induction trace as [|e trace IH]; intros c Hin Hall.
  - cbn. rewrite app_nil_r. reflexivity.
  - cbn [forallb] in Hall. apply andb_true_iff in Hall as [He Hall].
    assert (Hstep : forall p,
               ProgressCorrelator.emit token p c
               = {| ProgressCorrelator.channels := ProgressCorrelator.channels c;
                    ProgressCorrelator.transport :=
                      ProgressCorrelator.transport c
                      ++ [ {| ProgressCorrelator.n_token := token;
                              ProgressCorrelator.n_progress := p |} ] |}).
    { intros p. unfold ProgressCorrelator.emit.
      destruct (decide (token ∈ ProgressCorrelator.channels c)); [reflexivity|contradiction]. }
    destruct e as [l|t p|t p|m|req];
      cbn [ProgressCorrelator.emissions flat_map app];
      try (apply IH; assumption).
    + apply bool_decide_eq_true in He. subst t.
      unfold ProgressCorrelator.run. cbn [fold_left ProgressCorrelator.step].
      rewrite Hstep.
      change (fold_left ProgressCorrelator.step ?l ?c) with (ProgressCorrelator.run l c).
      rewrite IH by assumption.
      cbn [ProgressCorrelator.transport]. rewrite <- app_assoc. reflexivity.
    + apply bool_decide_eq_true in He. subst t.
      unfold ProgressCorrelator.run. cbn [fold_left ProgressCorrelator.step].
      rewrite Hstep.
      change (fold_left ProgressCorrelator.step ?l ?c) with (ProgressCorrelator.run l c).
      rewrite IH by assumption.
      cbn [ProgressCorrelator.transport]. rewrite <- app_assoc. reflexivity.
Qed.
(** ** Where the arguments of a call end up *)

Lemma own_param_set_param (p : Params) (k k' : string) (v : JsValue) :
  own_param (set_param p k v) k' = if String.eqb k k' then Some v else own_param p k'.
Proof.
  induction p as [|[k0 v0] p IH]; cbn [set_param own_param].
  - reflexivity.
  - destruct (String.eqb k0 k) eqn:E0; cbn [own_param].
    + apply String.eqb_eq in E0. subst k0.
      destruct (String.eqb k k'); reflexivity.
    + destruct (String.eqb k0 k') eqn:E1.
      * apply String.eqb_eq in E1. subst k0.
        rewrite String.eqb_sym, E0. reflexivity.
      * exact IH.
Qed.

Lemma get_param_own_param (p : Params) (k : string) :
  get_param p k = match own_param p k with Some v => v | None => JUndefined end.
Proof.
  induction p as [|[k0 v0] p IH]; cbn [get_param own_param]; [reflexivity|].
  destruct (String.eqb k0 k); [reflexivity | exact IH].
Qed.


Lemma own_param_defined (p : Params) (k : string) :
  is_defined (get_param p k) = true -> own_param p k = Some (get_param p k).
Proof.
  rewrite get_param_own_param. destruct (own_param p k); [reflexivity | discriminate].
Qed.

Lemma own_param_In (p : Params) (k : string) (v : JsValue) :
  own_param p k = Some v -> In (k, v) p.
Proof.
  induction p as [|[k0 v0] p IH]; cbn [own_param]; [discriminate|].
  destruct (String.eqb k0 k) eqn:E.
  - apply String.eqb_eq in E. intros [= ->]. subst. left. reflexivity.
  - intros H. right. exact (IH H).
Qed.

Lemma own_param_None (p : Params) (k : string) :
  own_param p k = None <-> ~ In k (map fst p).
Proof.
  induction p as [|[k0 v0] p IH]; cbn [own_param map fst In]; [tauto|].
  destruct (String.eqb k0 k) eqn:E.
  - apply String.eqb_eq in E. split; [discriminate | intros H; exfalso; apply H; left; exact E].
  - apply String.eqb_neq in E. rewrite IH. tauto.
Qed.

Lemma set_param_not_nil (p : Params) (k : string) (v : JsValue) : set_param p k v <> [].
Proof. destruct p as [|[k0 v0] p]; cbn [set_param]; [|destruct (String.eqb k0 k)]; discriminate. Qed.

(** *** The loops of the separation, on an object *)

Lemma foldM_pointwise {A B} (f g : A -> B -> M A) (l : list B) :
  (forall a b s, In b l -> f a b s = g a b s) ->
  forall a s, foldM f l a s = foldM g l a s.
Proof.
  induction l as [|b l IH]; intros Hfg a s; cbn [foldM]; [reflexivity|].
  unfold bind. rewrite (Hfg a b s) by (left; reflexivity).
  destruct (g a b s) as [[a'|e] s']; [|reflexivity].
  apply IH. intros a0 b0 s0 Hin. apply Hfg. right. exact Hin.
Qed.

(** The lookups for the path and for the parameter named by the empty
    string read nothing else of the arguments. *)
Lemma extract_lookups_agree (ep : Endpoint) (o o' : Params) (x : Extracted) (s : State) :
  (forall k, In k (path_keys ep) -> get_param o k = get_param o' k) ->
  get_param o "" = get_param o' "" ->
  (x1 <- foldM (extract_google (ArgsObject o)) (google_matches (ep_path ep)) x ;;
   x2 <- foldM (extract_standard (ArgsObject o)) (standard_matches (ep_path ep)) x1 ;;
   foldM (extract_blank (ArgsObject o)) (ep_blank ep) x2) s
  = (x1 <- foldM (extract_google (ArgsObject o')) (google_matches (ep_path ep)) x ;;
     x2 <- foldM (extract_standard (ArgsObject o')) (standard_matches (ep_path ep)) x1 ;;
     foldM (extract_blank (ArgsObject o')) (ep_blank ep) x2) s.
Proof.
  intros Hkeys Hblank. unfold path_keys in Hkeys.
  unfold bind.
  rewrite (foldM_pointwise (extract_google (ArgsObject o)) (extract_google (ArgsObject o'))).
  2:{ intros a [full name] s0 Hin. unfold extract_google, read, bind. cbn [snd].
      rewrite (Hkeys name); [reflexivity|].
      apply in_app_iff. left. apply (in_map snd _ _ Hin). }
  destruct (foldM (extract_google (ArgsObject o')) _ x s) as [[x1|e] s1]; [|reflexivity].
  rewrite (foldM_pointwise (extract_standard (ArgsObject o)) (extract_standard (ArgsObject o'))).
  2:{ intros a [full name] s0 Hin. unfold extract_standard, read, bind. cbn [snd].
      rewrite (Hkeys name); [reflexivity|].
      apply in_app_iff. right. apply (in_map snd _ _ Hin). }
  destruct (foldM (extract_standard (ArgsObject o')) _ x1 s1) as [[x2|e] s2]; [|reflexivity].
  apply foldM_pointwise.
  intros a slot s0 _. unfold extract_blank, read, bind. rewrite Hblank. reflexivity.
Qed.

(** The loop that sends what is left to the body touches the body
    only. *)
Lemma extract_rest_frame (l : Params) (x : Extracted) (s : State) :
  exists x', foldM extract_rest l x s = (inl x', s) /\
             pathParams x' = pathParams x /\
             queryParams x' = queryParams x /\
             extractedParams x' = extractedParams x.
Proof.
  revert x. induction l as [|[k v] l IH]; intros x; cbn [foldM].
  - exists x. repeat split.
  - unfold bind, extract_rest.
    destruct (includes_str (extractedParams x) k); unfold ret.
    + apply IH.
    + destruct (IH {| pathParams := pathParams x; queryParams := queryParams x;
                      bodyParams := set_param (bodyParams x) k v;
                      extractedParams := extractedParams x |}) as (x' & Hrun & Hp & Hq & He).
      exists x'. repeat split; assumption.
Qed.

Lemma includes_str_app (l : list string) (x y : string) :
  includes_str (l ++ [y]) x = includes_str l x || String.eqb y x.
Proof.
  induction l as [|z l IH]; cbn [app includes_str].
  - apply orb_false_r.
  - rewrite IH. apply orb_assoc.
Qed.

(** The names a regular expression of the path matches are not empty. *)
Lemma regex_matches_from_names (match_at : string -> option (string * string))
    (skip : nat) (s : string) (full name : string) :
  (forall t f n, match_at t = Some (f, n) -> n <> "") ->
  In (full, name) (regex_matches_from match_at skip s) -> name <> "".
Proof.
  intros Hat. revert skip. induction s as [|c s IH]; intros skip; cbn [regex_matches_from].
  - intros [].
  - destruct skip as [|k]; [|apply IH].
    destruct (match_at (String c s)) as [[f n]|] eqn:E; [|apply IH].
    intros [Heq|Hin]; [|exact (IH _ Hin)].
    injection Heq as <- <-. exact (Hat _ _ _ E).
Qed.

Lemma google_match_at_name (t f n : string) : google_match_at t = Some (f, n) -> n <> "".
Proof.
  unfold google_match_at. destruct t as [|c t]; [discriminate|].
  destruct (Ascii.eqb c "{") eqn:Ec.
  2:{ destruct c as [[] [] [] [] [] [] [] []]; try discriminate Ec; discriminate. }
  apply Ascii.eqb_eq in Ec. subst c.
  destruct (span_until is_close_or_eq t) as [name after_name].
  destruct name as [|a name]; [discriminate|].
  destruct after_name as [|b rest2]; [discriminate|].
  destruct (Ascii.eqb b "=") eqn:Eb.
  2:{ destruct b as [[] [] [] [] [] [] [] []]; try discriminate Eb; discriminate. }
  apply Ascii.eqb_eq in Eb. subst b.
  destruct (span_until is_close rest2) as [pat after_pat].
  destruct after_pat as [|d rest3]; [discriminate|].
  destruct d as [[] [] [] [] [] [] [] []]; try discriminate.
  intros [= <- <-]. discriminate.
Qed.

Lemma standard_match_at_name (t f n : string) : standard_match_at t = Some (f, n) -> n <> "".
Proof.
  unfold standard_match_at. destruct t as [|c t]; [discriminate|].
  destruct c as [[] [] [] [] [] [] [] []]; try discriminate.
  destruct (span_until is_close_or_eq t) as [name after_name].
  destruct name as [|a name]; [discriminate|].
  destruct after_name as [|b rest2]; [discriminate|].
  destruct b as [[] [] [] [] [] [] [] []]; try discriminate.
  intros [= <- <-]. discriminate.
Qed.

(** No placeholder is named by the empty string. *)
Lemma path_keys_not_blank (ep : Endpoint) : ~ In "" (path_keys ep).
Proof.
  unfold path_keys. intros [H|H]%in_app_iff; apply in_map_iff in H as ([full name] & Hn & Hin);
    cbn [snd] in Hn; subst name.
  - exact (regex_matches_from_names _ _ _ _ _ google_match_at_name Hin eq_refl).
  - exact (regex_matches_from_names _ _ _ _ _ standard_match_at_name Hin eq_refl).
Qed.

Lemma path_lookup_inv_start (o : Params) : path_lookup_inv o no_params.
Proof.
  unfold path_lookup_inv, no_params. cbn.
  repeat split; try discriminate; try tauto.
Qed.

(** Adding a path parameter keeps the invariant. *)
Lemma path_lookup_inv_add (o : Params) (x : Extracted) (name : string) (v : JsValue) :
  path_lookup_inv o x ->
  (v = get_param o name /\ is_defined v = true) \/
  (name = "userId" /\ v = JStr "me" /\ is_defined (get_param o name) = false) ->
  path_lookup_inv o (add_path x name v).
Proof.
  intros (Hext & Hval & Hq & Hb) Hv. unfold path_lookup_inv, add_path. cbn.
  repeat split; try assumption.
  - rewrite includes_str_app, own_param_set_param.
    destruct (String.eqb name k); [discriminate|].
    rewrite orb_false_r. apply Hext.
  - rewrite includes_str_app, own_param_set_param.
    destruct (String.eqb name k); [intros _; apply orb_true_r|].
    rewrite orb_false_r. apply Hext.
  - intros k w. rewrite own_param_set_param.
    destruct (String.eqb name k) eqn:E; [|apply Hval].
    apply String.eqb_eq in E. subst k. intros [= <-]. exact Hv.
Qed.

(** A turn that leaves the locals as they are. *)
Lemma path_turn_same (o : Params) (x : Extracted) (name : string) (s : State) (G : Prop)
    (run : (Extracted + JsError) * State) :
  run = (inl x, s) ->
  path_lookup_inv o x ->
  (G -> is_defined (get_param o name) = true ->
   own_param (pathParams x) name = Some (get_param o name)) ->
  exists x', run = (inl x', s) /\
    path_lookup_inv o x' /\
    (forall k, own_param (pathParams x') k <> None ->
               own_param (pathParams x) k <> None \/ k = name) /\
    (forall k, own_param (pathParams x) k = Some (get_param o k) ->
               own_param (pathParams x') k = Some (get_param o k)) /\
    (forall k, own_param (pathParams x) k <> None -> own_param (pathParams x') k <> None) /\
    (G -> is_defined (get_param o name) = true ->
     own_param (pathParams x') name = Some (get_param o name)).
Proof.
  intros -> Hinv Hnew. exists x.
  split; [reflexivity|]. split; [exact Hinv|].
  split; [intros k Hk; left; exact Hk|].
  split; [intros k Hk; exact Hk|].
  split; [intros k Hk; exact Hk | exact Hnew].
Qed.

(** A turn that adds a path parameter not extracted before, or gives one
    the value of the arguments again. *)
Lemma path_turn_add (o : Params) (x : Extracted) (name : string) (v : JsValue)
    (s : State) (G : Prop) (run : (Extracted + JsError) * State) :
  run = (inl (add_path x name v), s) ->
  path_lookup_inv o x ->
  (v = get_param o name /\ is_defined v = true) \/
  (name = "userId" /\ v = JStr "me" /\ is_defined (get_param o name) = false /\
   includes_str (extractedParams x) name = false) ->
  exists x', run = (inl x', s) /\
    path_lookup_inv o x' /\
    (forall k, own_param (pathParams x') k <> None ->
               own_param (pathParams x) k <> None \/ k = name) /\
    (forall k, own_param (pathParams x) k = Some (get_param o k) ->
               own_param (pathParams x') k = Some (get_param o k)) /\
    (forall k, own_param (pathParams x) k <> None -> own_param (pathParams x') k <> None) /\
    (G -> is_defined (get_param o name) = true ->
     own_param (pathParams x') name = Some (get_param o name)).
Proof.
  intros -> Hinv Hv. exists (add_path x name v).
  split; [reflexivity|].
  split.
  { apply path_lookup_inv_add; [exact Hinv|].
    destruct Hv as [Hv|(H1 & H2 & H3 & _)]; [left; exact Hv | right; auto]. }
  unfold add_path. cbn [pathParams].
  split; [|split; [|split]].
  - intros k. rewrite own_param_set_param.
    destruct (String.eqb name k) eqn:E; [apply String.eqb_eq in E; auto | auto].
  - intros k. rewrite own_param_set_param.
    destruct (String.eqb name k) eqn:E; [|auto].
    apply String.eqb_eq in E. subst k. intros Hold.
    destruct Hv as [[-> _]|(_ & _ & _ & Hfresh)]; [reflexivity|].
    destruct Hinv as (Hext & _).
    apply includes_str_false in Hfresh. exfalso. apply Hfresh.
    apply includes_str_In, Hext. congruence.
  - intros k. rewrite own_param_set_param.
    destruct (String.eqb name k); [discriminate | auto].
  - intros _ Hdef. rewrite own_param_set_param, String.eqb_refl.
    destruct Hv as [[-> _]|(_ & _ & Hundef & _)]; [reflexivity | congruence].
Qed.

Lemma is_defined_cases (v : JsValue) : is_defined v = true \/ is_defined v = false.
Proof. destruct (is_defined v); auto. Qed.

Lemma path_turn_google (o : Params) :
  path_turn o (fun name => name <> "") (extract_google (ArgsObject o)).
Proof.
  intros x [full name] s Hinv. cbn [snd].
  destruct (String.eqb name "") eqn:Eblank.
  { apply (path_turn_same o x name s).
    - unfold extract_google. cbn [snd]. rewrite Eblank. reflexivity.
    - exact Hinv.
    - apply String.eqb_eq in Eblank. intros Hgood. exfalso. exact (Hgood Eblank). }
  destruct (is_defined_cases (get_param o name)) as [Edef|Edef].
  - apply (path_turn_add o x name (get_param o name) s).
    + unfold extract_google, read, bind, ret. cbn [snd]. rewrite Eblank, Edef. reflexivity.
    + exact Hinv.
    + left. split; [reflexivity | exact Edef].
  - apply (path_turn_same o x name s).
    + unfold extract_google, read, bind, ret. cbn [snd]. rewrite Eblank, Edef. reflexivity.
    + exact Hinv.
    + intros _ H. congruence.
Qed.

Lemma path_turn_standard (o : Params) :
  path_turn o (fun _ => True) (extract_standard (ArgsObject o)).
Proof.
  intros x [full name] s Hinv. cbn [snd].
  destruct (includes_str (extractedParams x) name) eqn:Einc.
  { apply (path_turn_same o x name s).
    - unfold extract_standard. cbn [snd]. rewrite Einc. reflexivity.
    - exact Hinv.
    - intros _ Hdef.
      destruct Hinv as (Hext & Hval & _).
      apply Hext in Einc.
      destruct (own_param (pathParams x) name) as [v|] eqn:Ev; [|contradiction].
      destruct (Hval _ _ Ev) as [[-> _]|(_ & _ & Hundef)]; [reflexivity | congruence]. }
  destruct (is_defined_cases (get_param o name)) as [Edef|Edef].
  - apply (path_turn_add o x name (get_param o name) s).
    + unfold extract_standard, read, bind, ret. cbn [snd]. rewrite Einc, Edef. reflexivity.
    + exact Hinv.
    + left. split; [reflexivity | exact Edef].
  - destruct (String.eqb name "userId") eqn:Euser.
    + apply (path_turn_add o x name (JStr "me") s).
      * unfold extract_standard, read, bind, ret. cbn [snd].
        rewrite Einc, Edef, Euser. reflexivity.
      * exact Hinv.
      * apply String.eqb_eq in Euser. right. auto.
    + apply (path_turn_same o x name s).
      * unfold extract_standard, read, bind, ret. cbn [snd].
        rewrite Einc, Edef, Euser. reflexivity.
      * exact Hinv.
      * intros _ H. congruence.
Qed.

(** A loop over the placeholders, turn after turn. *)
Lemma path_loop (o : Params) (good : string -> Prop)
    (f : Extracted -> string * string -> M Extracted) (ms : list (string * string)) :
  path_turn o good f ->
  forall x s, path_lookup_inv o x ->
    exists x', foldM f ms x s = (inl x', s) /\
      path_lookup_inv o x' /\
      (forall k, own_param (pathParams x') k <> None ->
                 own_param (pathParams x) k <> None \/ In k (map snd ms)) /\
      (forall k, own_param (pathParams x) k = Some (get_param o k) ->
                 own_param (pathParams x') k = Some (get_param o k)) /\
      (forall k, own_param (pathParams x) k <> None -> own_param (pathParams x') k <> None) /\
      (forall k, In k (map snd ms) -> good k -> is_defined (get_param o k) = true ->
                 own_param (pathParams x') k = Some (get_param o k)).
Proof.
  intros Hturn. induction ms as [|m ms IH]; intros x s Hinv; cbn [foldM map In].
  - exists x. split; [reflexivity|]. split; [exact Hinv|].
    split; [intros k Hk; left; exact Hk|].
    split; [intros k Hk; exact Hk|].
    split; [intros k Hk; exact Hk | intros k []].
  - unfold bind.
    destruct (Hturn x m s Hinv) as (x1 & Hrun1 & Hinv1 & Hfrom1 & Hkeep1 & Hstay1 & Hnew1).
    rewrite Hrun1.
    destruct (IH x1 s Hinv1) as (x' & Hrun & Hinv' & Hfrom & Hkeep & Hstay & Hnew).
    exists x'. split; [exact Hrun|]. split; [exact Hinv'|].
    split; [|split; [|split]].
    + intros k Hk. destruct (Hfrom k Hk) as [H1|Hin]; [|auto].
      destruct (Hfrom1 k H1) as [H0 | Heq]; [auto | subst k; auto].
    + intros k Hk. auto.
    + intros k Hk. auto.
    + intros k [Heq | Hin] Hgood Hdef; [subst k; auto | auto].
Qed.

(** The two loops over the placeholders: the path parameters are the
    placeholders of the template that the arguments define. *)
Lemma extract_path_loops (ep : Endpoint) (o : Params) (s : State) :
  exists x2,
    (x1 <- foldM (extract_google (ArgsObject o)) (google_matches (ep_path ep)) no_params ;;
     foldM (extract_standard (ArgsObject o)) (standard_matches (ep_path ep)) x1) s
    = (inl x2, s) /\
    path_lookup_inv o x2 /\
    (forall k, own_param (pathParams x2) k <> None -> In k (path_keys ep)) /\
    (forall k, In k (path_keys ep) -> is_defined (get_param o k) = true ->
               own_param (pathParams x2) k = Some (get_param o k)).
Proof.
  destruct (path_loop o _ _ (google_matches (ep_path ep)) (path_turn_google o)
              no_params s (path_lookup_inv_start o))
    as (x1 & Hrun1 & Hinv1 & Hfrom1 & _ & _ & Hnew1).
  destruct (path_loop o _ _ (standard_matches (ep_path ep)) (path_turn_standard o)
              x1 s Hinv1)
    as (x2 & Hrun2 & Hinv2 & Hfrom2 & Hkeep2 & _ & Hnew2).
  exists x2. unfold bind. rewrite Hrun1, Hrun2.
  split; [reflexivity|]. split; [exact Hinv2|].
  unfold path_keys. split.
  - intros k Hk. apply in_app_iff.
    destruct (Hfrom2 k Hk) as [H1|Hin]; [|right; exact Hin].
    destruct (Hfrom1 k H1) as [H0|Hin]; [|left; exact Hin].
    exfalso. apply H0. reflexivity.
  - intros k Hin Hdef. apply in_app_iff in Hin as [Hin|Hin].
    + apply Hkeep2, Hnew1; [exact Hin| |exact Hdef].
      intros ->. apply (path_keys_not_blank ep).
      unfold path_keys. apply in_app_iff. left. exact Hin.
    + apply Hnew2; [exact Hin | exact I | exact Hdef].
Qed.

Lemma set_param_In (p : Params) (k k' : string) (v v' : JsValue) :
  In (k', v') (set_param p k v) -> (k' = k /\ v' = v) \/ In (k', v') p.
Proof.
  induction p as [|[k0 v0] p IH]; cbn [set_param].
  - intros [[= <- <-]|[]]. left. split; reflexivity.
  - destruct (String.eqb k0 k).
    + intros [[= <- <-]|Hin]; [left; split; reflexivity | right; right; exact Hin].
    + intros [Heq|Hin]; [right; left; exact Heq|].
      destruct (IH Hin) as [H|H]; [left; exact H | right; right; exact H].
Qed.

Lemma extract_blank_object (o : Params) (x : Extracted) (slot : BlankSlot) (s : State) :
  extract_blank (ArgsObject o) x slot s =
    (inl (if is_defined (get_param o "") then
            match slot with
            | QueryRaw => add_query x "" (get_param o "")
            | QueryJoined =>
                add_query x "" (match get_param o "" with
                                | JArr _ => JStr (JsString (get_param o ""))
                                | _ => get_param o ""
                                end)
            | BodyRaw => add_body x "" (get_param o "")
            end
          else x), s).
Proof.
  unfold extract_blank, read, bind, ret.
  destruct (is_defined (get_param o "")); [destruct slot|]; reflexivity.
Qed.

(** The blocks on the parameter named by the empty string leave the path
    parameters alone and put nothing under another name. *)
Lemma extract_blank_loop (o : Params) (slots : list BlankSlot) (x : Extracted) (s : State) :
  exists x3,
    foldM (extract_blank (ArgsObject o)) slots x s = (inl x3, s) /\
    pathParams x3 = pathParams x /\
    (forall k v, In (k, v) (queryParams x3) -> k = "" \/ In (k, v) (queryParams x)).
Proof.
  revert x. induction slots as [|slot slots IH]; intros x; cbn [foldM].
  - exists x. split; [reflexivity|]. split; [reflexivity|]. intros k v H. right. exact H.
  - unfold bind. rewrite extract_blank_object.
    destruct (is_defined (get_param o "")); [|apply IH].
    assert (Hq : forall v0, exists x3,
               foldM (extract_blank (ArgsObject o)) slots (add_query x "" v0) s = (inl x3, s) /\
               pathParams x3 = pathParams x /\
               (forall k v, In (k, v) (queryParams x3) -> k = "" \/ In (k, v) (queryParams x))).
    { intros v0. destruct (IH (add_query x "" v0)) as (x3 & Hrun & Hp & Hq).
      exists x3. split; [exact Hrun|]. split; [exact Hp|].
      intros k v Hin. destruct (Hq k v Hin) as [H|H]; [left; exact H|].
      unfold add_query in H. cbn [queryParams] in H.
      apply set_param_In in H as [[-> _]|H]; [left; reflexivity | right; exact H]. }
    destruct slot; [apply Hq | apply Hq |].
    destruct (IH (add_body x "" (get_param o ""))) as (x3 & Hrun & Hp & Hq').
    exists x3. split; [exact Hrun|]. split; [exact Hp | exact Hq'].
Qed.

(** The separation of the parameters of an object: the path parameters
    are those the template names and the arguments define, and the query
    holds at most the parameter named by the empty string. *)
Lemma extract_object_path (ep : Endpoint) (o : Params) (s : State) :
  exists x,
    extract ep (ArgsObject o) s = (inl x, s) /\
    (forall k, own_param (pathParams x) k <> None -> In k (path_keys ep)) /\
    (forall k v, own_param (pathParams x) k = Some v ->
       (v = get_param o k /\ is_defined v = true) \/
       (k = "userId" /\ v = JStr "me" /\ is_defined (get_param o k) = false)) /\
    (forall k, In k (path_keys ep) -> is_defined (get_param o k) = true ->
               own_param (pathParams x) k = Some (get_param o k)) /\
    (forall k v, In (k, v) (queryParams x) -> k = "").
Proof.
  destruct (extract_path_loops ep o s) as (x2 & Hrun2 & Hinv2 & Hfrom & Hnew).
  destruct (extract_blank_loop o (ep_blank ep) x2 s) as (x3 & Hrun3 & Hp3 & Hq3).
  destruct (extract_rest_frame o x3 s) as (x & Hrun & Hp & Hq & _).
  exists x. split.
  { unfold extract. unfold bind in *.
    destruct (foldM (extract_google (ArgsObject o)) _ no_params s) as [[x1|e] s1];
      [|discriminate Hrun2].
    rewrite Hrun2, Hrun3. cbn [entries ret]. exact Hrun. }
  rewrite Hp, Hp3, Hq.
  destruct Hinv2 as (_ & Hval & Hq2 & _).
  split; [exact Hfrom|]. split; [exact Hval|]. split; [exact Hnew|].
  intros k v Hin. destruct (Hq3 k v Hin) as [H|H]; [exact H|].
  rewrite Hq2 in H. destruct H.
Qed.

Lemma extract_object_phases (ep : Endpoint) (o : Params) (s : State) :
  extract ep (ArgsObject o) s =
    match (x1 <- foldM (extract_google (ArgsObject o)) (google_matches (ep_path ep)) no_params ;;
           x2 <- foldM (extract_standard (ArgsObject o)) (standard_matches (ep_path ep)) x1 ;;
           foldM (extract_blank (ArgsObject o)) (ep_blank ep) x2) s with
    | (inl x3, s') => foldM extract_rest o x3 s'
    | (inr e, s') => (inr e, s')
    end.
Proof.
  unfold extract, bind.
  destruct (foldM (extract_google (ArgsObject o)) _ no_params s) as [[x1|e] s1]; [|reflexivity].
  destruct (foldM (extract_standard (ArgsObject o)) _ x1 s1) as [[x2|e] s2]; [|reflexivity].
  destruct (foldM (extract_blank (ArgsObject o)) _ x2 s2) as [[x3|e] s3]; reflexivity.
Qed.

(** Two objects that agree on the placeholders of the path and on the
    parameter named by the empty string give the same path parameters and
    the same query. *)
Lemma extract_agree (ep : Endpoint) (o o' : Params) (s : State) (x x' : Extracted) :
  (forall k, In k (path_keys ep) -> get_param o k = get_param o' k) ->
  get_param o "" = get_param o' "" ->
  extract ep (ArgsObject o) s = (inl x, s) ->
  extract ep (ArgsObject o') s = (inl x', s) ->
  pathParams x = pathParams x' /\ queryParams x = queryParams x'.
Proof.
  intros Hkeys Hblank. rewrite !extract_object_phases.
  rewrite (extract_lookups_agree ep o o' no_params s Hkeys Hblank).
  destruct ((x1 <- foldM (extract_google (ArgsObject o')) _ no_params ;; _) s)
    as [[x3|e] s3]; [|discriminate].
  destruct (extract_rest_frame o x3 s3) as (y & Hy & Hp & Hq & _).
  destruct (extract_rest_frame o' x3 s3) as (y' & Hy' & Hp' & Hq' & _).
  rewrite Hy, Hy'. intros [= <- _] [= <-]. split; congruence.
Qed.

(** Requests without a body.  An endpoint method of verb GET or DELETE
    reads, of the object of its arguments, the placeholders of its path and
    the parameter named by the empty string, and nothing else: two objects
    that agree on these give the same request and the same outcome.  The
    request has no body, and its query holds at most an entry under the
    empty name; every other argument is dropped. *)
Theorem bodyless_endpoint_drops_other_arguments (env : Env) (ep : Endpoint)
    (o o' : Params) (options : RequestOptions) (st : State) :
  has_body (ep_verb ep) = false ->
  (forall k, In k (path_keys ep) -> get_param o k = get_param o' k) ->
  get_param o "" = get_param o' "" ->
  exists x x',
    fst (extract ep (ArgsObject o) st) = inl x /\
    fst (extract ep (ArgsObject o') st) = inl x' /\
    build_request ep x options = build_request ep x' options /\
    body (build_request ep x options) = None /\
    (forall k v, In (k, v) (query (build_request ep x options)) -> k = "") /\
    fst (call_endpoint env ep (ArgsObject o) options st)
    = fst (call_endpoint env ep (ArgsObject o') options st).
Proof.
  intros Hverb Hkeys Hblank.
  destruct (extract_object_path ep o st) as (x & Hx & _ & _ & _ & Hq).
  destruct (extract_object_path ep o' st) as (x' & Hx' & _).
  destruct (extract_agree ep o o' st x x' Hkeys Hblank Hx Hx') as [Hp Hqq].
  assert (Hreq : build_request ep x options = build_request ep x' options).
  { unfold build_request. rewrite Hverb, Hp, Hqq. reflexivity. }
  exists x, x'.
  split; [rewrite Hx; reflexivity|]. split; [rewrite Hx'; reflexivity|].
  split; [exact Hreq|].
  split; [unfold build_request; cbn [body]; rewrite Hverb; reflexivity|].
  split; [exact Hq|].
  rewrite (call_endpoint_object env ep o options st x) by (rewrite Hx; reflexivity).
  rewrite (call_endpoint_object env ep o' options st x') by (rewrite Hx'; reflexivity).
  cbv zeta. rewrite Hreq. reflexivity.
Qed.

(** With the filter, the page size and the view that its schema declares,
    "list_records" issues the request it issues without them. *)
Lemma bodyless_endpoint_drops_other_arguments_example :
  exists x x',
    fst (extract (endpoint_of listRecords)
           (ArgsObject [("base_id", JStr "appX"); ("table_id_or_name", JStr "Tasks");
                        ("filterByFormula", JStr "{Done}"); ("maxRecords", JNum 3);
                        ("view", JStr "Grid")])
           (sample_state None)) = inl x /\
    fst (extract (endpoint_of listRecords)
           (ArgsObject [("base_id", JStr "appX"); ("table_id_or_name", JStr "Tasks")])
           (sample_state None)) = inl x' /\
    build_request (endpoint_of listRecords) x {| opt_signal := false; onProgress := None |}
    = build_request (endpoint_of listRecords) x' {| opt_signal := false; onProgress := None |} /\
    body (build_request (endpoint_of listRecords) x
            {| opt_signal := false; onProgress := None |}) = None /\
    (forall k v,
        In (k, v) (query (build_request (endpoint_of listRecords) x
                            {| opt_signal := false; onProgress := None |})) -> k = "") /\
    fst (call_endpoint (sample_env (Resolved (JObj [])) false) (endpoint_of listRecords)
           (ArgsObject [("base_id", JStr "appX"); ("table_id_or_name", JStr "Tasks");
                        ("filterByFormula", JStr "{Done}"); ("maxRecords", JNum 3);
                        ("view", JStr "Grid")])
           {| opt_signal := false; onProgress := None |} (sample_state None))
    = fst (call_endpoint (sample_env (Resolved (JObj [])) false) (endpoint_of listRecords)
             (ArgsObject [("base_id", JStr "appX"); ("table_id_or_name", JStr "Tasks")])
             {| opt_signal := false; onProgress := None |} (sample_state None)).
Proof.
  apply (bodyless_endpoint_drops_other_arguments
           (sample_env (Resolved (JObj [])) false) (endpoint_of listRecords)).
  - reflexivity.
  - intros k Hin. vm_compute in Hin.
    destruct Hin as [<-|[<-|[]]]; reflexivity.
  - reflexivity.
Defined.





(** ** The path of a request, for arguments that the schema accepts *)

#[local] Arguments String.append : simpl nomatch.

Lemma str_length_app (a b : string) :
  String.length (a +:+ b) = String.length a + String.length b.
Proof.
  induction a as [|c a IH]; cbn [String.append String.length]; [reflexivity|].
  rewrite IH. reflexivity.
Qed.

#[local] Arguments String.append : simpl never.

Lemma path_char_brace_free (c : ascii) :
  path_char c = true -> not_open c && not_close c = true.
Proof.
  destruct c as [[] [] [] [] [] [] [] []]; vm_compute; intros H;
    first [discriminate H | reflexivity].
Qed.

(** An encoded path component holds no brace. *)
Lemma encodePathComponent_brace_free (value : string) :
  brace_free (encodePathComponent value) = true.
Proof.
  eapply all_chars_weaken; [|apply encodePathComponent_chars].
  exact path_char_brace_free.
Qed.

Lemma fill_ext (p p' : Params) (segs : list Segment) :
  (forall k, In k (holes segs) -> own_param p k = own_param p' k) ->
  fill p segs = fill p' segs.
Proof.
  induction segs as [|[text|key] segs IH]; cbn [fill fill_segment holes In]; intros H.
  - reflexivity.
  - rewrite IH by exact H. reflexivity.
  - rewrite (H key) by (left; reflexivity).
    rewrite IH by (intros k Hk; apply H; right; exact Hk). reflexivity.
Qed.

(** Filled with a value for each placeholder, a template whose literal
    text has no brace has none left. *)
Lemma fill_brace_free (p : Params) (segs : list Segment) :
  literal_brace_free segs = true ->
  (forall k, In k (holes segs) -> own_param p k <> None) ->
  brace_free (fill p segs) = true.
Proof.
  unfold brace_free.
  induction segs as [|[text|key] segs IH];
    cbn [fill fill_segment holes In literal_brace_free forallb]; intros Hlit Hall.
  - reflexivity.
  - apply andb_true_iff in Hlit as [Htext Hlit].
    rewrite all_chars_app, (IH Hlit Hall), andb_true_r. exact Htext.
  - cbn [andb] in Hlit.
    rewrite all_chars_app, (IH Hlit) by (intros k Hk; apply Hall; right; exact Hk).
    rewrite andb_true_r.
    destruct (own_param p key) eqn:E.
    + apply encodePathComponent_brace_free.
    + exfalso. apply (Hall key); [left; reflexivity | exact E].
Qed.

Lemma fill_length (p : Params) (segs : list Segment) :
  literal_length segs <= String.length (fill p segs).
Proof.
  induction segs as [|[text|key] segs IH]; cbn [fill fill_segment literal_length].
  - lia.
  - rewrite str_length_app. lia.
  - rewrite str_length_app. lia.
Qed.

Lemma well_formed_holes (segs : list Segment) (k : string) :
  well_formed segs = true -> In k (holes segs) -> plain_key k = true.
Proof.
  unfold well_formed.
  induction segs as [|[text|key] segs IH]; cbn [forallb holes In]; intros Hwf Hin.
  - destruct Hin.
  - apply andb_true_iff in Hwf as [_ Hwf]. exact (IH Hwf Hin).
  - apply andb_true_iff in Hwf as [Hkey Hwf].
    destruct Hin as [<-|Hin]; [exact Hkey | exact (IH Hwf Hin)].
Qed.

(** The templates of the eighteen endpoint methods: literal text and
    placeholders of distinct plain names, none of them Google-style. *)
Lemma endpoint_templates (m : ClientMethod) :
  let segs := template_segments (ep_path (endpoint_of m)) in
  render segs = ep_path (endpoint_of m) /\
  well_formed segs = true /\
  distinct (holes segs) = true /\
  holes segs = path_keys (endpoint_of m) /\
  literal_brace_free segs = true /\
  2 <= literal_length segs.
Proof.
  destruct m; vm_compute; repeat split; lia.
Qed.

(** The path an endpoint method builds on an object: the template with
    the path parameters it extracted filled in. *)
Lemma endpoint_path_fill (m : ClientMethod) (o : Params) (st : State) (x : Extracted) :
  extract (endpoint_of m) (ArgsObject o) st = (inl x, st) ->
  (forall k, own_param (pathParams x) k <> None -> In k (path_keys (endpoint_of m))) ->
  buildPath (ep_path (endpoint_of m)) (pathParams x)
  = fill (pathParams x) (template_segments (ep_path (endpoint_of m))).
Proof.
  intros Hx Hfrom.
  destruct (endpoint_templates m) as (Hrender & Hwf & Hdistinct & Hholes & _).
  set (segs := template_segments (ep_path (endpoint_of m))) in *.
  rewrite <- Hrender at 1.
  apply buildPath_fill; [exact Hwf | exact (distinct_NoDup _ Hdistinct) |].
  apply forallb_forall. intros [k v] Hin. cbn [fst].
  apply plain_key_no_close, (well_formed_holes segs); [exact Hwf|].
  rewrite Hholes. apply Hfrom. intros Hnone.
  apply own_param_None in Hnone. apply Hnone.
  apply (in_map fst _ _ Hin).
Qed.

(** The path an endpoint method builds on an object that defines every
    placeholder of its template: each placeholder is replaced by the
    encoded value, and no brace is left. *)
Lemma filled_request_path (m : ClientMethod) (o : Params) (options : RequestOptions)
    (st : State) :
  (forall k, In k (path_keys (endpoint_of m)) -> is_defined (get_param o k) = true) ->
  exists x,
    fst (extract (endpoint_of m) (ArgsObject o) st) = inl x /\
    url (build_request (endpoint_of m) x options)
    = fill o (template_segments (ep_path (endpoint_of m))) /\
    brace_free (url (build_request (endpoint_of m) x options)) = true.
Proof.
  intros Hdef.
  destruct (endpoint_templates m) as (Hrender & Hwf & Hdistinct & Hholes & Hlit & Hlen).
  destruct (extract_object_path (endpoint_of m) o st) as (x & Hx & Hfrom & _ & Hnew & _).
  pose proof (endpoint_path_fill m o st x Hx Hfrom) as Hpath.
  set (segs := template_segments (ep_path (endpoint_of m))) in *.
  exists x. split; [rewrite Hx; reflexivity|].
  assert (Hsame : fill (pathParams x) segs = fill o segs).
  { apply fill_ext. intros k Hk. rewrite Hholes in Hk.
    rewrite (Hnew k Hk (Hdef k Hk)). symmetry.
    apply own_param_defined, Hdef, Hk. }
  assert (Hfree : brace_free (fill o segs) = true).
  { apply fill_brace_free; [exact Hlit|].
    intros k Hk. rewrite Hholes in Hk.
    rewrite (own_param_defined o k (Hdef k Hk)). discriminate. }
  assert (Hurl : url (build_request (endpoint_of m) x options) = fill o segs).
  { unfold build_request. cbn [url]. rewrite Hpath, Hsame.
    destruct (String.eqb (fill o segs) "/") eqn:E; [|reflexivity].
    apply String.eqb_eq in E.
    pose proof (fill_length o segs) as Hl. rewrite E in Hl. cbn in Hl. lia. }
  rewrite Hurl. split; [reflexivity | exact Hfree].
Qed.

Lemma requires_path_keys_all : forallb requires_path_keys getToolDefinitions = true.
Proof. vm_compute. reflexivity. Qed.

(** Arguments that the schema accepts.  When the arguments of a tool
    define every name its input schema requires, the path of the request
    is the template of the endpoint with every placeholder replaced by the
    encoded value of its argument, slashes kept; no brace is left in it. *)
Theorem required_arguments_fill_the_path (t : Tool) (m : ClientMethod) (o : Params)
    (options : RequestOptions) (st : State) :
  In t getToolDefinitions ->
  switch_on switch_cases (tool_name t) = Some m ->
  (forall k, In k (required (inputSchema t)) -> is_defined (get_param o k) = true) ->
  exists x segs,
    fst (extract (endpoint_of m) (ArgsObject o) st) = inl x /\
    render segs = ep_path (endpoint_of m) /\
    url (build_request (endpoint_of m) x options) = fill o segs /\
    (forall k, In k (holes segs) -> own_param o k = Some (get_param o k)) /\
    brace_free (url (build_request (endpoint_of m) x options)) = true.
Proof.
  intros Hin Hsw Hreq.
  pose proof (proj1 (forallb_forall _ _) requires_path_keys_all t Hin) as Hcover.
  unfold requires_path_keys in Hcover. rewrite Hsw in Hcover.
  assert (Hdef : forall k, In k (path_keys (endpoint_of m)) ->
                           is_defined (get_param o k) = true).
  { intros k Hk. apply Hreq, includes_str_In.
    exact (proj1 (forallb_forall _ _) Hcover k Hk). }
  destruct (filled_request_path m o options st Hdef) as (x & Hx & Hurl & Hfree).
  destruct (endpoint_templates m) as (Hrender & _ & _ & Hholes & _).
  exists x, (template_segments (ep_path (endpoint_of m))).
  split; [exact Hx|]. split; [exact Hrender|]. split; [exact Hurl|].
  split; [|exact Hfree].
  intros k Hk. rewrite Hholes in Hk. apply own_param_defined, Hdef, Hk.
Qed.

Lemma required_arguments_fill_the_path_example :
  exists x segs,
    fst (extract (endpoint_of getRecord)
           (ArgsObject [("base_id", JStr "appX"); ("table_id_or_name", JStr "My Tasks");
                        ("record_id", JStr "rec/1")])
           (sample_state None)) = inl x /\
    render segs = ep_path (endpoint_of getRecord) /\
    url (build_request (endpoint_of getRecord) x {| opt_signal := true; onProgress := None |})
    = fill [("base_id", JStr "appX"); ("table_id_or_name", JStr "My Tasks");
            ("record_id", JStr "rec/1")] segs /\
    (forall k, In k (holes segs) ->
               own_param [("base_id", JStr "appX"); ("table_id_or_name", JStr "My Tasks");
                          ("record_id", JStr "rec/1")] k
               = Some (get_param [("base_id", JStr "appX");
                                  ("table_id_or_name", JStr "My Tasks");
                                  ("record_id", JStr "rec/1")] k)) /\
    brace_free (url (build_request (endpoint_of getRecord) x
                       {| opt_signal := true; onProgress := None |})) = true.
Proof.
  apply (required_arguments_fill_the_path
           (tool "airtable_get_record" "Get a specific record"
              [ property "base_id" "string" "Base ID containing the table";
                property "table_id_or_name" "string" "Table ID or name";
                property "record_id" "string" "Record ID to fetch" ]
              ["base_id"; "table_id_or_name"; "record_id"])
           getRecord).
  - vm_compute. tauto.
  - reflexivity.
  - intros k Hin. vm_compute in Hin.
    destruct Hin as [<-|[<-|[<-|[]]]]; reflexivity.
Defined.

(** ** The tools advertised and the tools executed *)

Lemma tool_names : map tool_name getToolDefinitions = supportedTools.
Proof. vm_compute. reflexivity. Qed.

Lemma dispatched_by_name_all : forallb dispatched_by_name getToolDefinitions = true.
Proof. vm_compute. reflexivity. Qed.

Lemma required_declared_all : forallb required_declared getToolDefinitions = true.
Proof. vm_compute. reflexivity. Qed.

(** The tools [getToolDefinitions] advertises are the tools [canHandle]
    accepts, in the same order and each once; [executeTool] has a case
    for each of them, on the method of the endpoint the tool is named
    after; the schema of a tool requires every placeholder of the path of
    that endpoint, and declares every name it requires. *)
Theorem advertised_tools_are_executed :
  map tool_name getToolDefinitions = supportedTools /\
  List.NoDup (map tool_name getToolDefinitions) /\
  (forall name,
      canHandle name = true <-> exists t, In t getToolDefinitions /\ tool_name t = name) /\
  (forall t, In t getToolDefinitions ->
     exists m,
       switch_on switch_cases (tool_name t) = Some m /\
       tool_name t = "airtable_" +:+ ep_name (endpoint_of m) /\
       (forall k, In k (path_keys (endpoint_of m)) -> In k (required (inputSchema t))) /\
       (forall k, In k (required (inputSchema t)) ->
                  In k (map fst (properties (inputSchema t))))).
Proof.
  split; [exact tool_names|]. split; [|split].
  - rewrite tool_names. apply distinct_NoDup. vm_compute. reflexivity.
  - intros name. rewrite canHandle_In, <- tool_names, in_map_iff.
    split; intros (t & H1 & H2); exists t; tauto.
  - intros t Hin.
    pose proof (proj1 (forallb_forall _ _) dispatched_by_name_all t Hin) as Hname.
    pose proof (proj1 (forallb_forall _ _) requires_path_keys_all t Hin) as Hcover.
    pose proof (proj1 (forallb_forall _ _) required_declared_all t Hin) as Hdecl.
    unfold dispatched_by_name in Hname. unfold requires_path_keys in Hcover.
    destruct (switch_on switch_cases (tool_name t)) as [m|]; [|discriminate Hname].
    exists m. split; [reflexivity|].
    split; [apply String.eqb_eq, Hname|].
    split.
    + intros k Hk. apply includes_str_In. exact (proj1 (forallb_forall _ _) Hcover k Hk).
    + intros k Hk. apply includes_str_In. exact (proj1 (forallb_forall _ _) Hdecl k Hk).
Qed.
(** ** The trace of a call *)

Lemma steady_refl (ok : Event -> bool) (st : State) : steady ok st st.
Proof. split; [reflexivity|]. exists []. rewrite app_nil_r. split; reflexivity. Qed.

Lemma steady_trans (ok : Event -> bool) (a b c : State) :
  steady ok a b -> steady ok b c -> steady ok a c.
Proof.
  intros [Hi1 (l1 & He1 & Hok1)] [Hi2 (l2 & He2 & Hok2)].
  split; [congruence|]. exists (l1 ++ l2).
  rewrite He2, He1, <- app_assoc, forallb_app, Hok1, Hok2. split; reflexivity.
Qed.

Lemma steady_record (ok : Event -> bool) (e : Event) (st : State) :
  ok e = true -> steady ok st (record e st).
Proof.
  intros He. split; [reflexivity|]. exists [e]. cbn [forallb]. rewrite He.
  split; reflexivity.
Qed.

Lemma steady_arrive (ok : Event -> bool) (env : Env) (p : AwaitPoint) (st : State) :
  steady ok st (arrive env p st).
Proof.
  unfold arrive. destruct (cancel_during env p); [|apply steady_refl].
  split; [reflexivity|]. exists []. cbn [events]. rewrite app_nil_r. split; reflexivity.
Qed.

(** An endpoint method leaves the flag of the tools alone, and produces
    events of its own kind only. *)
Lemma call_endpoint_steady (env : Env) (ep : Endpoint) (params : Args)
    (options : RequestOptions) :
  preserves (steady client_event) (call_endpoint env ep params options).
Proof.
  pose proof (steady_refl client_event) as Hrefl.
  pose proof (steady_trans client_event) as Htrans.
  assert (Hlog : forall l, client_event (EvLog l) = true -> preserves (steady client_event) (log l)).
  { intros l Hl st. apply steady_record. exact Hl. }
  assert (Hawait : forall p, preserves (steady client_event) (await env p)).
  { intros p st. apply steady_arrive. }
  assert (Hcallback : forall p pr,
             preserves (steady client_event)
               (match onProgress options with
                | Some token => call_progress_callback env p token pr
                | None => ret tt
                end)).
  { intros p pr. destruct (onProgress options) as [token|]; [|apply preserves_ret, Hrefl].
    unfold call_progress_callback.
    apply (preserves_bind _ Htrans); [|intros _; apply Hawait].
    intros st. apply steady_record. reflexivity. }
  unfold call_endpoint.
  apply (preserves_bind _ Htrans); [apply Hlog; reflexivity | intros _].
  apply (preserves_try_catch _ Htrans).
  - apply (preserves_bind _ Htrans);
      [apply (preserves_stateless _ Hrefl), stateless_extract | intros x].
    apply (preserves_bind _ Htrans); [apply Hlog; reflexivity | intros _].
    apply (preserves_bind _ Htrans); [apply Hcallback | intros _].
    apply (preserves_bind _ Htrans); [|intros data].
    { unfold http_call.
      apply (preserves_bind _ Htrans); [intros st; apply steady_record; reflexivity | intros _].
      apply (preserves_bind _ Htrans); [apply Hawait | intros _].
      destruct (http_reply env _);
        [apply preserves_ret | apply preserves_throw | apply preserves_throw]; exact Hrefl. }
    apply (preserves_bind _ Htrans); [apply Hcallback | intros _].
    apply (preserves_bind _ Htrans); [|intros _].
    { destruct (is_defined data); [apply preserves_ret | apply preserves_throw]; exact Hrefl. }
    apply (preserves_bind _ Htrans); [apply Hlog; reflexivity | intros _].
    apply preserves_ret, Hrefl.
  - intros e. destruct (isCancel e).
    + apply (preserves_bind _ Htrans); [apply Hlog; reflexivity | intros _].
      apply preserves_throw, Hrefl.
    + apply (preserves_bind _ Htrans); [apply Hlog; reflexivity | intros _].
      apply preserves_throw, Hrefl.
Qed.

Lemma events_arrive (env : Env) (p : AwaitPoint) (st : State) :
  events (arrive env p st) = events st.
Proof. unfold arrive. destruct (cancel_during env p); reflexivity. Qed.

Lemma initialized_arrive (env : Env) (p : AwaitPoint) (st : State) :
  initialized (arrive env p st) = initialized st.
Proof. unfold arrive. destruct (cancel_during env p); reflexivity. Qed.

(** The trace of a call of a supported tool on a context that is not
    aborted: the start of the call, the first initialisation, the report
    of the start if the call is tracked, the client method and what it
    does, the report of the end if the call is tracked and the method
    resolved, and the log of the outcome. *)
Lemma executeTool_supported_trace (env : Env) (name : string) (m : ClientMethod)
    (args : Args) (progressReporter : bool) (st : State) :
  switch_on switch_cases name = Some m ->
  context_aborted (context st) = false ->
  let run := executeTool env (AirtableClient env) name args progressReporter st in
  initialized (snd run) = true /\
  exists started added finished outcome,
    events (snd run)
    = events st ++ [EvLog (LogToolStart name)] ++ init_events (initialized st)
      ++ [EvLog (LogDebug "PARAM_VALIDATION"); EvLog (LogDebug "TOOL_EXECUTE")]
      ++ started ++ [EvInvoke m] ++ added ++ finished ++ [EvLog outcome] /\
    forallb is_report started = true /\
    forallb client_event added = true /\
    forallb is_report finished = true /\
    match fst run with
    | inl _ => outcome = LogToolSuccess name
    | inr e =>
        finished = [] /\
        (outcome = LogInfo "TOOL_CANCELLED" \/ outcome = LogToolError name (error_message e))
    end.
Proof.
  intros Hsw Hlive. cbv zeta.
  rewrite (executeTool_supported _ _ _ m) by assumption.
  pose proof (call_endpoint_steady env (endpoint_of m) args
                (make_requestOptions (context st) progressReporter)
                (state_at_handler env name m progressReporter st)) as Hclient.
  fold (AirtableClient env m) in Hclient.
  assert (Hstart : initialized (state_at_handler env name m progressReporter st) = true /\
            exists started,
              events (state_at_handler env name m progressReporter st)
              = events st ++ [EvLog (LogToolStart name)] ++ init_events (initialized st)
                ++ [EvLog (LogDebug "PARAM_VALIDATION"); EvLog (LogDebug "TOOL_EXECUTE")]
                ++ started ++ [EvInvoke m] /\
              forallb is_report started = true).
  { rewrite state_at_handler_eq. cbv zeta.
    destruct (progress_target (context st) progressReporter) as [token|].
    - split; [unfold record; cbn [initialized]; apply initialized_arrive|].
      exists [EvReport token (start_progress m)].
      unfold record. cbn [events]. rewrite events_arrive. cbn [events].
      rewrite <- !app_assoc. split; reflexivity.
    - split; [reflexivity|]. exists [].
      unfold record. cbn [events]. rewrite <- !app_assoc. split; reflexivity. }
  destruct Hstart as [Hinit (started & Hev & Hstarted)].
  destruct (AirtableClient env m args _ (state_at_handler env name m progressReporter st))
    as [[p|e] st_f]; cbn [snd] in Hclient;
    destruct Hclient as [Hinit_f (added & Hev_f & Hadded)].
  - rewrite after_handler_run. cbn [fst snd].
    destruct (progress_target (context st_f) progressReporter) as [token|].
    + split; [unfold record; cbn [initialized]; rewrite initialized_arrive; cbn [initialized];
              congruence|].
      exists started, added, [EvReport token (done_progress m)], (LogToolSuccess name).
      unfold record at 1. cbn [events]. rewrite events_arrive.
      unfold record. cbn [events]. rewrite Hev_f, Hev, <- !app_assoc.
      repeat split; assumption.
    + split; [unfold record; cbn [initialized]; congruence|].
      exists started, added, [], (LogToolSuccess name).
      unfold record. cbn [events]. rewrite Hev_f, Hev, <- !app_assoc.
      repeat split; assumption.
  - rewrite on_error_run. cbn [fst snd].
    split; [unfold record; cbn [initialized]; congruence|].
    exists started, added, [],
      (if context_aborted (context st_f) || String.eqb (error_message e) "Request was cancelled"
       then LogInfo "TOOL_CANCELLED" else LogToolError name (error_message e)).
    unfold record. cbn [events]. rewrite Hev_f, Hev, <- !app_assoc.
    split; [reflexivity|]. split; [assumption|]. split; [assumption|].
    split; [reflexivity|]. split; [reflexivity|].
    destruct (context_aborted (context st_f) || _); [left | right]; reflexivity.
Qed.

Lemma forallb_weaken {A} (ok ok' : A -> bool) (l : list A) :
  (forall a, ok a = true -> ok' a = true) -> forallb ok l = true -> forallb ok' l = true.
Proof.
  intros Himp H. apply forallb_forall. intros a Ha.
  apply Himp. exact (proj1 (forallb_forall _ _) H a Ha).
Qed.

Lemma client_event_no_outcome (e : Event) :
  client_event e = true -> negb (is_outcome_log e) = true.
Proof.
  destruct e as [[tag|tag|tag| | |]| | | |]; cbn [client_event is_outcome_log];
    try discriminate; try reflexivity.
  - cbn [includes_str]. rewrite !orb_false_r.
    intros H. apply orb_true_iff in H as [H|H]; [|apply orb_true_iff in H as [H|H]];
      apply String.eqb_eq in H; subst tag; reflexivity.
  - intros H. apply String.eqb_eq in H. subst tag. reflexivity.
Qed.

Lemma is_report_no_outcome (e : Event) : is_report e = true -> negb (is_outcome_log e) = true.
Proof. destruct e; cbn [is_report]; try discriminate. reflexivity. Qed.

Lemma init_events_no_outcome (already : bool) :
  forallb (fun e => negb (is_outcome_log e)) (init_events already) = true.
Proof. destruct already; reflexivity. Qed.

Lemma canHandle_false_switch (name : string) :
  switch_on switch_cases name = None -> canHandle name = false.
Proof.
  intros Hsw. destruct (canHandle name) eqn:E; [|reflexivity].
  apply switch_on_canHandle in E as [m Hm]. congruence.
Qed.

(** One outcome per call.  Whatever the tool, the arguments and the
    replies, a call logs its outcome once, as the last thing it does:
    success exactly when it returns a payload; otherwise the early
    cancellation, the unknown tool, the cancellation or the error. *)
Theorem executeTool_logs_one_outcome (env : Env) (name : string) (args : Args)
    (progressReporter : bool) (st : State) :
  let run := executeTool env (AirtableClient env) name args progressReporter st in
  exists before outcome,
    events (snd run) = events st ++ before ++ [EvLog outcome] /\
    forallb (fun e => negb (is_outcome_log e)) before = true /\
    is_outcome_log (EvLog outcome) = true /\
    ((exists p, fst run = inl p) <-> outcome = LogToolSuccess name).
Proof.
  cbv zeta.
  destruct (context_aborted (context st)) eqn:Hab.
  { rewrite executeTool_aborted by exact Hab. cbn [fst snd events].
    exists [EvLog (LogToolStart name)], (LogInfo "TOOL_CANCELLED_EARLY").
    repeat split; try reflexivity.
    - intros [p Hp]. discriminate Hp.
    - discriminate. }
  destruct (switch_on switch_cases name) as [m|] eqn:Hsw.
  - destruct (executeTool_supported_trace env name m args progressReporter st Hsw Hab)
      as (_ & started & added & finished & outcome & Hev & Hstarted & Hadded & Hfinished & Hout).
    exists ([EvLog (LogToolStart name)] ++ init_events (initialized st)
            ++ [EvLog (LogDebug "PARAM_VALIDATION"); EvLog (LogDebug "TOOL_EXECUTE")]
            ++ started ++ [EvInvoke m] ++ added ++ finished), outcome.
    split; [rewrite Hev, <- !app_assoc; reflexivity|].
    split.
    { rewrite !forallb_app, init_events_no_outcome.
      rewrite (forallb_weaken _ _ started is_report_no_outcome Hstarted).
      rewrite (forallb_weaken _ _ added client_event_no_outcome Hadded).
      rewrite (forallb_weaken _ _ finished is_report_no_outcome Hfinished).
      reflexivity. }
    destruct (fst (executeTool env (AirtableClient env) name args progressReporter st))
      as [p|e].
    + subst outcome. split; [reflexivity|]. split; [reflexivity | intros _; exists p; reflexivity].
    + destruct Hout as [_ [-> | ->]]; (split; [reflexivity|]);
        (split; [intros [p Hp]; discriminate Hp | discriminate]).
  - rewrite executeTool_unsupported by (try apply canHandle_false_switch; assumption).
    cbn [fst snd events].
    exists ([EvLog (LogToolStart name)] ++ init_events (initialized st)),
      (LogError "TOOL_ERROR").
    split; [rewrite <- !app_assoc; reflexivity|].
    split; [rewrite forallb_app, init_events_no_outcome; reflexivity|].
    split; [reflexivity|].
    split; [intros [p Hp]; discriminate Hp | discriminate].
Qed.

Lemma filter_none {A} (P : A -> bool) (l : list A) :
  forallb (fun a => negb (P a)) l = true -> List.filter P l = [].
Proof.
  induction l as [|a l IH]; cbn [forallb List.filter]; [reflexivity|].
  intros [Ha Hl]%andb_true_iff. apply negb_true_iff in Ha. rewrite Ha. exact (IH Hl).
Qed.

Lemma client_event_no_init (e : Event) :
  client_event e = true -> negb (is_init_log e) = true.
Proof.
  destruct e as [[tag|tag|tag| | |]| | | |]; cbn [client_event is_init_log];
    try discriminate; try reflexivity.
  cbn [includes_str]. rewrite !orb_false_r.
  intros H. apply orb_true_iff in H as [H|H]; [|apply orb_true_iff in H as [H|H]];
    apply String.eqb_eq in H; subst tag; reflexivity.
Qed.

Lemma is_report_no_init (e : Event) : is_report e = true -> negb (is_init_log e) = true.
Proof. destruct e; cbn [is_report]; try discriminate. reflexivity. Qed.

Lemma init_events_init (already : bool) :
  List.filter is_init_log (init_events already) = init_events already.
Proof. destruct already; reflexivity. Qed.

(** The first initialisation, and no other.  A call that finds its
    context aborted leaves the tools as they are.  Any other call, whether
    or not its tool is known, leaves them initialised, and logs the
    initialisation exactly when they were not; so no call after it logs
    one. *)
Theorem tools_initialised_once (env : Env) (name : string) (args : Args)
    (progressReporter : bool) (st : State) :
  let run := executeTool env (AirtableClient env) name args progressReporter st in
  (context_aborted (context st) = true ->
   initialized (snd run) = initialized st /\
   List.filter is_init_log (events (snd run)) = List.filter is_init_log (events st)) /\
  (context_aborted (context st) = false ->
   initialized (snd run) = true /\
   List.filter is_init_log (events (snd run))
   = List.filter is_init_log (events st) ++ init_events (initialized st)) /\
  (initialized st = true ->
   initialized (snd run) = true /\
   List.filter is_init_log (events (snd run)) = List.filter is_init_log (events st)).
Proof.
  cbv zeta.
  assert (Hearly : context_aborted (context st) = true ->
            initialized (snd (executeTool env (AirtableClient env) name args
                                progressReporter st)) = initialized st /\
            List.filter is_init_log
              (events (snd (executeTool env (AirtableClient env) name args
                              progressReporter st)))
            = List.filter is_init_log (events st)).
  { intros Hab. rewrite executeTool_aborted by exact Hab. cbn [snd initialized events].
    split; [reflexivity|]. rewrite List.filter_app. cbn. apply app_nil_r. }
  assert (Hlate : context_aborted (context st) = false ->
            initialized (snd (executeTool env (AirtableClient env) name args
                                progressReporter st)) = true /\
            List.filter is_init_log
              (events (snd (executeTool env (AirtableClient env) name args
                              progressReporter st)))
            = List.filter is_init_log (events st) ++ init_events (initialized st)).
  { intros Hab. destruct (switch_on switch_cases name) as [m|] eqn:Hsw.
    - destruct (executeTool_supported_trace env name m args progressReporter st Hsw Hab)
        as (Hinit & started & added & finished & outcome
            & Hev & Hstarted & Hadded & Hfinished & Hout).
      split; [exact Hinit|].
      rewrite Hev, !List.filter_app, init_events_init.
      rewrite (filter_none _ started (forallb_weaken _ _ _ is_report_no_init Hstarted)).
      rewrite (filter_none _ added (forallb_weaken _ _ _ client_event_no_init Hadded)).
      rewrite (filter_none _ finished (forallb_weaken _ _ _ is_report_no_init Hfinished)).
      assert (Hlast : List.filter is_init_log [EvLog outcome] = []).
      { destruct (fst (executeTool env (AirtableClient env) name args progressReporter st)).
        - subst outcome. reflexivity.
        - destruct Hout as [_ [-> | ->]]; reflexivity. }
      rewrite Hlast. cbn. rewrite !app_nil_r. reflexivity.
    - rewrite executeTool_unsupported by (try apply canHandle_false_switch; assumption).
      cbn [snd initialized events]. split; [reflexivity|].
      rewrite !List.filter_app, init_events_init. cbn. rewrite app_nil_r. reflexivity. }
  split; [exact Hearly|]. split; [exact Hlate|].
  intros Hinit. destruct (context_aborted (context st)) eqn:Hab.
  - destruct (Hearly eq_refl) as [H1 H2]. split; [congruence | exact H2].
  - destruct (Hlate eq_refl) as [H1 H2]. split; [exact H1|].
    rewrite H2, Hinit. apply app_nil_r.
Qed.
(** ** A call without arguments *)

(** On [undefined], an endpoint method fails at the first lookup in its
    arguments, before any request: the lookup of the first placeholder of
    the path, or of the parameter named by the empty string when the path
    has no placeholder. *)
Lemma call_endpoint_undefined (env : Env) (m : ClientMethod) (options : RequestOptions)
    (st : State) :
  call_endpoint env (endpoint_of m) ArgsUndefined options st =
    (inr (Error ("Failed to execute " +:+ ep_name (endpoint_of m)
                 +:+ ": Cannot read properties of undefined (reading '"
                 +:+ hd "" (path_keys (endpoint_of m)) +:+ "')")),
     record (EvLog (LogError "ENDPOINT_ERROR"))
       (record (EvLog (LogInfo "ENDPOINT_START")) st)).
Proof.
  unfold call_endpoint.
  unfold bind at 1. unfold log at 1, emit at 1.
  unfold try_catch.
  unfold bind at 1. rewrite (extract_any_state _ _ st).
  destruct m; vm_compute; reflexivity.
Qed.

Lemma filter_events_record (P : Event -> bool) (e : Event) (st : State) :
  P e = false -> List.filter P (events (record e st)) = List.filter P (events st).
Proof.
  intros He. unfold record. cbn [events].
  rewrite List.filter_app. cbn [List.filter]. rewrite He. apply app_nil_r.
Qed.

Lemma init_events_no_http (already : bool) :
  List.filter is_http (init_events already) = [].
Proof. destruct already; reflexivity. Qed.

(** A call without arguments.  When [args] is [undefined], a supported
    tool fails before any request is issued, the tool that requires no
    argument included: the error is that of the first lookup in the
    arguments, under the name of the endpoint. *)
Theorem executeTool_without_arguments (env : Env) (name : string) (m : ClientMethod)
    (progressReporter : bool) (st : State) :
  switch_on switch_cases name = Some m ->
  context_aborted (context st) = false ->
  let run := executeTool env (AirtableClient env) name ArgsUndefined progressReporter st in
  fst run
  = inr (Error ("Failed to execute " +:+ ep_name (endpoint_of m)
                +:+ ": Cannot read properties of undefined (reading '"
                +:+ hd "" (path_keys (endpoint_of m)) +:+ "')")) /\
  List.filter is_http (events (snd run)) = List.filter is_http (events st).
Proof.
  intros Hsw Hlive. cbv zeta.
  rewrite (executeTool_supported _ _ _ m) by assumption.
  unfold AirtableClient. rewrite call_endpoint_undefined, on_error_run. cbn [fst snd].
  split; [reflexivity|].
  rewrite !filter_events_record
    by (try reflexivity; destruct (_ || _); reflexivity).
  rewrite state_at_handler_eq. cbv zeta.
  rewrite filter_events_record by reflexivity.
  destruct (progress_target (context st) progressReporter) as [token|].
  - rewrite events_arrive, filter_events_record by reflexivity.
    cbn [events]. rewrite !List.filter_app, init_events_no_http. cbn.
    rewrite !app_nil_r. reflexivity.
  - cbn [events]. rewrite !List.filter_app, init_events_no_http. cbn.
    rewrite !app_nil_r. reflexivity.
Qed.

Lemma executeTool_without_arguments_example :
  fst (executeTool (sample_env (Resolved (JObj [])) false)
         (AirtableClient (sample_env (Resolved (JObj [])) false))
         "airtable_list_bases" ArgsUndefined false (sample_state None))
  = inr (Error ("Failed to execute " +:+ ep_name (endpoint_of listBases)
                +:+ ": Cannot read properties of undefined (reading '"
                +:+ hd "" (path_keys (endpoint_of listBases)) +:+ "')")) /\
  List.filter is_http
    (events (snd (executeTool (sample_env (Resolved (JObj [])) false)
                    (AirtableClient (sample_env (Resolved (JObj [])) false))
                    "airtable_list_bases" ArgsUndefined false (sample_state None))))
  = List.filter is_http (events (sample_state None)).
Proof.
  apply (executeTool_without_arguments (sample_env (Resolved (JObj [])) false)
           "airtable_list_bases" listBases false (sample_state None)); reflexivity.
Defined.
(** ** What the encoding of a path component keeps *)

#[local] Arguments String.append : simpl nomatch.

(** Byte by byte: [encodeURIComponent] followed by the replacement of
    [%2F] is the encoding of each byte on its own. *)
Lemma restore_slashes_byte (c : ascii) (rest : string) :
  restore_slashes ((if uri_unreserved c then String c EmptyString else percent_encode c)
                   +:+ rest)
  = encode_path_byte c +:+ restore_slashes rest.
Proof.
  destruct rest as [|d [|e rest]];
    destruct c as [[] [] [] [] [] [] [] []]; reflexivity.
Qed.

Lemma encodePathComponent_bytes (s : string) :
  encodePathComponent s
  = match s with
    | EmptyString => EmptyString
    | String c rest => encode_path_byte c +:+ encodePathComponent rest
    end.
Proof.
  destruct s as [|c rest]; [reflexivity|].
  unfold encodePathComponent. cbn [encodeURIComponent].
  apply restore_slashes_byte.
Qed.

Lemma decode_path_byte (c : ascii) (rest : string) :
  decode_path (encode_path_byte c +:+ rest) = String c (decode_path rest).
Proof. destruct c as [[] [] [] [] [] [] [] []]; reflexivity. Qed.

(** Decoding gives the value back. *)
Lemma decode_path_encodePathComponent (s : string) :
  decode_path (encodePathComponent s) = s.
Proof.
  induction s as [|c s IH]; [reflexivity|].
  rewrite encodePathComponent_bytes, decode_path_byte, IH. reflexivity.
Qed.

(** The encoding of a path component loses nothing: two values with the
    same encoding are the same value. *)
Theorem encodePathComponent_injective (a b : string) :
  encodePathComponent a = encodePathComponent b -> a = b.
Proof.
  intros H. rewrite <- (decode_path_encodePathComponent a), H.
  apply decode_path_encodePathComponent.
Qed.

Lemma encodePathComponent_injective_example :
  encodePathComponent "a b" = encodePathComponent "a b" /\ "a b" = "a b".
Proof.
  split; [reflexivity|].
  apply (encodePathComponent_injective "a b" "a b"). reflexivity.
Defined.

Lemma encode_path_byte_safe (c : ascii) :
  path_safe c = true -> encode_path_byte c = String c EmptyString.
Proof. destruct c as [[] [] [] [] [] [] [] []]; vm_compute; congruence. Qed.

(** Slashes, dots and the other characters that need no escape pass as
    they are: a value made of them is its own encoding, so a value can add
    segments to the path. *)
Theorem encodePathComponent_keeps_safe_text (s : string) :
  all_chars path_safe s = true -> encodePathComponent s = s.
Proof.
  induction s as [|c s IH]; cbn [all_chars]; [reflexivity|].
  intros [Hc Hs]%andb_true_iff.
  rewrite encodePathComponent_bytes, (encode_path_byte_safe c Hc), (IH Hs). reflexivity.
Qed.

Lemma encodePathComponent_keeps_safe_text_example :
  encodePathComponent "appX/../meta" = "appX/../meta".
Proof. apply encodePathComponent_keeps_safe_text. reflexivity. Defined.

#[local] Arguments String.append : simpl never.
(** ** The characters of a request path *)

Lemma path_char_url_char (c : ascii) : path_char c = true -> url_char c = true.
Proof.
  unfold path_char, url_char. intros H. rewrite H. reflexivity.
Qed.

Lemma fill_chars (ok : ascii -> bool) (p : Params) (segs : list Segment) :
  forallb (fun s => all_chars ok (render_segment s)) segs = true ->
  (forall value, all_chars ok (encodePathComponent value) = true) ->
  all_chars ok (fill p segs) = true.
Proof.
  intros Hsegs Henc.
  induction segs as [|s segs IH]; cbn [fill forallb] in *; [reflexivity|].
  apply andb_true_iff in Hsegs as [Hs Hsegs].
  rewrite all_chars_app, (IH Hsegs), andb_true_r.
  destruct s as [text|key]; cbn [fill_segment render_segment] in *; [exact Hs|].
  destruct (own_param p key); [apply Henc | exact Hs].
Qed.

Lemma endpoint_template_chars (m : ClientMethod) :
  forallb (fun s => all_chars url_char (render_segment s))
    (template_segments (ep_path (endpoint_of m))) = true.
Proof. destruct m; vm_compute; reflexivity. Qed.

(** Whatever the arguments hold, the path of the request is made of the
    characters that need no escape, the percent sign, the slash and the
    braces of the placeholders left as they were: a value brings no
    question mark, number sign, ampersand, space or control character
    into it. *)
Theorem request_path_characters (m : ClientMethod) (o : Params)
    (options : RequestOptions) (st : State) :
  exists x,
    fst (extract (endpoint_of m) (ArgsObject o) st) = inl x /\
    all_chars url_char (url (build_request (endpoint_of m) x options)) = true /\
    url_char "?" = false /\ url_char "#" = false /\ url_char "&" = false /\
    url_char " " = false.
Proof.
  destruct (extract_object_path (endpoint_of m) o st) as (x & Hx & Hfrom & _).
  exists x. split; [rewrite Hx; reflexivity|].
  split; [|repeat split; reflexivity].
  unfold build_request. cbn [url].
  destruct (String.eqb _ "/"); [reflexivity|].
  rewrite (endpoint_path_fill m o st x Hx Hfrom).
  apply fill_chars; [apply endpoint_template_chars|].
  intros value. eapply all_chars_weaken; [|apply encodePathComponent_chars].
  exact path_char_url_char.
Qed.
(** ** The construction of the client *)

Lemma substring_prefix (n : nat) (s : string) :
  exists rest, s = String.substring 0 n s +:+ rest.
Proof.
  revert s. induction n as [|n IH]; intros s.
  - exists s. destruct s; reflexivity.
  - destruct s as [|c s]; [exists EmptyString; reflexivity|].
    destruct (IH s) as [rest Hrest]. exists rest.
    cbn [String.substring]. change (String c (String.substring 0 n s) +:+ rest)
      with (String c (String.substring 0 n s +:+ rest)).
    rewrite <- Hrest. reflexivity.
Qed.

Lemma substring_length (n : nat) (s : string) :
  String.length (String.substring 0 n s) = Nat.min n (String.length s).
Proof.
  revert s. induction n as [|n IH]; intros s.
  - destruct s; reflexivity.
  - destruct s as [|c s]; [reflexivity|].
    cbn [String.substring String.length]. rewrite IH. reflexivity.
Qed.

Lemma substring_whole (n : nat) (s : string) :
  String.length s <= n -> String.substring 0 n s = s.
Proof.
  revert s. induction n as [|n IH]; intros s Hlen.
  - destruct s; [reflexivity | cbn in Hlen; lia].
  - destruct s as [|c s]; [reflexivity|].
    cbn [String.substring]. rewrite IH; [reflexivity | cbn in Hlen; lia].
Qed.

Lemma or_else_nonempty (a b : option string) (t : string) :
  or_else a b = Some t -> t <> "" -> 
  (a = Some t) \/ ((a = None \/ a = Some "") /\ b = Some t).
Proof.
  unfold or_else. destruct a as [s|]; [|intros ->; auto].
  destruct (String.eqb s "") eqn:E.
  - apply String.eqb_eq in E. subst s. intros ->. auto.
  - intros [= ->]. auto.
Qed.

(** The authentication header, and what the log keeps of the token.
    When [config.authToken || config.aIRTABLEACCESSTOKEN ||
    process.env.AIRTABLE_ACCESS_TOKEN] is a string that is not empty, it is
    the first of the three that is not, an empty string counting as none;
    the header [Authorization] is [Bearer] followed by it; and the log
    records its first eight characters followed by three dots, so that a
    token of eight characters or fewer is logged whole.  The token is one
    of ASCII characters, for which a byte is a UTF-16 unit. *)
Theorem getAuthHeaders_bearer (config : AirtableClientConfig) (process_env : ProcessEnv)
    (token : string) :
  auth_token config process_env = Some token ->
  token <> "" ->
  all_chars is_ascii token = true ->
  List.find (fun c : option string =>
               match c with Some s => negb (String.eqb s "") | None => false end)
    [authToken config; aIRTABLEACCESSTOKEN config; process_env "AIRTABLE_ACCESS_TOKEN"]
  = Some (Some token) /\
  exists preview rest,
    getAuthHeaders config process_env
    = ([("Authorization", "Bearer " +:+ token)],
       [AuthEvent "static_token_auth_setup" true (preview +:+ "...")]) /\
    token = preview +:+ rest /\
    String.length preview = Nat.min 8 (String.length token) /\
    (String.length token <= 8 -> preview = token).
Proof.
  intros Htoken Hne _. split.
  - unfold auth_token in Htoken. cbn [List.find].
    assert (Hfalsy : forall a : option string, a = None \/ a = Some "" ->
               match a with Some s => negb (String.eqb s "") | None => false end = false).
    { intros a [-> | ->]; reflexivity. }
    assert (Htruthy : negb (String.eqb token "") = true).
    { apply negb_true_iff, String.eqb_neq, Hne. }
    destruct (or_else_nonempty _ _ _ Htoken Hne) as [H12|[H12 H3]].
    + destruct (or_else_nonempty _ _ _ H12 Hne) as [H1|[H1 H2]].
      * rewrite H1, Htruthy. reflexivity.
      * rewrite (Hfalsy _ H1), H2, Htruthy. reflexivity.
    + assert (H1 : authToken config = None \/ authToken config = Some "").
      { unfold or_else in H12. destruct (authToken config) as [t1|]; [|left; reflexivity].
        destruct (String.eqb t1 "") eqn:E1.
        - apply String.eqb_eq in E1. subst t1. right. reflexivity.
        - destruct H12 as [H12|H12]; [discriminate H12|].
          injection H12 as ->. discriminate E1. }
      assert (H2 : aIRTABLEACCESSTOKEN config = None \/ aIRTABLEACCESSTOKEN config = Some "").
      { destruct H1 as [H1|H1]; rewrite H1 in H12; cbn in H12; exact H12. }
      rewrite (Hfalsy _ H1), (Hfalsy _ H2), H3, Htruthy. reflexivity.
  - unfold getAuthHeaders. rewrite Htoken.
    rewrite (proj2 (String.eqb_neq token "") Hne).
    destruct (substring_prefix 8 token) as [rest Hrest].
    exists (String.substring 0 8 token), rest.
    split; [reflexivity|]. split; [exact Hrest|].
    split; [apply substring_length | apply substring_whole].
Qed.

Lemma getAuthHeaders_bearer_example :
  List.find (fun c : option string =>
               match c with Some s => negb (String.eqb s "") | None => false end)
    [Some ""; None; Some "pat12"] = Some (Some "pat12") /\
  exists preview rest,
    getAuthHeaders {| aIRTABLEACCESSTOKEN := None; timeout := None; rateLimit := None;
                      authToken := Some "" |}
      (fun name => if String.eqb name "AIRTABLE_ACCESS_TOKEN" then Some "pat12" else None)
    = ([("Authorization", "Bearer " +:+ "pat12")],
       [AuthEvent "static_token_auth_setup" true (preview +:+ "...")]) /\
    "pat12" = preview +:+ rest /\
    String.length preview = Nat.min 8 (String.length "pat12") /\
    (String.length "pat12" <= 8 -> preview = "pat12").
Proof.
  apply (getAuthHeaders_bearer
           {| aIRTABLEACCESSTOKEN := None; timeout := None; rateLimit := None;
              authToken := Some "" |}
           (fun name => if String.eqb name "AIRTABLE_ACCESS_TOKEN" then Some "pat12" else None)
           "pat12").
  - reflexivity.
  - discriminate.
  - reflexivity.
Defined.

(** The construction of the client never fails, and the variable
    [AIRTABLE_DOMAIN] has no part in it: the base URL is the same in every
    environment.  The timeout is the configured one, or 30000 when none
    or zero is configured, so it is never zero.  The headers are the three
    fixed ones followed by those of [getAuthHeaders].  The rate is limited
    exactly when a rate other than zero is configured, so [setupRateLimit]
    never divides by zero. *)
Theorem new_AirtableClient_configuration (config : AirtableClientConfig)
    (process_env : ProcessEnv) :
  resolveBaseUrl process_env = (inl "https://api.airtable.com/v0", []) /\
  exists c,
    new_AirtableClient config process_env = inl c /\
    baseURL (httpClient c) = "https://api.airtable.com/v0" /\
    client_timeout (httpClient c) <> 0%Z /\
    (forall t, timeout config = Some t -> t <> 0%Z -> client_timeout (httpClient c) = t) /\
    (timeout config = None \/ timeout config = Some 0%Z ->
     client_timeout (httpClient c) = 30000%Z) /\
    headers (httpClient c)
    = [("Accept", "application/json"); ("Content-Type", "application/json");
       ("User-Agent", "airtable-mcp/1.0.0")] ++ fst (getAuthHeaders config process_env) /\
    (rate_limited c = None <-> rateLimit config = None \/ rateLimit config = Some 0%Z) /\
    (forall n, rate_limited c = Some n -> rateLimit config = Some n /\ n <> 0%Z).
Proof.
  assert (Hbase : resolveBaseUrl process_env = (inl "https://api.airtable.com/v0", []))
    by reflexivity.
  split; [exact Hbase|].
  unfold new_AirtableClient. rewrite Hbase.
  destruct (getAuthHeaders config process_env) as [auth log3].
  eexists. split; [reflexivity|].
  cbn [httpClient baseURL client_timeout headers rate_limited fst].
  split; [reflexivity|].
  split.
  { unfold number_or. destruct (timeout config) as [t|]; [|discriminate].
    destruct (Z.eqb t 0) eqn:E; [discriminate | apply Z.eqb_neq, E]. }
  split.
  { intros t -> Ht. unfold number_or. apply Z.eqb_neq in Ht. rewrite Ht. reflexivity. }
  split.
  { intros [-> | ->]; reflexivity. }
  split; [reflexivity|].
  split.
  { destruct (rateLimit config) as [n|]; [|tauto].
    destruct (Z.eqb n 0) eqn:E.
    - apply Z.eqb_eq in E. subst n. tauto.
    - apply Z.eqb_neq in E. split; [discriminate|].
      intros [H|H]; [discriminate H | injection H as ->; contradiction]. }
  intros n. destruct (rateLimit config) as [r|]; [|discriminate].
  destruct (Z.eqb r 0) eqn:E; [discriminate|].
  intros [= ->]. split; [reflexivity | apply Z.eqb_neq, E].
Qed.
(** ** [buildPath] with nothing to replace *)


Lemma str_includes_no_open (path key : string) :
  no_open path = true -> str_includes path ("{" +:+ key +:+ "}") = false.
Proof.
  intros Hpath. unfold str_includes.
  change ("{" +:+ key +:+ "}") with (String "{" (key +:+ "}")).
  rewrite <- (str_app_nil_r path).
  rewrite find_sub_skip by (apply no_open_skip, Hpath).
  reflexivity.
Qed.

Lemma standard_loop_no_open (params : Params) (path : string) (processed : list string) :
  no_open path = true ->
  fold_left standard_step params (path, processed) = (path, processed).
Proof.
  intros Hpath. induction params as [|[key value] params IH]; cbn [fold_left]; [reflexivity|].
  unfold standard_step at 2.
  rewrite (str_includes_no_open path key Hpath).
  destruct (negb (includes_str processed key)); exact IH.
Qed.

(** ** One request per call *)

Lemma filter_events_record_hit (P : Event -> bool) (e : Event) (st : State) :
  P e = true -> List.filter P (events (record e st)) = List.filter P (events st) ++ [e].
Proof.
  intros He. unfold record. cbn [events].
  rewrite List.filter_app. cbn [List.filter]. rewrite He. reflexivity.
Qed.

Lemma filter_http_handler (env : Env) (name : string) (m : ClientMethod)
    (progressReporter : bool) (st : State) :
  List.filter is_http (events (state_at_handler env name m progressReporter st))
  = List.filter is_http (events st).
Proof.
  rewrite state_at_handler_eq. cbv zeta.
  rewrite filter_events_record by reflexivity.
  destruct (progress_target (context st) progressReporter) as [token|].
  - rewrite events_arrive, filter_events_record by reflexivity.
    cbn [events]. rewrite !List.filter_app, init_events_no_http. cbn.
    rewrite !app_nil_r. reflexivity.
  - cbn [events]. rewrite !List.filter_app, init_events_no_http. cbn.
    rewrite !app_nil_r. reflexivity.
Qed.

Ltac http_trace :=
  repeat first
    [ rewrite events_arrive
    | rewrite filter_events_record by first [ reflexivity | destruct (_ || _); reflexivity ]
    | match goal with
      | |- context [List.filter is_http (events (match ?t with Some _ => _ | None => _ end))] =>
          destruct t
      end ].

(** One request per call.  A call of a supported tool on an object of
    arguments, with a context that is not aborted, issues exactly one HTTP
    request, whatever the reply: a rejected request is not sent again.
    The request carries the abort signal exactly when the call has a
    context. *)
Theorem executeTool_issues_one_request (env : Env) (name : string) (m : ClientMethod)
    (o : Params) (progressReporter : bool) (st : State) :
  switch_on switch_cases name = Some m ->
  context_aborted (context st) = false ->
  exists x,
    fst (extract (endpoint_of m) (ArgsObject o) st) = inl x /\
    let req := build_request (endpoint_of m) x
                 (make_requestOptions (context st) progressReporter) in
    List.filter is_http
      (events (snd (executeTool env (AirtableClient env) name (ArgsObject o)
                      progressReporter st)))
    = List.filter is_http (events st) ++ [EvHttp req] /\
    with_signal req = match context st with Some _ => true | None => false end.
Proof.
  intros Hsw Hlive.
  destruct (extract_object_total (endpoint_of m) o st) as [x Hx].
  exists x. split; [rewrite Hx; reflexivity|]. cbv zeta.
  split; [|reflexivity].
  rewrite (executeTool_supported _ _ _ m) by assumption.
  unfold AirtableClient.
  rewrite (call_endpoint_object env _ o _ _ x)
    by (rewrite (extract_any_state _ _ st), Hx; reflexivity).
  cbv zeta.
  destruct (http_reply env _) as [data| |msg]; [destruct (is_defined data)| |].
  - rewrite after_handler_run. cbn [snd]. http_trace;
      rewrite filter_events_record_hit by reflexivity; http_trace;
      rewrite filter_http_handler; reflexivity.
  - rewrite on_error_run. cbn [snd]. http_trace;
      rewrite filter_events_record_hit by reflexivity; http_trace;
      rewrite filter_http_handler; reflexivity.
  - rewrite on_error_run. cbn [snd]. http_trace;
      rewrite filter_events_record_hit by reflexivity; http_trace;
      rewrite filter_http_handler; reflexivity.
  - rewrite on_error_run. cbn [snd]. http_trace;
      rewrite filter_events_record_hit by reflexivity; http_trace;
      rewrite filter_http_handler; reflexivity.
Qed.

Lemma executeTool_issues_one_request_example :
  exists x,
    fst (extract (endpoint_of getRecord)
           (ArgsObject [("base_id", JStr "appX"); ("table_id_or_name", JStr "Tasks");
                        ("record_id", JStr "rec1")])
           (sample_state (Some (sample_context None false)))) = inl x /\
    let req := build_request (endpoint_of getRecord) x
                 (make_requestOptions (context (sample_state (Some (sample_context None false))))
                    false) in
    List.filter is_http
      (events (snd (executeTool (sample_env (Rejected "Request failed with status code 404") false)
                      (AirtableClient
                         (sample_env (Rejected "Request failed with status code 404") false))
                      "airtable_get_record"
                      (ArgsObject [("base_id", JStr "appX"); ("table_id_or_name", JStr "Tasks");
                                   ("record_id", JStr "rec1")])
                      false (sample_state (Some (sample_context None false))))))
    = List.filter is_http (events (sample_state (Some (sample_context None false))))
      ++ [EvHttp req] /\
    with_signal req
    = match context (sample_state (Some (sample_context None false))) with
      | Some _ => true
      | None => false
      end.
Proof.
  apply (executeTool_issues_one_request
           (sample_env (Rejected "Request failed with status code 404") false)
           "airtable_get_record" getRecord); reflexivity.
Defined.

(** ** The progress of a call that fails *)

(** A tracked call whose request is cancelled or rejected reports its
    start and nothing more: the report of [executeTool] and the callback
    of the endpoint method, both with progress 0, and no event with
    progress 100. *)
Theorem executeTool_failed_request_reports_start_only (env : Env) (name : string)
    (m : ClientMethod) (o : Params) (st : State) (ctx : RequestContext)
    (token : ProgressToken) (x : Extracted) :
  switch_on switch_cases name = Some m ->
  context st = Some ctx ->
  aborted (signal (abortController ctx)) = false ->
  progressToken ctx = Some token ->
  token_truthy token = true ->
  fst (extract (endpoint_of m) (ArgsObject o) st) = inl x ->
  (forall data,
      http_reply env (build_request (endpoint_of m) x (make_requestOptions (context st) true))
      <> Resolved data) ->
  progress_events (snd (executeTool env (AirtableClient env) name (ArgsObject o) true st))
  = progress_events st
    ++ [EvReport token (start_progress m);
        EvCallback token
          (progress_of 0 ("Starting " +:+ ep_name (endpoint_of m) +:+ " request..."))].
Proof.
  intros Hsw Hctx Hlive Htok Htruthy Hx Hreply.
  pose proof (progress_target_truthy ctx token Htok Htruthy) as Htarget.
  rewrite (executeTool_supported _ _ _ m); [|exact Hsw|rewrite Hctx; exact Hlive].
  unfold AirtableClient.
  rewrite (call_endpoint_object env _ o _ _ x)
    by (rewrite (extract_any_state _ _ st); exact Hx).
  cbv zeta.
  assert (Hopt : onProgress (make_requestOptions (context st) true) = Some token).
  { unfold make_requestOptions. cbn [onProgress]. rewrite Hctx. exact Htarget. }
  assert (Hstart : progress_events (state_at_handler env name m true st)
                   = progress_events st ++ [EvReport token (start_progress m)]).
  { rewrite state_at_handler_eq. cbv zeta. rewrite Hctx, Htarget.
    trace_simpl. cbn [is_progress_event]. rewrite app_nil_r.
    unfold progress_events. cbn [events].
    rewrite !List.filter_app. cbn [List.filter is_progress_event app].
    replace (List.filter is_progress_event (init_events (initialized st))) with (@nil Event)
      by (destruct (initialized st); reflexivity).
    rewrite !app_nil_r. reflexivity. }
  rewrite Hopt.
  destruct (http_reply env _) as [data| |msg] eqn:E.
  - exfalso. exact (Hreply data eq_refl).
  - rewrite on_error_run. cbn [snd]. trace_simpl.
    cbn [is_progress_event]. rewrite Hstart, !app_nil_r, <- !app_assoc. reflexivity.
  - rewrite on_error_run. cbn [snd]. trace_simpl.
    cbn [is_progress_event]. rewrite Hstart, !app_nil_r, <- !app_assoc. reflexivity.
Qed.

Lemma executeTool_failed_request_reports_start_only_example :
  progress_events
    (snd (executeTool (sample_env Cancelled true)
            (AirtableClient (sample_env Cancelled true)) "airtable_create_records"
            sample_record_args true
            (sample_state (Some (sample_context (Some (TokStr "p1")) false)))))
  = progress_events (sample_state (Some (sample_context (Some (TokStr "p1")) false)))
    ++ [EvReport (TokStr "p1") (start_progress createRecords);
        EvCallback (TokStr "p1")
          (progress_of 0 ("Starting " +:+ ep_name (endpoint_of createRecords)
                          +:+ " request..."))].
Proof.
  apply (executeTool_failed_request_reports_start_only (sample_env Cancelled true)
           "airtable_create_records" createRecords
           [("base_id", JStr "appX"); ("table_id_or_name", JStr "Tasks"); ("records", JArr [])]
           (sample_state (Some (sample_context (Some (TokStr "p1")) false)))
           (sample_context (Some (TokStr "p1")) false) (TokStr "p1")
           {| pathParams := [("base_id", JStr "appX"); ("table_id_or_name", JStr "Tasks")];
              queryParams := []; bodyParams := [("records", JArr [])];
              extractedParams := ["base_id"; "table_id_or_name"] |});
    try reflexivity.
  intros data. discriminate.
Defined.
(** ** A Google-style placeholder *)

#[local] Arguments String.append : simpl nomatch.

Lemma regex_matches_from_skip (match_at : string -> option (string * string))
    (a b : string) :
  regex_matches_from match_at (String.length a) (a +:+ b)
  = regex_matches_from match_at 0 b.
Proof.
  induction a as [|c a IH]; cbn [String.length String.append].
  - destruct b; reflexivity.
  - cbn [regex_matches_from]. exact IH.
Qed.

Lemma google_placeholder_eq (name pattern : string) :
  google_placeholder name pattern
  = String "{" (name +:+ String "=" (pattern +:+ "}")).
Proof. reflexivity. Qed.

Lemma google_match_at_placeholder (name pattern rest : string) :
  name <> "" ->
  plain_key name = true ->
  no_close pattern = true ->
  google_match_at (google_placeholder name pattern +:+ rest)
  = Some (google_placeholder name pattern, name).
Proof.
  intros Hne Hname Hpat.
  rewrite google_placeholder_eq. cbn [String.append].
  rewrite str_app_assoc. cbn [String.append]. rewrite str_app_assoc. cbn [String.append].
  unfold google_match_at.
  rewrite span_until_stop.
  2:{ eapply all_chars_weaken; [|exact Hname]. intros c Hc.
      apply andb_true_iff in Hc as [Hb He].
      apply andb_true_iff in Hb as [_ Hcl]. unfold is_close_or_eq.
      unfold not_close in Hcl. rewrite negb_orb, Hcl, He. reflexivity. }
  2:{ reflexivity. }
  destruct name as [|a name]; [contradiction|].
  rewrite span_until_stop; [reflexivity | exact Hpat | reflexivity].
Qed.

(** The one match of the Google-style expression in a template made of
    text, one Google-style placeholder and text. *)
Lemma google_matches_one (before name pattern after : string) :
  no_open before = true ->
  name <> "" ->
  plain_key name = true ->
  no_close pattern = true ->
  no_open after = true ->
  google_matches (before +:+ google_placeholder name pattern +:+ after)
  = [(google_placeholder name pattern, name)].
Proof.
  intros Hbefore Hne Hname Hpat Hafter. unfold google_matches.
  rewrite google_scan_skip by exact Hbefore.
  pose proof (google_match_at_placeholder name pattern after Hne Hname Hpat) as Hat.
  rewrite google_placeholder_eq in *. cbn [String.append] in *.
  cbn [regex_matches_from]. rewrite Hat.
  match goal with
  | |- context [String.length (String ?c ?x) - 1] =>
      replace (String.length (String c x) - 1) with (String.length x)
        by (cbn [String.length]; lia)
  end.
  rewrite regex_matches_from_skip.
  rewrite <- (str_app_nil_r after), google_scan_skip by exact Hafter.
  reflexivity.
Qed.

(** [buildPath] on a Google-style placeholder.  In a template made of
    text without an opening brace around one placeholder [{name=pattern}],
    when the parameters define [name], the whole placeholder, pattern
    included, is replaced by the encoded value. *)
Theorem buildPath_google_placeholder (before name pattern after : string)
    (params : Params) :
  no_open before = true ->
  name <> "" ->
  plain_key name = true ->
  no_close pattern = true ->
  no_open after = true ->
  is_defined (get_param params name) = true ->
  buildPath (before +:+ google_placeholder name pattern +:+ after) params
  = before +:+ encodePathComponent (JsString (get_param params name)) +:+ after.
Proof.
  intros Hbefore Hne Hname Hpat Hafter Hdef. unfold buildPath.
  rewrite google_matches_one by assumption.
  cbn [fold_left]. unfold google_step.
  rewrite (proj2 (String.eqb_neq name "") Hne), Hdef. cbn [negb andb].
  assert (Hreplace : str_replace (before +:+ google_placeholder name pattern +:+ after)
                       (google_placeholder name pattern)
                       (encodePathComponent (JsString (get_param params name)))
                     = before +:+ encodePathComponent (JsString (get_param params name))
                       +:+ after).
  { unfold str_replace. rewrite google_placeholder_eq.
    rewrite find_sub_skip by (apply no_open_skip, Hbefore).
    rewrite <- google_placeholder_eq.
    assert (Hfind : find_sub (google_placeholder name pattern)
                      (google_placeholder name pattern +:+ after) = Some (EmptyString, after)).
    { pose proof (strip_prefix_app (google_placeholder name pattern) after) as Hstrip.
      rewrite google_placeholder_eq in *. cbn [String.append] in *.
      cbn [find_sub]. rewrite Hstrip. reflexivity. }
    rewrite google_placeholder_eq in Hfind. rewrite google_placeholder_eq, Hfind.
    rewrite get_substitution_plain by apply encodePathComponent_no_dollar.
    rewrite str_app_nil_r. reflexivity. }
  rewrite Hreplace.
  rewrite standard_loop_no_open; [reflexivity|].
  unfold no_open. rewrite !all_chars_app.
  fold (no_open before). fold (no_open after).
  rewrite Hbefore, Hafter, (encodePathComponent_no_open _). reflexivity.
Qed.

Lemma buildPath_google_placeholder_example :
  buildPath ("/v1/" +:+ google_placeholder "resourceName" "people/*" +:+ ":get")
    [("resourceName", JStr "people/c 1")]
  = "/v1/" +:+ encodePathComponent (JsString (get_param [("resourceName", JStr "people/c 1")]
                                                "resourceName")) +:+ ":get".
Proof.
  apply buildPath_google_placeholder; try reflexivity. discriminate.
Defined.

#[local] Arguments String.append : simpl never.

(** ** Worked examples *)

(** C1 at work: a tool that does not exist, called on a context that is
    already aborted. *)
Lemma executeTool_cancelled_before_dispatch_example :
  context_aborted (context (sample_state (Some (sample_context None true)))) = true /\
  executeTool (sample_env (Resolved (JObj [])) false)
    (AirtableClient (sample_env (Resolved (JObj [])) false))
    "not_a_real_tool" ArgsUndefined true
    (sample_state (Some (sample_context None true)))
  = (inr (Error "Request was cancelled"),
     {| initialized := false;
        context := Some (sample_context None true);
        events := [EvLog (LogToolStart "not_a_real_tool");
                   EvLog (LogInfo "TOOL_CANCELLED_EARLY")] |}).
Proof.
  split; [reflexivity|].
  apply (proj1 (executeTool_cancelled_before_dispatch
                  (sample_env (Resolved (JObj [])) false)
                  (AirtableClient (sample_env (Resolved (JObj [])) false))
                  "not_a_real_tool" ArgsUndefined true
                  (sample_state (Some (sample_context None true)))
                  eq_refl)).
Defined.

(** C2 at work: the scenario of the design, a tool named
    "not_a_real_tool". *)
Lemma executeTool_unknown_tool_example :
  canHandle "not_a_real_tool" = false /\
  executeTool (sample_env (Resolved (JObj [])) false)
    (AirtableClient (sample_env (Resolved (JObj [])) false))
    "not_a_real_tool" (ArgsObject []) true
    (sample_state (Some (sample_context None false)))
  = (inr (Error "Unknown tool: not_a_real_tool"),
     {| initialized := true;
        context := Some (sample_context None false);
        events := [EvLog (LogToolStart "not_a_real_tool");
                   EvLog (LogInfo "TOOLS_INIT");
                   EvLog (LogInfo "CLIENT_INITIALIZATION");
                   EvLog (LogInfo "CLIENT_INITIALIZATION");
                   EvLog (LogError "TOOL_ERROR")] |}).
Proof.
  split; [reflexivity|].
  apply (proj1 (executeTool_unknown_tool
                  (sample_env (Resolved (JObj [])) false)
                  (AirtableClient (sample_env (Resolved (JObj [])) false))
                  "not_a_real_tool" (ArgsObject []) true
                  (sample_state (Some (sample_context None false)))
                  eq_refl eq_refl)).
Defined.

(** C3 at work: the scenario of the design, "create_records" cancelled
    while its request is in flight. *)
Lemma executeTool_cancelled_during_call_example :
  let env := sample_env Cancelled true in
  let st := sample_state (Some (sample_context None false)) in
  let st_f :=
    snd (AirtableClient env createRecords sample_record_args
           (make_requestOptions (context st) true)
           (state_at_handler env "airtable_create_records" createRecords true st)) in
  context_aborted (context st_f) = true /\
  executeTool env (AirtableClient env) "airtable_create_records" sample_record_args true st
  = (inr (Error "Request was cancelled"), record (EvLog (LogInfo "TOOL_CANCELLED")) st_f) /\
  fst (AirtableClient env createRecords sample_record_args
         (make_requestOptions (context st) true) st)
  = inr (Error "Request was cancelled").
Proof.
  cbv zeta. split; [reflexivity|]. split.
  - apply (proj1 (executeTool_cancelled_during_call (sample_env Cancelled true))
             (AirtableClient (sample_env Cancelled true))
             "airtable_create_records" createRecords sample_record_args true
             (sample_state (Some (sample_context None false)))).
    + reflexivity.
    + reflexivity.
    + reflexivity.
    + left. reflexivity.
  - apply (proj2 (executeTool_cancelled_during_call (sample_env Cancelled true))
             createRecords
             [("base_id", JStr "appX"); ("table_id_or_name", JStr "Tasks");
              ("records", JArr [])]
             (make_requestOptions (Some (sample_context None false)) true)
             (sample_state (Some (sample_context None false)))
             {| pathParams := [("base_id", JStr "appX"); ("table_id_or_name", JStr "Tasks")];
                queryParams := [];
                bodyParams := [("records", JArr [])];
                extractedParams := ["base_id"; "table_id_or_name"] |}).
    + reflexivity.
    + reflexivity.
Defined.

(** C4 at work: the scenario of the design, "list_bases" answered. *)
Lemma executeTool_completed_example :
  let env := sample_env (Resolved (JObj [])) false in
  let st := sample_state (Some (sample_context None false)) in
  fst (executeTool env (AirtableClient env) "airtable_list_bases" (ArgsObject []) true st)
  = inl {| content := [ {| type := "text"; text := "{}" |} ] |}.
Proof.
  cbv zeta.
  apply (proj2 (executeTool_completed (sample_env (Resolved (JObj [])) false))
           [] true (sample_state (Some (sample_context None false)))
           no_params (JObj [])).
  - reflexivity.
  - reflexivity.
  - reflexivity.
  - reflexivity.
Defined.

(** With the token "operation-123" the two reports of "list_bases" are
    made, around the call of the client. *)
Lemma executeTool_progress_reports_example :
  let env := sample_env (Resolved (JObj [])) false in
  let token := TokStr "operation-123" in
  let st := sample_state (Some (sample_context (Some token) false)) in
  events (state_at_handler env "airtable_list_bases" listBases true st)
  = [EvLog (LogToolStart "airtable_list_bases");
     EvLog (LogInfo "TOOLS_INIT");
     EvLog (LogInfo "CLIENT_INITIALIZATION");
     EvLog (LogInfo "CLIENT_INITIALIZATION");
     EvLog (LogDebug "PARAM_VALIDATION");
     EvLog (LogDebug "TOOL_EXECUTE");
     EvReport token {| progress := 0; total := Some 100%Z;
                       message := "Starting list_bases operation..." |};
     EvInvoke listBases].
Proof.
  cbv zeta.
  apply (proj1 (executeTool_progress_reports
                  (sample_env (Resolved (JObj [])) false)
                  (AirtableClient (sample_env (Resolved (JObj [])) false))
                  "airtable_list_bases" listBases (ArgsObject [])
                  (sample_state (Some (sample_context (Some (TokStr "operation-123")) false)))
                  (sample_context (Some (TokStr "operation-123")) false)
                  (TokStr "operation-123")
                  eq_refl eq_refl eq_refl eq_refl eq_refl)).
Defined.

(** The four progress events of "list_bases" called with the token
    "operation-123". *)
Lemma executeTool_progress_sequence_example :
  let env := sample_env (Resolved (JObj [])) false in
  let token := TokStr "operation-123" in
  let st := sample_state (Some (sample_context (Some token) false)) in
  progress_events
    (snd (executeTool env (AirtableClient env) "airtable_list_bases" (ArgsObject []) true st))
  = [EvReport token {| progress := 0; total := Some 100%Z;
                       message := "Starting list_bases operation..." |};
     EvCallback token {| progress := 0; total := Some 100%Z;
                         message := "Starting list_bases request..." |};
     EvCallback token {| progress := 100; total := Some 100%Z;
                         message := "Completed list_bases request" |};
     EvReport token {| progress := 100; total := Some 100%Z;
                       message := "Completed list_bases operation" |}].
Proof.
  cbv zeta.
  apply (proj1 (executeTool_progress_sequence
                  (sample_env (Resolved (JObj [])) false)
                  "airtable_list_bases" listBases []
                  (sample_state (Some (sample_context (Some (TokStr "operation-123")) false)))
                  (sample_context (Some (TokStr "operation-123")) false)
                  (TokStr "operation-123") no_params (JObj [])
                  eq_refl eq_refl eq_refl eq_refl eq_refl eq_refl eq_refl eq_refl)).
Defined.

(** Without a token, a call of "list_bases" that succeeds emits no
    progress event. *)
Lemma executeTool_no_token_no_progress_example :
  List.filter is_progress_event
    (events (snd (executeTool (sample_env (Resolved (JObj [])) false)
                    (AirtableClient (sample_env (Resolved (JObj [])) false))
                    "airtable_list_bases" (ArgsObject []) true
                    (sample_state (Some (sample_context None false))))))
  = [].
Proof.
  apply (executeTool_no_token_no_progress
           (sample_env (Resolved (JObj [])) false)
           "airtable_list_bases" (ArgsObject []) true
           (sample_state (Some (sample_context None false)))
           eq_refl).
Defined.

(** C6 on the token 0.  A progress token is a string or a number, and 0
    is a number; yet with the token 0 and a reporter, a call of
    "airtable_list_bases" that succeeds emits no progress event at all:
    the test on the token reads 0 as no token. *)
Theorem token_zero_reports_nothing :
  let env := sample_env (Resolved (JObj [])) false in
  let st := sample_state (Some (sample_context (Some (TokNum 0)) false)) in
  let run := executeTool env (AirtableClient env) "airtable_list_bases" (ArgsObject []) true st in
  progressToken (sample_context (Some (TokNum 0)) false) = Some (TokNum 0) /\
  fst run = inl {| content := [ {| type := "text"; text := "{}" |} ] |} /\
  List.filter is_progress_event (events (snd run)) = [].
Proof. cbv zeta. repeat split; reflexivity. Qed.

(** The same holds of the empty string. *)
Lemma token_empty_reports_nothing :
  let env := sample_env (Resolved (JObj [])) false in
  let st := sample_state (Some (sample_context (Some (TokStr "")) false)) in
  List.filter is_progress_event
    (events (snd (executeTool env (AirtableClient env) "airtable_list_bases"
                    (ArgsObject []) true st))) = [].
Proof. reflexivity. Qed.

(** The test of the suite, "airtable_create_records" called with empty
    arguments: nothing refuses them, the request goes out on the path of
    the template, placeholders and all. *)
Lemma executeTool_refuses_no_arguments_example :
  let env := sample_env (Rejected "Request failed with status code 404") false in
  let st := sample_state (Some (sample_context None false)) in
  let run := executeTool env (AirtableClient env) "airtable_create_records"
               (ArgsObject []) true st in
  In (EvHttp {| verb := POST; url := "/{base_id}/{table_id_or_name}"; query := [];
                body := None; with_signal := true |}) (events (snd run)) /\
  fst run = inr (Error "Failed to execute create_records: Request failed with status code 404").
Proof.
  cbv zeta.
  destruct (executeTool_refuses_no_arguments
              (sample_env (Rejected "Request failed with status code 404") false)
              "airtable_create_records" createRecords [] true
              (sample_state (Some (sample_context None false)))
              eq_refl eq_refl) as (x & Hx & Hrun).
  injection Hx as <-. exact Hrun.
Defined.

(** C8 at work: the cancellation of the test suite, for a request that
    was never registered; a cancellation that arrives after completion;
    and a second cancellation. *)
Lemma cancel_unknown_or_repeated_example :
  let reg := CancellationRegistry.run
               [CancellationRegistry.Register "r1"; CancellationRegistry.Register "r2";
                CancellationRegistry.Unregister "r1"]
               CancellationRegistry.empty in
  let once := CancellationRegistry.step reg
                (CancellationRegistry.Cancel "r2" (Some "User cancelled")) in
  CancellationRegistry.cancel "request-123" (Some "User cancelled") reg = Ok reg /\
  CancellationRegistry.cancel "r1" (Some "User cancelled") reg = Ok reg /\
  CancellationRegistry.cancel "r2" (Some "again") once = Ok once.
Proof.
  cbv zeta. split; [|split].
  - apply (proj1 (cancel_unknown_or_repeated "request-123" (Some "User cancelled"))).
    reflexivity.
  - apply (proj1 (proj2 (proj2 (cancel_unknown_or_repeated "r1" (Some "User cancelled"))))
             (CancellationRegistry.run
                [CancellationRegistry.Register "r1"; CancellationRegistry.Register "r2"]
                CancellationRegistry.empty)).
    reflexivity.
  - apply (proj2 (proj2 (proj2 (cancel_unknown_or_repeated "r2" (Some "again"))))
             (CancellationRegistry.run
                [CancellationRegistry.Register "r1"; CancellationRegistry.Register "r2";
                 CancellationRegistry.Unregister "r1"]
                CancellationRegistry.empty)
             _ (Some "User cancelled")).
    reflexivity.
Defined.

(** C9 at work: a call cancelled in flight keeps the identity of its
    context, and a call that nothing disturbs leaves its context as it
    was. *)
Lemma executeTool_context_unchanged_example :
  let st := sample_state (Some (sample_context (Some (TokStr "operation-123")) false)) in
  context_evolves (context st)
    (context (snd (executeTool (sample_env Cancelled true)
                     (AirtableClient (sample_env Cancelled true))
                     "airtable_create_records" sample_record_args true st))) /\
  context (snd (executeTool (sample_env (Resolved (JObj [])) false)
                  (AirtableClient (sample_env (Resolved (JObj [])) false))
                  "airtable_create_records" sample_record_args true st))
  = context st.
Proof.
  cbv zeta. split.
  - apply (proj1 (executeTool_context_unchanged (sample_env Cancelled true)
                    (AirtableClient (sample_env Cancelled true))
                    "airtable_create_records" sample_record_args true
                    (sample_state (Some (sample_context (Some (TokStr "operation-123")) false))))).
    apply (proj1 (proj2 (proj2 (executeTool_context_unchanged (sample_env Cancelled true)
                    (AirtableClient (sample_env Cancelled true))
                    "airtable_create_records" sample_record_args true
                    (sample_state None))))).
  - apply (proj1 (proj2 (executeTool_context_unchanged (sample_env (Resolved (JObj [])) false)
                    (AirtableClient (sample_env (Resolved (JObj [])) false))
                    "airtable_create_records" sample_record_args true
                    (sample_state (Some (sample_context (Some (TokStr "operation-123")) false)))))).
    + intros p. destruct p; reflexivity.
    + apply (proj2 (proj2 (proj2 (executeTool_context_unchanged
                    (sample_env (Resolved (JObj [])) false)
                    (AirtableClient (sample_env (Resolved (JObj [])) false))
                    "airtable_create_records" sample_record_args true
                    (sample_state None))))).
      intros p. destruct p; reflexivity.
Defined.

(** C10 at work: the path of [getRecord] when [base_id] is missing. *)
Lemma buildPath_fills_distinct_placeholders_example :
  buildPath "/{base_id}/{table_id_or_name}/{record_id}"
    [("table_id_or_name", JStr "My Table/1"); ("record_id", JStr "rec1")]
  = "/{base_id}/My%20Table/1/rec1".
Proof.
  apply (proj1 (buildPath_fills_distinct_placeholders get_record_template
                  [("table_id_or_name", JStr "My Table/1"); ("record_id", JStr "rec1")]
                  eq_refl eq_refl eq_refl)).
Defined.
